(** * sigmaepsilon: global assembly and RVE homogenization

    A shallow embedding of the parts of [sigmaepsilon] that assemble the
    global finite-element system ([solid/fem/mesh.py]), recover material
    strains of Mindlin plates and shells ([utils/fem/mindlinplate.py],
    [utils/fem/mindlinshell.py]) and homogenize a periodic surface cell
    ([material/homg/rvs.py]).
    Further modules cover the stiffness and strain-displacement
    routines of the two Mindlin files, the stresses of
    [solid/fem/model/utils.py], the masses and the mass matrix of a
    mesh, the model that a mesh inherits, and the line meshes of
    [solid/fem/linemesh.py].

    Conventions of the embedding:
    - a float64 entry is an exact rational ([Qc]); rounding and overflow
      are outside the model; an array in which a division by zero left
      [inf] or [nan] entries is kept apart as [nonfinite];
    - a raised Python exception is a value [Raise e] of [result];
    - numpy arrays are lists (of lists ...) where their shape decides
      what the code does, and index functions where a routine only
      writes entries of an array of fixed shape;
    - objects mutated in place (the structure, its mesh, its blocks)
      are threaded as explicit state. *)

From Stdlib Require Import QArith Qcanon String Ascii.
From stdpp Require Import base option list numbers strings.

Local Open Scope Qc_scope.

(** ** Scalars *)

Abbreviation scalar := Qc (only parsing).

(** The float literal of an integer constant. *)
Definition QcZ (z : Z) : scalar := Q2Qc (inject_Z z).

(** Decide a closed equation between values with decidable equality. *)
Ltac by_evaluation :=
  lazymatch goal with
  | |- ?x = ?y => apply (bool_decide_eq_true_1 (x = y)); vm_compute; reflexivity
  | |- ?x <> ?y => apply (bool_decide_eq_false_1 (x = y)); vm_compute; reflexivity
  | |- ¬ (?x = ?y) => apply (bool_decide_eq_false_1 (x = y)); vm_compute; reflexivity
  end.

(** ** Exceptions *)

Inductive exception : Type :=
  | ValueError            (* shape mismatch in a slice assignment *)
  | IndexError
  | UnboundLocalError     (* a local name read before any assignment *)
  | NotImplementedError
  | AttributeError
  | ExternalError.        (* raised inside a routine that is not part of the embedding *)

Inductive result (A : Type) : Type :=
  | Ok (a : A)
  | Raise (e : exception).
Arguments Ok {A} a.
Arguments Raise {A} e.

#[global] Instance exception_eq_dec : EqDecision exception.
Proof. solve_decision. Defined.
#[global] Instance result_eq_dec {A} `{EqDecision A} : EqDecision (result A).
Proof. solve_decision. Defined.

#[global] Instance result_ret : MRet result := fun _ a => Ok a.
#[global] Instance result_bind : MBind result := fun _ _ f m =>
  match m with
  | Ok a => f a
  | Raise e => Raise e
  end.

#[global] Instance result_fmap : FMap result := fun _ _ f m =>
  match m with
  | Ok a => Ok (f a)
  | Raise e => Raise e
  end.

Definition is_Ok {A} (r : result A) : Prop := exists a, r = Ok a.

Definition returns {A} (r : result A) : bool :=
  match r with
  | Ok _ => true
  | Raise _ => false
  end.

(** ** Floats that are not numbers

    A division by zero raises nothing in numpy's arithmetic, nor in the
    loops that numba compiles for parallel execution: the quotient is
    [inf] or [nan]. The scalars above cannot hold these. A computed value
    is [finite] with its content, or [nonfinite] when an entry of it is
    [inf] or [nan]. *)
Inductive floats (A : Type) : Type :=
  | finite (a : A)
  | nonfinite.
Arguments finite {A} a.
Arguments nonfinite {A}.

#[global] Instance floats_eq_dec {A} `{EqDecision A} : EqDecision (floats A).
Proof. solve_decision. Defined.

(** The elements of an array are finite when each of them is. *)
Fixpoint all_finite {A} (l : list (floats A)) : floats (list A) :=
  match l with
  | [] => finite []
  | finite a :: l' =>
      match all_finite l' with
      | finite k => finite (a :: k)
      | nonfinite => nonfinite
      end
  | nonfinite :: _ => nonfinite
  end.

(** [l[i]] with Python's bounds check (non-negative indices only). *)
Definition getitem {A} (l : list A) (i : nat) : result A :=
  match l !! i with
  | Some a => Ok a
  | None => Raise IndexError
  end.

(** ** Material strains of Mindlin plates and shells
    ([utils/fem/mindlinplate.py], [utils/fem/mindlinshell.py]) *)

Module Mindlin.

Definition _NHOOKE_ : nat := 5.

(** Number of generalized strains of the two element families; the
    strain-displacement matrices have this many rows, and [model_strains]
    of [solid/fem/model/utils.py] returns this many components. *)
Definition plate_NSTRE : nat := 5.
Definition shell_NSTRE : nat := 8.

(** An array of shape (nE, nP, n): per element, per evaluation point,
    the components. An array with no element or no point carries no
    trailing width in this representation. *)
Abbreviation array3 := (list (list (list scalar))) (only parsing).

(** One row of [dst[..., a:b] = src]: the value must have the width of
    the slice, or width one (then it is broadcast). *)
Definition setslice (width : nat) (src : list scalar) : result (list scalar) :=
  if decide (length src = width) then Ok src
  else match src with
       | [x] => Ok (replicate width x)
       | _ => Raise ValueError
       end.

(** [(5 / 4) * (1 - 4 * (z / t[i]) ** 2)] in the body of the parallel
    loop: for a zero thickness [z / t[i]] is [inf] or [nan], and so is
    the factor. *)
Definition shear_factor (z ti : scalar) : floats scalar :=
  if decide (ti = 0) then nonfinite
  else finite (QcZ 5 / QcZ 4 * (1 - QcZ 4 * (z / ti) ^ 2)).

(** [res[:, :, :3] = model_strains[:, :, :3] * z], one row. *)
Definition inplane_row (z : scalar) (row : list scalar) : result (list scalar) :=
  setslice 3 ((fun m => m * z) <$> take 3 row).

(** [res[i, :, 3:] = k * model_strains[i, :, 3:]], one row; [res] has
    [_NHOOKE_] components, of which [head] are the first three. *)
Definition shear_row (k : scalar) (head row : list scalar) : result (list scalar) :=
  tail ← setslice (_NHOOKE_ - 3) ((fun m => k * m) <$> drop 3 row);
  mret (head ++ tail).

(** One pass of the loop. With a factor that is not a number the
    assignment is made all the same, its shapes are checked all the same,
    and every value it writes is [inf] or [nan]. *)
Definition shear_element (z : scalar) (t : list scalar)
    (entry : nat * (list (list scalar) * list (list scalar)))
    : result (floats (list (list scalar))) :=
  let '(i, (res_i, strains_i)) := entry in
  ti ← getitem t i;
  match shear_factor z ti with
  | finite k =>
      rows ← mapM (fun '(head, row) => shear_row k head row) (zip res_i strains_i);
      mret (finite rows)
  | nonfinite =>
      rows ← mapM (fun '(head, row) => shear_row 0 head row) (zip res_i strains_i);
      mret (match rows with [] => finite [] | _ => nonfinite end)
  end.

(** The common body of [material_strains_mindlin_plate] and
    [material_strains_mindlin_shell]. *)
Definition material_strains (model_strains : array3) (z : scalar)
    (t : list scalar) : result (floats array3) :=
  let nE := length model_strains in
  res ← mapM (mapM (inplane_row z)) model_strains;
  elements ← mapM (shear_element z t) (zip (seq 0 nE) (zip res model_strains));
  mret (all_finite elements).

Definition material_strains_mindlin_plate := material_strains.
Definition material_strains_mindlin_shell := material_strains.

End Mindlin.

(** ** Global assembly ([solid/fem/mesh.py]) *)

Module Mesh.

(** *** Sparse matrices in coordinate format

    A [scipy.sparse.coo_matrix] is its list of stored triplets: a key
    (row, col) may be stored several times and a stored value may be
    zero. The matrix it denotes has, at a key, the sum of the values
    stored under it. *)
Abbreviation key := (nat * nat)%type (only parsing).
Abbreviation coo := (list (key * scalar)%type) (only parsing).

Fixpoint entry (K : coo) (k : key) : scalar :=
  match K with
  | [] => 0
  | (k', v) :: K' => (if decide (k' = k) then v else 0) + entry K' k
  end.

Definition keys (K : coo) : list key := K.*1.

(** [K.eliminate_zeros()]: drops the stored triplets whose value is zero. *)
Definition eliminate_zeros (K : coo) : coo :=
  filter (fun kv => kv.2 <> 0) K.

(** [K.sum_duplicates()]: one triplet per stored key, holding the sum of
    the values stored under it. scipy also sorts the triplets; the
    storage order is not part of the model. *)
Definition sum_duplicates (K : coo) : coo :=
  (fun k => (k, entry K k)) <$> remove_dups (keys K).

(** [A + B] of two sparse matrices: scipy adds them in compressed-row
    form, where duplicates are summed and zero results are not stored. *)
Definition coo_add (A B : coo) : coo :=
  eliminate_zeros (sum_duplicates (A ++ B)).

(** [np.sum(list).tocoo()]: numpy reduces the list with [+], starting
    from its first item (one item is returned as it is); the sum of an
    empty list is the float [0.0], which has no [tocoo]. *)
Definition np_sum_tocoo (Ks : list coo) : result coo :=
  match Ks with
  | [] => Raise AttributeError
  | K :: Ks' => Ok (foldl coo_add K Ks')
  end.

(** *** Load vectors: arrays of shape (N, nRHS), one column per load case *)
Abbreviation loadvec := (list (list scalar)) (only parsing).

Definition shape (v : loadvec) : list nat := length <$> v.

Definition at_ (v : loadvec) (i j : nat) : scalar :=
  default 0 (v !! i ≫= fun row => row !! j).

Definition add_arrays (a b : loadvec) : loadvec :=
  zip_with (zip_with Qcplus) a b.

Fixpoint sum_arrays (acc : loadvec) (vs : list loadvec) : result loadvec :=
  match vs with
  | [] => Ok acc
  | v :: vs' =>
      if decide (shape v = shape acc) then sum_arrays (add_arrays acc v) vs'
      else Raise ValueError
  end.

(** [np.sum(list, axis=0)]: [None] stands for the float [0.0] that numpy
    returns for an empty list. Arrays of different shapes are refused. *)
Definition np_sum_axis0 (vs : list loadvec) : result (option loadvec) :=
  match vs with
  | [] => Ok None
  | v :: vs' => Some <$> sum_arrays v vs'
  end.

(** numpy's broadcasting of a value to [n] places along one axis: a
    value of [n] entries is taken as it is, a single entry is repeated,
    anything else is refused. *)
Definition broadcast {A} (n : nat) (v : list A) : result (list A) :=
  if decide (length v = n) then Ok v
  else match v with
       | [x] => Ok (replicate n x)
       | _ => Raise ValueError
       end.

(** The value [v] broadcast to the shape of [res], rows first. *)
Definition broadcast_to (res v : loadvec) : result loadvec :=
  rows ← broadcast (length res) v;
  mapM (fun '(r, row) => broadcast (length r) row) (zip res rows).

(** [res += total]: [total] is broadcast to the shape of [res], which
    the sum in place keeps. *)
Definition iadd (res : loadvec) (total : option loadvec) : result loadvec :=
  match total with
  | None => Ok res
  | Some v => v' ← broadcast_to res v; mret (add_arrays res v')
  end.

(** [try: res += ... except Exception: pass] *)
Definition try_pass (res : loadvec) (attempt : result loadvec) : loadvec :=
  match attempt with
  | Ok res' => res'
  | Raise _ => res
  end.

(** [filter(lambda i : i is not None, ...)] *)
Definition not_None (vs : list (option loadvec)) : list loadvec :=
  omap id vs.

(** The entry at a key of the sum of the blocks' matrices, and the
    entry of the sum of the blocks' load vectors, in which a block
    without load data counts for nothing. *)
Definition sumQc (l : list scalar) : scalar := foldr Qcplus 0 l.

Definition blocks_sum (Ks : list coo) (k : key) : scalar :=
  sumQc ((fun K => entry K k) <$> Ks).

Definition contribution (v : option loadvec) (i j : nat) : scalar :=
  match v with
  | Some v => at_ v i j
  | None => 0
  end.

Definition loads_sum (vs : list (option loadvec)) (i j : nat) : scalar :=
  sumQc ((fun v => contribution v i j) <$> vs).

(** *** Arrays without their axes of length one

    [np.squeeze] of an array of shape (N, nRHS): both axes of length one
    leave a single number, one of them leaves the entries along the
    other, none of them leaves the array as it is. The entries and their
    order stay. An array without rows keeps no width in a list of rows;
    it is left as it is. *)
Inductive squeezed : Type :=
  | array2 (v : loadvec)
  | array1 (v : list scalar)
  | array0 (x : scalar).

Definition np_squeeze (v : loadvec) : squeezed :=
  match v with
  | [] => array2 []
  | [[x]] => array0 x
  | [row] => array1 row
  | _ =>
      if forallb (fun row => (length row =? 1)%nat) v then array1 (concat v)
      else array2 v
  end.

(** The entries of an array, in storage order. *)
Definition ravel (a : squeezed) : list scalar :=
  match a with
  | array2 v => concat v
  | array1 v => v
  | array0 x => [x]
  end.

(** *** The mesh

    The tree of blocks is the container of [polymesh]; the embedding
    keeps what the assembly reads from it: the point data of the root
    and the blocks that [cellblocks(inclusive=True)] yields, in order. *)
Abbreviation nodal_array := (list (list (list scalar))) (only parsing).   (* (nP, nDOF, nRHS) *)
Abbreviation fixity_array := (list (list bool)) (only parsing).           (* (nP, nDOF) *)

Record PointData : Type := {
  loads : option nodal_array;      (* [None]: the field is not set *)
  fixity : option fixity_array;
}.

Record FemMesh (Cell : Type) : Type := {
  root_pointdata : PointData;
  cellblocks : list Cell;
}.
Arguments root_pointdata {Cell} _.
Arguments cellblocks {Cell} _.

(** Reading a field of the point data that is not set raises. *)
Definition getattr {A} (field : option A) : result A :=
  match field with
  | Some a => Ok a
  | None => Raise AttributeError
  end.

(** The routines of the cell classes ([.cells]) and of [.preproc] that
    the mesh calls; their code is not part of this development. A block
    without load data answers [None]. *)
Class Kernels (Cell : Type) : Type := {
  celldata_elastic_stiffness_matrix_coo : Cell -> result coo;
  celldata_body_load_vector : Cell -> result (option loadvec);
  celldata_strain_load_vector : Cell -> result (option loadvec);
  fem_load_vector : nodal_array -> result loadvec;
  fem_penalty_matrix_coo : fixity_array -> bool -> bool -> result coo;
}.

Section FemMesh.
Context {Cell : Type} `{Kernels Cell}.

(** [FemMesh.elastic_stiffness_matrix_coo] *)
Definition elastic_stiffness_matrix_coo (self : FemMesh Cell)
    (eliminate_zeros_ sum_duplicates_ : bool) : result coo :=
  let blocks := cellblocks self in
  Ks ← mapM celldata_elastic_stiffness_matrix_coo blocks;
  K ← np_sum_tocoo Ks;
  let K := if eliminate_zeros_ then eliminate_zeros K else K in
  let K := if sum_duplicates_ then sum_duplicates K else K in
  mret K.

(** [FemMesh.penalty_matrix_coo]: the argument [fixity] is assigned
    anew before it is read; [tocoo] changes the storage format of the
    helper's matrix only, not its triplets. *)
Definition penalty_matrix_coo (self : FemMesh Cell)
    (fixity_ : option fixity_array)
    (eliminate_zeros_ sum_duplicates_ : bool) : result coo :=
  fixity_ ← getattr (fixity (root_pointdata self));
  K_coo ← fem_penalty_matrix_coo fixity_ eliminate_zeros_ sum_duplicates_;
  mret K_coo.

(** One of the two guarded updates of [load_vector]. *)
Definition add_block_loads (foo : Cell -> result (option loadvec))
    (blocks : list Cell) (res : loadvec) : loadvec :=
  try_pass res (
    m ← mapM foo blocks;
    total ← np_sum_axis0 (not_None m);
    iadd res total).

(** The method [FemMesh.load_vector], as the decorator [squeeze] of
    [neumann] receives it. *)
Definition load_vector (self : FemMesh Cell) : result loadvec :=
  nodal_data ← getattr (loads (root_pointdata self));
  res ← fem_load_vector nodal_data;
  let blocks := cellblocks self in
  let res := add_block_loads celldata_body_load_vector blocks res in
  let res := add_block_loads celldata_strain_load_vector blocks res in
  mret res.

(** [FemMesh.load_vector] as a caller gets it, under [@squeeze(True)]:
    unless the call says [squeeze=False], the array that the method
    returns goes through [np.squeeze]. *)
Definition load_vector_squeeze (self : FemMesh Cell) (squeeze : bool)
    : result squeezed :=
  res ← load_vector self;
  mret (if squeeze then np_squeeze res else array2 res).

End FemMesh.

End Mesh.

(** ** Homogenization of a periodic surface cell ([material/homg/rvs.py]) *)

Module Homg.

Abbreviation point := (scalar * scalar * scalar)%type (only parsing).
Abbreviation array3 := (list (list (list scalar))) (only parsing).
Abbreviation fixity_array := (list (list bool)) (only parsing).

(** An NSTRE x NSTRE array that the post-processing routines write in
    place: its shape is fixed, its entries are read by index. *)
Abbreviation matrix := (nat -> nat -> scalar) (only parsing).

(** A quadrature rule [(gp, gw)]: points and weights. *)
Abbreviation quadrature := (list (list scalar) * list scalar)%type (only parsing).

(** A Python string is the [string] of its UTF-8 bytes. On a string of
    ASCII characters [str.lower] lowers the capitals A to Z and leaves the
    rest. *)
Definition ascii_lower (c : ascii) : ascii :=
  let n := nat_of_ascii c in
  if (65 <=? n)%nat && (n <=? 90)%nat then ascii_of_nat (n + 32) else c.

Fixpoint ascii_lower_string (s : string) : string :=
  match s with
  | EmptyString => EmptyString
  | String c s' => String (ascii_lower c) (ascii_lower_string s')
  end.

Fixpoint is_ascii (s : string) : bool :=
  match s with
  | EmptyString => true
  | String c s' => (nat_of_ascii c <? 128)%nat && is_ascii s'
  end.

(** [str.lower] is Python's and works on the whole of Unicode: it also
    lowers letters outside ASCII, some of them to ASCII letters (the
    Kelvin sign U+212A to "k"). Its table is not part of this
    development; what is known of it here is its value on the strings of
    ASCII characters. *)
Class Python : Type := {
  lower : string -> string;
  lower_of_ascii : forall s, is_ascii s = true -> lower s = ascii_lower_string s;
}.

(** The binding of the local [NSTRE]: the two branches of the test on
    the model name; no branch binds it for another name. *)
Definition model_dimension `{Python} (model : string) : option nat :=
  if decide (lower model = "mr"%string) then Some 8%nat
  else if decide (lower model = "kl"%string) then Some 6%nat
  else None.

(** Reading a local name. *)
Definition read_local {A} (binding : option A) : result A :=
  match binding with
  | Some a => Ok a
  | None => Raise UnboundLocalError
  end.

Definition zeros2 (n m : nat) : fixity_array := replicate n (replicate m false).
Definition zeros3 (n m k : nat) : array3 := replicate n (replicate m (replicate k 0)).
Definition zeros : matrix := fun _ _ => 0.

(** [a[i, :k] = True] *)
Definition setitem_row_slice (i k : nat) (a : fixity_array) : result fixity_array :=
  row ← getitem a i;
  mret (<[i := replicate (k `min` length row) true ++ drop k row]> a).

(** [row[j] = True] with the bounds check of an integer index. *)
Definition setitem_index (row : list bool) (j : nat) : result (list bool) :=
  if decide (j < length row)%nat then Ok (<[j := true]> row) else Raise IndexError.

Fixpoint setitem_indices (row : list bool) (js : list nat) : result (list bool) :=
  match js with
  | [] => Ok row
  | j :: js' => row' ← setitem_index row j; setitem_indices row' js'
  end.

(** [a[i, [j1, j2]] = True] and [a[i, j] = True] *)
Definition setitem_row_indices (i : nat) (js : list nat) (a : fixity_array)
    : result fixity_array :=
  row ← getitem a i;
  row' ← setitem_indices row js;
  mret (<[i := row']> a).

(** [fixed a p d]: DOF [d] of point [p] is flagged in the fixity array. *)
Definition fixed (a : fixity_array) (p d : nat) : bool :=
  default false (a !! p ≫= fun row => row !! d).

(** The widths of the rows of a fixity array. *)
Definition row_lengths (a : fixity_array) : list nat := length <$> a.

(** [hooke /= area]: numpy divides entry by entry and raises nothing for
    a zero [area]; every quotient is then [inf] or [nan].
    [hooke_avg - hooke] and [result[6:8, 6:8] = hooke[6:8, 6:8] * 5/6]. *)
Definition mdiv (A : matrix) (a : scalar) : floats (nat -> nat -> scalar) :=
  if decide (a = 0) then nonfinite else finite (fun i j => A i j / a).
Definition msub (A B : matrix) : matrix := fun i j => A i j - B i j.
Definition in_shear_block (i j : nat) : bool :=
  (6 <=? i)%nat && (i <? 8)%nat && (6 <=? j)%nat && (j <? 8)%nat.
Definition set_shear_block (R H : matrix) : matrix :=
  fun i j => if in_shear_block i j then H i j * QcZ 5 / QcZ 6 else R i j.

(** The constraint object built from an index map of paired nodes. *)
Record NodeToNode : Type := { imap : list (nat * nat) }.

Section Structure.
Context {CellData : Type}.

(** A cell block: [NDIM] and [strain_loads] are the fields of
    [block.cd] that [homogenize] tests and writes, [cd] the rest of
    the cell data (topology, frames, material, areas). *)
Record Block : Type := {
  NDIM : nat;
  strain_loads : option array3;
  cd : CellData;
}.

Definition set_strain_loads (v : option array3) (b : Block) : Block :=
  {| NDIM := NDIM b; strain_loads := v; cd := cd b |}.

(** The structure with its mesh: what [homogenize] reads and writes. *)
Record Structure : Type := {
  NDOFN : nat;                      (* mesh.NDOFN *)
  points : list point;              (* mesh.points() *)
  pd_loads : option array3;         (* mesh.pd.loads *)
  pd_fixity : option fixity_array;  (* mesh.pd.fixity *)
  pd_dofsol : option array3;        (* mesh.pd.dofsol *)
  blocks : list Block;              (* mesh.cellblocks(inclusive=True) *)
  constraints : list NodeToNode;    (* self.constraints *)
}.

Definition set_pd_loads (v : array3) (s : Structure) : Structure :=
  {| NDOFN := NDOFN s; points := points s; pd_loads := Some v;
     pd_fixity := pd_fixity s; pd_dofsol := pd_dofsol s;
     blocks := blocks s; constraints := constraints s |}.
Definition set_pd_fixity (v : fixity_array) (s : Structure) : Structure :=
  {| NDOFN := NDOFN s; points := points s; pd_loads := pd_loads s;
     pd_fixity := Some v; pd_dofsol := pd_dofsol s;
     blocks := blocks s; constraints := constraints s |}.
Definition set_pd_dofsol (v : array3) (s : Structure) : Structure :=
  {| NDOFN := NDOFN s; points := points s; pd_loads := pd_loads s;
     pd_fixity := pd_fixity s; pd_dofsol := Some v;
     blocks := blocks s; constraints := constraints s |}.
Definition set_blocks (v : list Block) (s : Structure) : Structure :=
  {| NDOFN := NDOFN s; points := points s; pd_loads := pd_loads s;
     pd_fixity := pd_fixity s; pd_dofsol := pd_dofsol s;
     blocks := v; constraints := constraints s |}.
Definition append_constraint (c : NodeToNode) (s : Structure) : Structure :=
  {| NDOFN := NDOFN s; points := points s; pd_loads := pd_loads s;
     pd_fixity := pd_fixity s; pd_dofsol := pd_dofsol s;
     blocks := blocks s; constraints := constraints s ++ [c] |}.

(** Routines that [homogenize] calls and whose code is not part of
    this development: the point cloud of [polymesh], [utils.fem.ebc],
    [homg.utils], the cell classes and the solver of [Structure].
    The post-processing routines receive the block (from which the
    cell forces, coordinates and Jacobians are taken), and return the
    array they accumulate into. *)
Class Externals : Type := {
  bounds : list point -> result ((scalar * scalar) * (scalar * scalar));
  center : list point -> result point;
  index_of_closest : list point -> point -> result nat;
  link_opposite_sides : list point -> list nat -> result (list (nat * nat));
  centers : Block -> result (list point);
  _strain_field_3d_bulk : list point -> array3 -> nat -> result array3;
  _transform_3d_strain_loads_to_surfaces : array3 -> Block -> result array3;
  linear_static_analysis : Structure -> result array3;
  elastic_material_stiffness_matrix : Block -> result array3;
  quadrature_full : Block -> result quadrature;
  _postproc_3d_gauss_stresses :
    Block -> array3 -> quadrature -> matrix -> result matrix;
  _calc_avg_hooke_3d_to_shell :
    array3 -> Block -> quadrature -> matrix -> result matrix;
  _postproc_shell_gauss_dynams :
    Block -> array3 -> quadrature -> matrix -> result matrix;
  _calc_avg_hooke_shell : array3 -> Block -> matrix -> result matrix;
}.

End Structure.
Arguments Block : clear implicits.
Arguments Structure : clear implicits.
Arguments Externals : clear implicits.

(** *** The method [homogenize] *)
Section Homogenize.
Context {CellData : Type} `{!Externals CellData} `{!Python}.

(** Computations on the structure: they read and write it, and end
    with a value or a raised exception; the writes made before an
    exception stay. *)
Definition M (A : Type) : Type :=
  Structure CellData -> result A * Structure CellData.

#[global] Instance M_ret : MRet M := fun _ a s => (Ok a, s).
#[global] Instance M_bind : MBind M := fun _ _ f m s =>
  match m s with
  | (Ok a, s') => f a s'
  | (Raise e, s') => (Raise e, s')
  end.

Definition lift {A} (r : result A) : M A := fun s => (r, s).
Definition get : M (Structure CellData) := fun s => (Ok s, s).
Definition modify (f : Structure CellData -> Structure CellData) : M unit :=
  fun s => (Ok tt, f s).

(** [for block in blocks: body]: the body rewrites the block and may
    raise, also after having written to it. *)
Fixpoint for_blocks {A} (body : Block CellData -> A -> Block CellData * result A)
    (bs : list (Block CellData)) (a : A) : list (Block CellData) * result A :=
  match bs with
  | [] => ([], Ok a)
  | b :: bs' =>
      match body b a with
      | (b', Ok a') =>
          let '(bs'', r) := for_blocks body bs' a' in (b' :: bs'', r)
      | (b', Raise e) => (b' :: bs', Raise e)
      end
  end.

Definition for_blocks_M {A} (body : Block CellData -> A -> Block CellData * result A)
    (a : A) : M A :=
  fun s => let '(bs, r) := for_blocks body (blocks s) a in (r, set_blocks bs s).

(** What a computation does to the constraints of the structure, whether
    it ends with a value or raises: it leaves them as they are, or it
    leaves them and appends at most one. *)
Definition keeps_constraints {A} (m : M A) : Prop :=
  forall (s s' : Structure CellData) r, m s = (r, s') -> constraints s' = constraints s.

Definition appends_at_most_one {A} (m : M A) : Prop :=
  forall (s s' : Structure CellData) r, m s = (r, s') ->
  exists cs, constraints s' = constraints s ++ cs /\ (length cs <= 1)%nat.

(** [periodic_essential_ebc(mesh, axis)] *)
Definition periodic_essential_ebc (mesh : Structure CellData) (axis : list nat)
    : result NodeToNode :=
  imap_ ← link_opposite_sides (points mesh) axis;
  mret {| imap := imap_ |}.

(** Body of the loop "initial strain loads". *)
Definition strain_loads_block (NSTRE : nat) (block : Block CellData) (_ : unit)
    : Block CellData * result unit :=
  match
    centers_ ← centers block;
    _strain_field_3d_bulk centers_ (zeros3 (length centers_) 6 NSTRE) NSTRE
  with
  | Raise e => (block, Raise e)
  | Ok strain_loads_ =>
      if decide (NDIM block = 3%nat) then
        (set_strain_loads (Some strain_loads_) block, Ok tt)
      else if decide (NDIM block = 2%nat) then
        match _transform_3d_strain_loads_to_surfaces strain_loads_ block with
        | Ok strain_loads_ => (set_strain_loads (Some strain_loads_) block, Ok tt)
        | Raise e => (block, Raise e)
        end
      else (block, Raise NotImplementedError)
  end.

(** Body of the loop "postproc": the accumulators are [hooke] (the
    response of the solved cell) and [hooke_avg] (the cells' own
    constitutive matrices, weighted by their measure). *)
Definition postproc_block (dofsol : array3) (block : Block CellData)
    (acc : matrix * matrix) : Block CellData * result (matrix * matrix) :=
  let '(hooke, hooke_avg) := acc in
  let block := set_strain_loads None block in
  (block,
   hooke_block ← elastic_material_stiffness_matrix block;
   gpw ← quadrature_full block;
   if decide (NDIM block = 3%nat) then
     hooke ← _postproc_3d_gauss_stresses block dofsol gpw hooke;
     hooke_avg ← _calc_avg_hooke_3d_to_shell hooke_block block gpw hooke_avg;
     mret (hooke, hooke_avg)
   else if decide (NDIM block = 2%nat) then
     hooke ← _postproc_shell_gauss_dynams block dofsol gpw hooke;
     hooke_avg ← _calc_avg_hooke_shell hooke_block block hooke_avg;
     mret (hooke, hooke_avg)
   else Raise NotImplementedError).

(** The loop "postproc" read one accumulator at a time. [hooke] is fed
    by [_postproc_3d_gauss_stresses] or [_postproc_shell_gauss_dynams]
    with the forces that each block recovers from the displacement
    solution at its quadrature points: the stress response of the solved
    cell. [hooke_avg] is fed by [_calc_avg_hooke_3d_to_shell] or
    [_calc_avg_hooke_shell] with the constitutive matrix of each block
    and its measure: the weighted constitutive matrix. Both start at
    zero and go over the blocks in order. *)
Fixpoint over_blocks {A} (step : Block CellData -> A -> result A)
    (bs : list (Block CellData)) (a : A) : result A :=
  match bs with
  | [] => Ok a
  | b :: bs' => a' ← step b a; over_blocks step bs' a'
  end.

Definition stress_response_of (dofsol : array3) (block : Block CellData)
    (hooke : matrix) : result matrix :=
  gpw ← quadrature_full block;
  if decide (NDIM block = 3%nat) then _postproc_3d_gauss_stresses block dofsol gpw hooke
  else if decide (NDIM block = 2%nat) then
    _postproc_shell_gauss_dynams block dofsol gpw hooke
  else Raise NotImplementedError.

Definition weighted_constitutive_of (block : Block CellData) (hooke_avg : matrix)
    : result matrix :=
  hooke_block ← elastic_material_stiffness_matrix block;
  gpw ← quadrature_full block;
  if decide (NDIM block = 3%nat) then
    _calc_avg_hooke_3d_to_shell hooke_block block gpw hooke_avg
  else if decide (NDIM block = 2%nat) then
    _calc_avg_hooke_shell hooke_block block hooke_avg
  else Raise NotImplementedError.

Definition stress_response (dofsol : array3) (bs : list (Block CellData))
    : result matrix :=
  over_blocks (stress_response_of dofsol) bs zeros.

Definition weighted_constitutive (bs : list (Block CellData)) : result matrix :=
  over_blocks weighted_constitutive_of bs zeros.

(** Lines "mesh data" to "solve BVP", up to the call of the solver:
    returns the locals [NSTRE] and [area] that the rest reads. *)
Definition prepare (model : string) : M (nat * scalar) :=
  self ← get;
  let NDOFN_ := NDOFN self in
  let NSTRE_binding := model_dimension model in
  (* mesh data *)
  let points_ := points self in
  '((xmin, xmax), (ymin, ymax)) ← lift (bounds points_);
  center_ ← lift (center points_);
  let area := (xmax - xmin) * (ymax - ymin) in
  (* nodal loads *)
  NSTRE ← lift (read_local NSTRE_binding);
  modify (set_pd_loads (zeros3 (length points_) NDOFN_ NSTRE));;
  (* nodal supports against rigid body motion *)
  let nodal_fixity := zeros2 (length points_) NDOFN_ in
  i ← lift (index_of_closest points_ center_);
  nodal_fixity ← lift (setitem_row_slice i 3 nodal_fixity);
  i ← lift (index_of_closest points_ (xmax, 0, 0));
  nodal_fixity ← lift (setitem_row_indices i [1; 2]%nat nodal_fixity);
  i ← lift (index_of_closest points_ (0, ymax, 0));
  nodal_fixity ← lift (setitem_row_indices i [2]%nat nodal_fixity);
  modify (set_pd_fixity nodal_fixity);;
  (* nodal supports to guarantee periodic displacement solution *)
  periodicity_constraints ← lift (periodic_essential_ebc self [0; 1]%nat);
  (* initial strain loads *)
  for_blocks_M (strain_loads_block NSTRE) tt;;
  (* solve BVP *)
  modify (append_constraint periodicity_constraints);;
  mret (NSTRE, area).

(** [self.linear_static_analysis()]. Modelled from the spec, the code of
    [Structure] not being part of the sources at hand: the solver reads
    the assembled system of the structure, with its constraints, and the
    displacement solution is the one array it writes. *)
Definition solve : M array3 :=
  self ← get;
  dofsol ← lift (linear_static_analysis self);
  modify (set_pd_dofsol dofsol);;
  mret dofsol.

(** The last four statements, on the accumulated arrays. With a zero
    area no entry of the two quotients is a number, and none of the
    returned array is: each is a difference of two of them or 5/6 of
    one. *)
Definition combine (NSTRE : nat) (area : scalar) (hooke hooke_avg : matrix)
    : floats matrix :=
  match mdiv hooke area, mdiv hooke_avg area with
  | finite hooke, finite hooke_avg =>
      let result_ := msub hooke_avg hooke in
      finite (if decide (NSTRE = 8%nat) then set_shear_block result_ hooke else result_)
  | _, _ => nonfinite
  end.

(** The call up to the end of the loop "postproc": the locals [NSTRE]
    and [area] and the two accumulated arrays. *)
Definition accumulate (model : string) : M (nat * scalar * (matrix * matrix)) :=
  '(NSTRE, area) ← prepare model;
  dofsol ← solve;
  (* postproc *)
  acc ← for_blocks_M (postproc_block dofsol) (zeros, zeros);
  mret (NSTRE, area, acc).

Definition homogenize (model : string) : M (floats matrix) :=
  '(NSTRE, area, (hooke, hooke_avg)) ← accumulate model;
  mret (combine NSTRE area hooke hooke_avg).

(** Reading one entry of a returned array of numbers, and the locals and
    one entry of each accumulated array. *)
Definition result_entry (r : result (floats matrix)) (i j : nat) : option scalar :=
  match r with
  | Ok (finite R) => Some (R i j)
  | _ => None
  end.

Definition no_number (r : result (floats matrix)) : bool :=
  match r with
  | Ok nonfinite => true
  | _ => false
  end.

Definition accumulated_entry (r : result (nat * scalar * (matrix * matrix)))
    (i j : nat) : option (nat * scalar * scalar * scalar) :=
  match r with
  | Ok (NSTRE, area, (hooke, hooke_avg)) => Some (NSTRE, area, hooke i j, hooke_avg i j)
  | Raise _ => None
  end.

(** [ABD] and [ABDS] *)
Definition ABD : M (floats matrix) := homogenize "KL".
Definition ABDS : M (floats matrix) := homogenize "MR".

(** [n] calls in a row; the run stops at the first call that raises. *)
Fixpoint homogenize_times (n : nat) (model : string) : M (list (floats matrix)) :=
  match n with
  | O => mret []
  | S n' => R ← homogenize model; Rs ← homogenize_times n' model; mret (R :: Rs)
  end.

End Homogenize.

End Homg.

(** ** A concrete instance

    Small implementations of the routines that the embedding takes as
    parameters, to run the definitions on concrete meshes. *)

Module Demo.

(** *** Assembly: a cell block that carries the outputs of its kernels *)
Record Cell : Type := {
  stiffness : result Mesh.coo;
  body_load : result (option Mesh.loadvec);
  strain_load : result (option Mesh.loadvec);
}.

(** Modelled from the spec: [fem_load_vector] of [.preproc], which is
    not part of the sources at hand; nodal field arrays are indexed by
    (point, local DOF, load case), and the global index of a DOF is
    [NDOFN * node + dof], so the load vector lists the rows of the
    points one after the other. *)
Definition fem_load_vector (values : Mesh.nodal_array) : result Mesh.loadvec :=
  Ok (concat values).

(** The penalty magnitude, a tunable constant. *)
Definition penalty : scalar := QcZ 1000000000000.

(** Modelled from the spec: [fem_penalty_matrix_coo] of [.preproc],
    which is not part of the sources at hand; for every DOF flagged
    fixed, a large stiffness value is added to that DOF's diagonal
    entry. *)
Definition fem_penalty_matrix_coo (values : Mesh.fixity_array)
    (eliminate_zeros sum_duplicates : bool) : result Mesh.coo :=
  let flags := concat values in
  let K := omap (fun '(d, flag) => if flag : bool then Some ((d, d), penalty) else None)
                (zip (seq 0 (length flags)) flags) in
  let K := if eliminate_zeros then Mesh.eliminate_zeros K else K in
  let K := if sum_duplicates then Mesh.sum_duplicates K else K in
  Ok K.

#[global] Instance kernels : Mesh.Kernels Cell := {|
  Mesh.celldata_elastic_stiffness_matrix_coo := stiffness;
  Mesh.celldata_body_load_vector := body_load;
  Mesh.celldata_strain_load_vector := strain_load;
  Mesh.fem_load_vector := fem_load_vector;
  Mesh.fem_penalty_matrix_coo := fem_penalty_matrix_coo;
|}.

(** A mesh of one block whose two stored triplets share a key and
    cancel, a mesh without cell blocks, and a mesh of two load cases in
    which the body loads of the second block cannot be computed. *)
Definition triplet (row col : nat) (v : scalar) : nat * nat * scalar := (row, col, v).

Definition cancelling_mesh : Mesh.FemMesh Cell :=
  {| Mesh.root_pointdata := {| Mesh.loads := None; Mesh.fixity := None |};
     Mesh.cellblocks :=
       [ {| stiffness := Ok [triplet 0 0 1; triplet 0 0 (- (1))];
            body_load := Ok None; strain_load := Ok None |} ] |}.

Definition empty_mesh : Mesh.FemMesh Cell :=
  {| Mesh.root_pointdata := {| Mesh.loads := None; Mesh.fixity := None |};
     Mesh.cellblocks := [] |}.

Definition two_blocks (second_body : result (option Mesh.loadvec)) : Mesh.FemMesh Cell :=
  {| Mesh.root_pointdata :=
       {| Mesh.loads := Some [[[1; 0]; [0; 1]]; [[0; 0]; [QcZ 2; QcZ 3]]];
          Mesh.fixity := Some [[true; false]; [false; true]] |};
     Mesh.cellblocks :=
       [ {| stiffness := Ok [triplet 0 0 (QcZ 2); triplet 0 1 (- (1)); triplet 1 1 1];
            body_load := Ok (Some [[1; 1]; [1; 1]; [0; 0]; [0; 0]]);
            strain_load := Ok None |};
         {| stiffness := Ok [triplet 1 1 1; triplet 0 1 1; triplet 2 2 0];
            body_load := second_body;
            strain_load := Ok (Some [[0; 0]; [0; 0]; [QcZ 5; QcZ 7]; [0; 0]]) |} ] |}.

(** *** Homogenization: a cell block that carries its areas, its
    material matrix and the integrated forces of the solved cell *)
Record CellData : Type := {
  areas : list scalar;
  material : list (list scalar);
  forces : list (list scalar);
}.

Definition px (p : Homg.point) : scalar := p.1.1.
Definition py (p : Homg.point) : scalar := p.1.2.
Definition pz (p : Homg.point) : scalar := p.2.

Definition Qcmin (a b : scalar) : scalar := if decide (a <= b) then a else b.
Definition Qcmax (a b : scalar) : scalar := if decide (a <= b) then b else a.

(** Modelled from the spec: the point cloud of [polymesh] exposes the
    bounding box and the centroid of the point set and the index of the
    point nearest to a given coordinate. *)
Definition bounds (pts : list Homg.point)
    : result ((scalar * scalar) * (scalar * scalar)) :=
  match pts with
  | [] => Raise ValueError
  | p :: pts' =>
      Ok ((foldr Qcmin (px p) (px <$> pts'), foldr Qcmax (px p) (px <$> pts')),
          (foldr Qcmin (py p) (py <$> pts'), foldr Qcmax (py p) (py <$> pts')))
  end.

Definition center (pts : list Homg.point) : result Homg.point :=
  match pts with
  | [] => Raise ValueError
  | _ =>
      let n := QcZ (Z.of_nat (length pts)) in
      Ok (Mesh.sumQc (px <$> pts) / n, Mesh.sumQc (py <$> pts) / n,
        Mesh.sumQc (pz <$> pts) / n)
  end.

Definition dist2 (p q : Homg.point) : scalar :=
  (px p - px q) ^ 2 + (py p - py q) ^ 2 + (pz p - pz q) ^ 2.

(** Index of the first point at the least distance of [q], among the
    points from index [i] on; [best] is the candidate so far. *)
Fixpoint argmin_from (q : Homg.point) (pts : list Homg.point) (i : nat)
    (best : nat * scalar) : nat :=
  match pts with
  | [] => best.1
  | p :: pts' =>
      let d := dist2 p q in
      argmin_from q pts' (S i) (if decide (d < best.2) then (i, d) else best)
  end.

Definition index_of_closest (pts : list Homg.point) (q : Homg.point) : result nat :=
  match pts with
  | [] => Raise ValueError
  | p :: pts' => Ok (argmin_from q pts' 1 (0%nat, dist2 p q))
  end.

(** Modelled from the spec: [link_opposite_sides] of [utils.fem.ebc],
    which is not part of the sources at hand; boundary nodes on opposite
    faces along an axis are paired, by nearest-neighbour matching after
    removing the offset of the periodic axis. *)
Definition coord (axis : nat) (p : Homg.point) : scalar :=
  match axis with
  | 0%nat => px p
  | 1%nat => py p
  | _ => pz p
  end.

Definition shift (axis : nat) (d : scalar) (p : Homg.point) : Homg.point :=
  match axis with
  | 0%nat => (px p + d, py p, pz p)
  | 1%nat => (px p, py p + d, pz p)
  | _ => (px p, py p, pz p + d)
  end.

Definition link_axis (pts : list Homg.point) (axis : nat) : list (nat * nat) :=
  match coord axis <$> pts with
  | [] => []
  | c :: cs =>
      let lo := foldr Qcmin c cs in
      let hi := foldr Qcmax c cs in
      omap (fun '(i, p) =>
              if decide (coord axis p = lo) then
                match index_of_closest pts (shift axis (hi - lo) p) with
                | Ok j => Some (i, j)
                | Raise _ => None
                end
              else None)
           (zip (seq 0 (length pts)) pts)
  end.

Definition link_opposite_sides (pts : list Homg.point) (axis : list nat)
    : result (list (nat * nat)) :=
  Ok (axis ≫= link_axis pts).

Definition at_ (A : list (list scalar)) (i j : nat) : scalar :=
  default 0 (A !! i ≫= fun row => row !! j).

(** Modelled from the spec: the routines of [homg.utils], which are not
    part of the sources at hand; the forces of the solved cell are
    integrated over the domain, and each block's own constitutive
    matrix is accumulated weighted by its measure. *)
Definition add_forces (b : Homg.Block CellData) (hooke : Homg.matrix)
    : result Homg.matrix :=
  Ok (fun i j => hooke i j + at_ (forces (Homg.cd b)) i j).

Definition add_weighted (hooke_block : Homg.array3) (b : Homg.Block CellData)
    (hooke_avg : Homg.matrix) : result Homg.matrix :=
  Ok (fun i j =>
        hooke_avg i j +
        Mesh.sumQc (zip_with (fun C a => at_ C i j * a) hooke_block (areas (Homg.cd b)))).

(** Modelled from the spec: the static solver returns a displacement
    array of the shape of the load array, and fails on a structure that
    is not set up; here it answers the zero field for the load cases at
    hand, and refuses a structure without loads or supports. *)
Definition linear_static_analysis (s : Homg.Structure CellData) : result Homg.array3 :=
  match Homg.pd_loads s, Homg.pd_fixity s with
  | Some l, Some _ => Ok l
  | _, _ => Raise ExternalError
  end.

(** [str.lower] as far as the names of this development go: on the
    ASCII letters, and on the Kelvin sign (the bytes 226, 132, 170 of
    U+212A), which Python lowers to "k". *)
Fixpoint kelvin_lower (s : string) : string :=
  match s with
  | EmptyString => EmptyString
  | String c s' =>
      match s' with
      | String c2 (String c3 s'') =>
          if (nat_of_ascii c =? 226)%nat && (nat_of_ascii c2 =? 132)%nat
             && (nat_of_ascii c3 =? 170)%nat
          then String "k" (kelvin_lower s'')
          else String (Homg.ascii_lower c) (kelvin_lower s')
      | _ => String (Homg.ascii_lower c) (kelvin_lower s')
      end
  end.

Definition lower (s : string) : string :=
  if Homg.is_ascii s then Homg.ascii_lower_string s else kelvin_lower s.

#[global] Instance python : Homg.Python.
Proof.
  refine {| Homg.lower := lower |}.
  intros s Hs. unfold lower. rewrite Hs. reflexivity.
Defined.

(** The name "KL" written with the Kelvin sign. *)
Definition kelvin_L : string :=
  String (ascii_of_nat 226) (String (ascii_of_nat 132) (String (ascii_of_nat 170) "L")).

#[global] Instance externals : Homg.Externals CellData := {|
  Homg.bounds := bounds;
  Homg.center := center;
  Homg.index_of_closest := index_of_closest;
  Homg.link_opposite_sides := link_opposite_sides;
  Homg.centers := fun b => Ok (replicate (length (areas (Homg.cd b))) (0, 0, 0));
  Homg._strain_field_3d_bulk := fun _ out _ => Ok out;
  Homg._transform_3d_strain_loads_to_surfaces := fun sl _ => Ok sl;
  Homg.linear_static_analysis := linear_static_analysis;
  Homg.elastic_material_stiffness_matrix :=
    fun b => Ok (replicate (length (areas (Homg.cd b))) (material (Homg.cd b)));
  Homg.quadrature_full := fun _ => Ok ([[0; 0]], [1]);
  Homg._postproc_3d_gauss_stresses := fun b _ _ hooke => add_forces b hooke;
  Homg._calc_avg_hooke_3d_to_shell := fun hb b _ avg => add_weighted hb b avg;
  Homg._postproc_shell_gauss_dynams := fun b _ _ hooke => add_forces b hooke;
  Homg._calc_avg_hooke_shell := add_weighted;
|}.

(** A square cell of side 2 about the origin: nine points on a 3 x 3
    grid, six DOFs per node, one block of a single surface element. *)
Definition grid : list Homg.point :=
  y ← [-1; 0; 1]%Z; x ← [-1; 0; 1]%Z; [(QcZ x, QcZ y, 0)].

Definition diag (n : nat) (v : scalar) : list (list scalar) :=
  (fun i => (fun j => if decide (i = j) then v else 0) <$> seq 0 n) <$> seq 0 n.

Definition plate_block : Homg.Block CellData :=
  {| Homg.NDIM := 2; Homg.strain_loads := None;
     Homg.cd := {| areas := [QcZ 4]; material := diag 8 (QcZ 10);
                   forces := diag 8 (QcZ 24) |} |}.

Definition cell : Homg.Structure CellData :=
  {| Homg.NDOFN := 6; Homg.points := grid; Homg.pd_loads := None;
     Homg.pd_fixity := None; Homg.pd_dofsol := None;
     Homg.blocks := [plate_block]; Homg.constraints := [] |}.

(** The same block over three points of one line: the bounding box of
    the points has no area. *)
Definition flat_cell : Homg.Structure CellData :=
  {| Homg.NDOFN := 6;
     Homg.points := [(- QcZ 1, 0, 0); (0, 0, 0); (QcZ 1, 0, 0)];
     Homg.pd_loads := None; Homg.pd_fixity := None; Homg.pd_dofsol := None;
     Homg.blocks := [plate_block]; Homg.constraints := [] |}.

End Demo.

(** ** Further cells for the homogenization *)

Module DemoMore.

(** The concrete routines of [Demo], with a solver that finds the system
    singular. *)
Definition singular : Homg.Externals Demo.CellData := {|
  Homg.bounds := Demo.bounds;
  Homg.center := Demo.center;
  Homg.index_of_closest := Demo.index_of_closest;
  Homg.link_opposite_sides := Demo.link_opposite_sides;
  Homg.centers := fun b => Ok (replicate (length (Demo.areas (Homg.cd b))) (0, 0, 0));
  Homg._strain_field_3d_bulk := fun _ out _ => Ok out;
  Homg._transform_3d_strain_loads_to_surfaces := fun sl _ => Ok sl;
  Homg.linear_static_analysis := fun _ => Raise ExternalError;
  Homg.elastic_material_stiffness_matrix :=
    fun b => Ok (replicate (length (Demo.areas (Homg.cd b))) (Demo.material (Homg.cd b)));
  Homg.quadrature_full := fun _ => Ok ([[0; 0]], [1]);
  Homg._postproc_3d_gauss_stresses := fun b _ _ hooke => Demo.add_forces b hooke;
  Homg._calc_avg_hooke_3d_to_shell := fun hb b _ avg => Demo.add_weighted hb b avg;
  Homg._postproc_shell_gauss_dynams := fun b _ _ hooke => Demo.add_forces b hooke;
  Homg._calc_avg_hooke_shell := Demo.add_weighted;
|}.

(** The cell of [Demo] with a second block of line elements, and with
    two DOFs per node. *)
Definition line_block : Homg.Block Demo.CellData :=
  {| Homg.NDIM := 1; Homg.strain_loads := None;
     Homg.cd := {| Demo.areas := [1]; Demo.material := Demo.diag 8 1;
                   Demo.forces := Demo.diag 8 1 |} |}.

Definition cell_with_lines : Homg.Structure Demo.CellData :=
  Homg.set_blocks [Demo.plate_block; line_block] Demo.cell.

Definition cell_2dof : Homg.Structure Demo.CellData :=
  {| Homg.NDOFN := 2; Homg.points := Demo.grid; Homg.pd_loads := None;
     Homg.pd_fixity := None; Homg.pd_dofsol := None;
     Homg.blocks := [Demo.plate_block]; Homg.constraints := [] |}.

End DemoMore.

(** ** Homogenized stiffness of Mindlin plates and shells
    ([utils/fem/mindlinplate.py], [utils/fem/mindlinshell.py]) *)

Module MindlinStiffness.

(** An array of shape (nE, nR, nC), one matrix per element: the shape,
    and the entries by index. *)
Record array3d : Type := {
  nE : nat;
  nR : nat;
  nC : nat;
  at3 : nat -> nat -> nat -> scalar;
}.

(** [np.zeros_like(C)] *)
Definition zeros_like (C : array3d) : array3d :=
  {| nE := nE C; nR := nR C; nC := nC C; at3 := fun _ _ _ => 0 |}.

(** The length of the slice [start:stop] of an axis of length [n];
    [stop = None] is the open slice [start:]. *)
Definition slice_len (start : nat) (stop : option nat) (n : nat) : nat :=
  match stop with
  | Some b => b `min` n - start `min` n
  | None => n - start `min` n
  end.

(** A value of extent [src] fits a slice of extent [dst] along one axis
    when the extents agree or the value has extent one (broadcast). *)
Definition fits (dst src : nat) : bool := (src =? dst)%nat || (src =? 1)%nat.

(** A two-dimensional value: its shape and its entries. *)
Record block2d : Type := {
  rows : nat;
  cols : nat;
  at2 : nat -> nat -> scalar;
}.

(** [C[i, r0:r1, c0:c1] * k] *)
Definition scaled_block (C : array3d) (i r0 : nat) (r1 : option nat) (c0 : nat)
    (c1 : option nat) (k : scalar) : block2d :=
  {| rows := slice_len r0 r1 (nR C);
     cols := slice_len c0 c1 (nC C);
     at2 := fun r c => at3 C i (r0 + r) (c0 + c) * k |}.

(** [res[i, r0:r1, c0:c1] = src] *)
Definition setblock (i r0 : nat) (r1 : option nat) (c0 : nat) (c1 : option nat)
    (src : block2d) (res : array3d) : result array3d :=
  let dr := slice_len r0 r1 (nR res) in
  let dc := slice_len c0 c1 (nC res) in
  if fits dr (rows src) && fits dc (cols src) then
    Ok {| nE := nE res; nR := nR res; nC := nC res;
          at3 := fun e r c =>
            if (e =? i)%nat && (r0 <=? r)%nat && (r <? r0 + dr)%nat
               && (c0 <=? c)%nat && (c <? c0 + dc)%nat
            then at2 src (if (rows src =? 1)%nat then 0 else r - r0)%nat
                         (if (cols src =? 1)%nat then 0 else c - c0)%nat
            else at3 res e r c |}
  else Raise ValueError.

(** [for i in prange(res.shape[0]): body], the body rewriting [res]. *)
Fixpoint for_range (body : nat -> array3d -> result array3d) (indices : list nat)
    (res : array3d) : result array3d :=
  match indices with
  | [] => Ok res
  | i :: rest => res' ← body i res; for_range body rest res'
  end.

(** Body of the loop of [model_stiffness_iso_homg_mindlin_plate] *)
Definition plate_body (C : array3d) (t : list scalar) (i : nat) (res : array3d)
    : result array3d :=
  ti ← getitem t i;
  res ← setblock i 0 (Some 3%nat) 0 (Some 3%nat)
          (scaled_block C i 0 (Some 3%nat) 0 (Some 3%nat) (ti ^ 3 / QcZ 12)) res;
  ti ← getitem t i;
  setblock i 3 None 3 None
    (scaled_block C i 3 None 3 None (ti * QcZ 5 / QcZ 6)) res.

Definition model_stiffness_iso_homg_mindlin_plate (C : array3d) (t : list scalar)
    : result array3d :=
  let res := zeros_like C in
  for_range (plate_body C t) (seq 0 (nE res)) res.

(** Body of the loop of [model_stiffness_iso_homg_mindlin_shell] *)
Definition shell_body (C : array3d) (t : list scalar) (i : nat) (res : array3d)
    : result array3d :=
  ti ← getitem t i;
  res ← setblock i 0 (Some 3%nat) 0 (Some 3%nat)
          (scaled_block C i 0 (Some 3%nat) 0 (Some 3%nat) ti) res;
  ti ← getitem t i;
  res ← setblock i 3 (Some 6%nat) 3 (Some 6%nat)
          (scaled_block C i 0 (Some 3%nat) 0 (Some 3%nat) (ti ^ 3 / QcZ 12)) res;
  ti ← getitem t i;
  setblock i 6 None 6 None
    (scaled_block C i 3 None 3 None (ti * QcZ 5 / QcZ 6)) res.

Definition model_stiffness_iso_homg_mindlin_shell (C : array3d) (t : list scalar)
    : result array3d :=
  let res := zeros_like C in
  for_range (shell_body C t) (seq 0 (nE res)) res.

(** The entry that the plate routine is to leave at row [r], column [c]
    of the matrix of an element of thickness [ti]. *)
Definition plate_entry (C : array3d) (i : nat) (ti : scalar) (r c : nat) : scalar :=
  if (r <? 3)%nat && (c <? 3)%nat then at3 C i r c * (ti ^ 3 / QcZ 12)
  else if (3 <=? r)%nat && (3 <=? c)%nat then at3 C i r c * (ti * QcZ 5 / QcZ 6)
  else 0.

(** A batch of two 5 x 5 matrices, and one of 8 x 8 matrices. *)
Definition sample (n : nat) : array3d :=
  {| nE := 2; nR := n; nC := n;
     at3 := fun e r c => QcZ (Z.of_nat (1 + e + r + c)) |}.

End MindlinStiffness.

(** ** Stresses from strains ([solid/fem/model/utils.py]) *)

Module ModelUtils.

Definition dot (a b : list scalar) : scalar :=
  foldr Qcplus 0 (zip_with Qcmult a b).

(** [M @ v] of a matrix (its rows) and a vector: the compiled product
    raises unless every row has the length of [v]. A matrix without rows
    carries no width in this representation. *)
Definition matvec (M : list (list scalar)) (v : list scalar) : result (list scalar) :=
  if forallb (fun row => (length row =? length v)%nat) M
  then Ok ((fun row => dot row v) <$> M)
  else Raise ValueError.

(** [res[iE, iP, :] = C[iE] @ strains[iE, iP]] *)
Definition stress_point (C : list (list (list scalar))) (iE : nat)
    (eps : list scalar) : result (list scalar) :=
  Ci ← getitem C iE;
  s ← matvec Ci eps;
  Mindlin.setslice (length eps) s.

Definition stresses_from_strains (C strains : list (list (list scalar)))
    : result (list (list (list scalar))) :=
  let nE := length strains in
  mapM (fun '(iE, pts) => mapM (stress_point C iE) pts) (zip (seq 0 nE) strains).

(** [k1 * a + k2 * b] on vectors, and on arrays of shape (nE, nP, n) *)
Definition combine1 (k1 k2 : scalar) (a b : list scalar) : list scalar :=
  zip_with (fun x y => k1 * x + k2 * y) a b.

Definition combine3 (k1 k2 : scalar) (a b : list (list (list scalar)))
    : list (list (list scalar)) :=
  zip_with (zip_with (combine1 k1 k2)) a b.

(** Two arrays have one shape. *)
Definition same_shape (a b : list (list (list scalar))) : Prop :=
  Forall2 (Forall2 (fun x y : list scalar => length x = length y)) a b.

End ModelUtils.

Module ModelUtilsDemo.

(** One element with a 2 x 2 matrix, and two unit strain states at its
    single point. *)
Definition C : list (list (list scalar)) := [[[QcZ 1; QcZ 2]; [QcZ 3; QcZ 4]]].
Definition strains_x : list (list (list scalar)) := [[[QcZ 1; QcZ 0]]].
Definition strains_y : list (list (list scalar)) := [[[QcZ 0; QcZ 1]]].

End ModelUtilsDemo.

(** ** Masses and the mass matrix ([solid/fem/mesh.py]) *)

Module MeshMass.
Import Mesh.

(** The routines of the cell classes, of [polymesh] and of [.preproc]
    that the mass routines call; their code is not part of this
    development. [D] is the type of the nodal mass data, [V] that of the
    cell volumes and [E] that of nodal data pulled to the cells. *)
Class MassKernels (Cell D V E : Type) : Type := {
  celldata_masses : Cell -> result (list scalar);
  celldata_consistent_mass_matrix_coo : Cell -> result coo;
  celldata_consistent_mass_matrix_coo_values : Cell -> E -> result coo;
  celldata_pull : Cell -> D -> V -> result E;
  volumes : FemMesh Cell -> result V;
  fem_nodal_mass_matrix_coo : D -> bool -> bool -> nat -> result coo;
}.

(** [np.concatenate] of a list of one-dimensional arrays; numpy needs
    at least one array. *)
Definition np_concatenate (arrays : list (list scalar)) : result (list scalar) :=
  match arrays with
  | [] => Raise ValueError
  | _ => Ok (concat arrays)
  end.

Section FemMesh.
Context {Cell D V E : Type} `{MassKernels Cell D V E}.

(** [FemMesh.masses] *)
Definition masses (self : FemMesh Cell) : result (list scalar) :=
  let blocks := cellblocks self in
  vmap ← mapM celldata_masses blocks;
  np_concatenate vmap.

(** [FemMesh.mass] *)
Definition mass (self : FemMesh Cell) : result scalar :=
  sumQc <$> masses self.

(** The matrix of the nodal masses [d] in [consistent_mass_matrix_coo]:
    with [distribute] the masses are pulled to the cells and integrated
    there, otherwise the helper of [.preproc] builds the matrix. *)
Definition nodal_mass_matrix (self : FemMesh Cell) (d : D)
    (eliminate_zeros_ sum_duplicates_ distribute : bool) (NDOFN : nat) : result coo :=
  let blocks := cellblocks self in
  if distribute then
    v ← volumes self;
    edata ← mapM (fun b => celldata_pull b d v) blocks;
    Ms ← mapM (fun bv : Cell * E => celldata_consistent_mass_matrix_coo_values bv.1 bv.2)
           (zip blocks edata);
    np_sum_tocoo Ms
  else
    fem_nodal_mass_matrix_coo d eliminate_zeros_ sum_duplicates_ NDOFN.

(** [FemMesh.consistent_mass_matrix_coo]. [pd_mass] is the field [mass]
    of the point data of the root, [None] when the field is absent, and
    [NDOFN] the attribute of the class. The sparse matrices have no
    in-place sum: [M += X] rebinds [M] to [M + X]. *)
Definition consistent_mass_matrix_coo (self : FemMesh Cell) (pd_mass : option D)
    (NDOFN : nat) (eliminate_zeros_ sum_duplicates_ distribute : bool) : result coo :=
  let blocks := cellblocks self in
  Ms ← mapM celldata_consistent_mass_matrix_coo blocks;
  M ← np_sum_tocoo Ms;
  M ← match pd_mass with
      | Some d =>
          Mn ← nodal_mass_matrix self d eliminate_zeros_ sum_duplicates_ distribute NDOFN;
          mret (coo_add M Mn)
      | None => mret M
      end;
  let M := if eliminate_zeros_ then eliminate_zeros M else M in
  let M := if sum_duplicates_ then sum_duplicates M else M in
  mret M.

End FemMesh.

End MeshMass.

Module DemoMass.
Import Mesh MeshMass.

(** A block that carries its answers. *)
Record Cell : Type := {
  cell_masses : result (list scalar);
  cell_mass_matrix : result coo;
}.

#[global] Instance kernels : MassKernels Cell coo unit unit := {|
  celldata_masses := cell_masses;
  celldata_consistent_mass_matrix_coo := cell_mass_matrix;
  celldata_consistent_mass_matrix_coo_values := fun b _ => cell_mass_matrix b;
  celldata_pull := fun _ _ _ => Ok tt;
  volumes := fun _ => Ok tt;
  fem_nodal_mass_matrix_coo := fun d _ _ _ => Ok d;
|}.

Definition block (m : list scalar) (M : coo) : Cell :=
  {| cell_masses := Ok m; cell_mass_matrix := Ok M |}.

Definition two_blocks : FemMesh Cell :=
  {| root_pointdata := {| loads := None; fixity := None |};
     cellblocks := [block [QcZ 1; QcZ 2] [((0, 0), QcZ 1); ((0, 0), QcZ 2)]%nat;
                    block [QcZ 3] [((0, 0), QcZ (-3)); ((1, 1), QcZ 0)]%nat] |}.

End DemoMass.

(** ** Exceptions of the object layer

    The mesh classes raise three more kinds of exception than the
    numerical routines. *)

Module Py.

Inductive raised : Type :=
  | Exc (e : exception)
  | RuntimeError
  | AssertionError
  | KeyError.

Inductive outcome (A : Type) : Type :=
  | Return (a : A)
  | Throw (e : raised).
Arguments Return {A} a.
Arguments Throw {A} e.

#[global] Instance outcome_ret : MRet outcome := fun _ a => Return a.
#[global] Instance outcome_bind : MBind outcome := fun _ _ f m =>
  match m with
  | Return a => f a
  | Throw e => Throw e
  end.

(** [assert b], with assertions enabled *)
Definition assert (b : bool) : outcome unit :=
  if b then Return tt else Throw AssertionError.

(** A Python value as far as the mesh classes look at it: a numpy array
    (its shape) or anything else. *)
Inductive value : Type :=
  | ndarray (shape : list nat)
  | other.

(** A dictionary with string keys, in insertion order. *)
Abbreviation dict := (list (string * value)%type) (only parsing).

(** [d[k]] *)
Fixpoint dict_getitem (d : dict) (k : string) : outcome value :=
  match d with
  | [] => Throw KeyError
  | (k', v) :: d' => if String.eqb k' k then Return v else dict_getitem d' k
  end.

End Py.

(** ** The model of a mesh ([solid/fem/mesh.py]) and the section of a
    line mesh ([solid/fem/linemesh.py]) *)

Module MeshTree.
Import Py.

(** A mesh with the chain of its parents, as far as an attribute that
    the blocks inherit is concerned: what the mesh holds itself, and its
    parent unless it is the root. *)
Inductive Mesh (A : Type) : Type :=
  | Root (own : option A)
  | Child (own : option A) (parent : Mesh A).
Arguments Root {A} own.
Arguments Child {A} own parent.

(** The common body of the properties [FemMesh.model] and
    [LineMesh.section]. *)
Fixpoint inherited {A} (self : Mesh A) : option A :=
  match self with
  | Root own => own
  | Child own parent =>
      match own with
      | Some a => Some a
      | None => inherited parent
      end
  end.

Definition model {A} : Mesh A -> option A := inherited.
Definition section {A} : Mesh A -> option A := inherited.

(** What the meshes from [self] up to the root hold themselves. *)
Fixpoint path {A} (self : Mesh A) : list (option A) :=
  match self with
  | Root own => [own]
  | Child own parent => own :: path parent
  end.

(** A model is a numpy array, or an object whose [stiffness_matrix()]
    returns or raises (an object without such a method raises
    [AttributeError]). *)
Inductive Model (A : Type) : Type :=
  | model_array (a : A)
  | model_object (stiffness_matrix : result A).
Arguments model_array {A} a.
Arguments model_object {A} stiffness_matrix.

(** [FemMesh.material_stiffness_matrix]; without a model, [m] is [None],
    which has no [stiffness_matrix]. *)
Definition material_stiffness_matrix {A} (self : Mesh (Model A)) : outcome A :=
  let m := model self in
  match m with
  | Some (model_array a) => Return a
  | Some (model_object stiffness_matrix) =>
      match stiffness_matrix with
      | Ok a => Return a
      | Raise _ => Throw RuntimeError
      end
  | None => Throw RuntimeError
  end.

End MeshTree.

(** ** Line meshes ([solid/fem/linemesh.py]) *)

Module LineMesh.
Import Py.

(** The guard on [connectivity] that opens [LineMesh.__init__]. The
    second assertion reads [nE], a local name of the constructor that is
    only assigned further down. *)
Definition check_connectivity (connectivity : option value) (NDOFN : nat)
    : outcome unit :=
  match connectivity with
  | Some (ndarray shape) =>
      _ ← assert (length shape =? 3)%nat;
      Throw (Exc UnboundLocalError)
  | _ => Return tt
  end.

(** [LineMesh.__init__]: the guard, then the rest of the constructor
    (sections, the constructor of the base class, the areas), whose code
    relies on classes outside this development. *)
Definition __init__ {Mesh : Type} (connectivity : option value) (NDOFN : nat)
    (rest : outcome Mesh) : outcome Mesh :=
  _ ← check_connectivity connectivity NDOFN;
  rest.

(** The cell classes of a line mesh. *)
Inductive ctype : Type := B2 | B3.

(** The constructors and the reader that [BernoulliFrame.from_dict]
    calls; their code is not part of this development. *)
Class Constructors (DictOut PointData CellData Mesh : Type) : Type := {
  _get_bernoulli_metadata_ : dict -> outcome (DictOut * dict);
  PointData_new : dict -> outcome PointData;
  ctype_new : ctype -> dict -> outcome CellData;
  LineMesh_new : PointData -> CellData -> value -> outcome Mesh;
}.

(** [shape[0] == n] of an array *)
Definition has_rows (n : nat) (shape : list nat) : outcome bool :=
  match shape with
  | [] => Throw (Exc IndexError)
  | n0 :: _ => Return (n0 =? n)%nat
  end.

(** [{k: data[k] for k in data if isinstance(data[k], np.ndarray) and
    data[k].shape[0] == n}] *)
Fixpoint arrays_with_rows (n : nat) (data : dict) : outcome dict :=
  match data with
  | [] => Return []
  | (k, v) :: data' =>
      keep ← match v with
             | ndarray shape => has_rows n shape
             | other => Return false
             end;
      rest ← arrays_with_rows n data';
      Return (if keep : bool then (k, v) :: rest else rest)
  end.

(** The choice of the cell class from the number of nodes per cell; the
    second branch tests for two nodes again. *)
Definition select_ctype (nNE : nat) : outcome ctype :=
  if (nNE =? 2)%nat then Return B2
  else if (nNE =? 2)%nat then Return B3
  else Throw (Exc NotImplementedError).

Section FromDict.
Context {DictOut PointData CellData Mesh : Type}
  `{Constructors DictOut PointData CellData Mesh}.

(** [BernoulliFrame.from_dict]; [points] and [cells] are the entries of
    the input dictionary under these keys, [None] when a key is absent,
    given by their lengths. *)
Definition from_dict (d_in : dict) (points cells : option nat)
    : outcome (DictOut * Mesh) :=
  '(d_out, data) ← _get_bernoulli_metadata_ d_in;
  nP ← match points with Some n => Return n | None => Throw KeyError end;
  nC ← match cells with Some n => Return n | None => Throw KeyError end;
  pdata ← arrays_with_rows nP data;
  cdata ← arrays_with_rows nC data;
  pd ← PointData_new pdata;
  topo ← dict_getitem cdata "topo";
  cd ← match topo with
       | ndarray shape =>
           let nNE := last shape in
           ctype ← match nNE with
                   | Some nNE => select_ctype nNE
                   | None => Throw (Exc IndexError)
                   end;
           ctype_new ctype cdata
       | other => Throw (Exc NotImplementedError)
       end;
  model ← dict_getitem data "model";
  mesh ← LineMesh_new pd cd model;
  Return (d_out, mesh).

End FromDict.

End LineMesh.

Module DemoLine.
Import Py LineMesh.

(** Constructors that record what they are given. *)
#[global] Instance constructors
    : Constructors unit dict (ctype * dict) (dict * (ctype * dict) * value) := {|
  _get_bernoulli_metadata_ := fun d_in => Return (tt, d_in);
  PointData_new := fun pdata => Return pdata;
  ctype_new := fun c cdata => Return (c, cdata);
  LineMesh_new := fun pd cd model => Return (pd, cd, model);
|}.

(** Four points, three cells of [nNE] nodes. *)
Definition frame (nNE : nat) : dict :=
  [("x", ndarray [4; 3]); ("topo", ndarray [3; nNE]); ("model", ndarray [6; 6])]%nat.

End DemoLine.

(** ** Strain-displacement matrices of Mindlin plates and shells
    ([utils/fem/mindlinplate.py], [utils/fem/mindlinshell.py]) *)

Module MindlinB.

(** A 2 x 2 matrix, row by row: the Jacobian of a cell of a surface at a
    point. *)
Abbreviation mat2 := (scalar * scalar * scalar * scalar)%type (only parsing).

(** What [np.linalg.inv] does with a singular matrix: LAPACK raises when
    a pivot of its factorization is exactly zero in floating point, and
    returns the inverse of a rounded matrix otherwise. Which of the two
    happens is decided by the rounding, which is outside the model. *)
Class Lapack : Type := {
  inv_singular : scalar * scalar * scalar * scalar
                 -> result (scalar * scalar * scalar * scalar);
}.

(** [np.linalg.inv] of a 2 x 2 matrix: the inverse of a regular matrix
    (up to rounding). *)
Definition inv `{Lapack} (J : mat2) : result mat2 :=
  let '(a, b, c, d) := J in
  let det := a * d - b * c in
  if decide (det = 0) then inv_singular J
  else Ok (d / det, - b / det, - c / det, a / det).

(** One row of [dshp[iP] @ Jinv]: the derivatives of a shape function
    with respect to the two coordinates of the cell. *)
Definition gdshp_row (d : scalar * scalar) (Jinv : mat2) : scalar * scalar :=
  let '(a, b, c, d') := Jinv in
  (d.1 * a + d.2 * c, d.1 * b + d.2 * d').

(** The matrix [B[iE, iP]] of shape (NSTRE, nTOTV) by its entries, and
    one assignment [B[iE, iP, r, c] = v]. *)
Abbreviation matrix := (nat -> nat -> scalar) (only parsing).

Definition setitem (r c : nat) (v : scalar) (B : matrix) : matrix :=
  fun r' c' => if (r' =? r)%nat && (c' =? c)%nat then v else B r' c'.

Definition plate_NDOFN : nat := 3.
Definition shell_NDOFN : nat := 6.

(** The eight assignments of the plate for node [i] *)
Definition plate_node (i : nat) (g : scalar * scalar) (N : scalar) (B : matrix) : matrix :=
  let B := setitem 0 (2 + i * plate_NDOFN) g.1 B in
  let B := setitem 1 (1 + i * plate_NDOFN) (- g.2) B in
  let B := setitem 2 (1 + i * plate_NDOFN) (- g.1) B in
  let B := setitem 2 (2 + i * plate_NDOFN) g.2 B in
  let B := setitem 3 (0 + i * plate_NDOFN) g.1 B in
  let B := setitem 3 (2 + i * plate_NDOFN) N B in
  let B := setitem 4 (0 + i * plate_NDOFN) g.2 B in
  let B := setitem 4 (1 + i * plate_NDOFN) (- N) B in
  B.

(** The twelve assignments of the shell for node [i] *)
Definition shell_node (i : nat) (g : scalar * scalar) (N : scalar) (B : matrix) : matrix :=
  let B := setitem 0 (0 + i * shell_NDOFN) g.1 B in
  let B := setitem 1 (1 + i * shell_NDOFN) g.2 B in
  let B := setitem 2 (0 + i * shell_NDOFN) g.2 B in
  let B := setitem 2 (1 + i * shell_NDOFN) g.1 B in
  let B := setitem 3 (4 + i * shell_NDOFN) g.1 B in
  let B := setitem 4 (3 + i * shell_NDOFN) (- g.2) B in
  let B := setitem 5 (3 + i * shell_NDOFN) (- g.1) B in
  let B := setitem 5 (4 + i * shell_NDOFN) g.2 B in
  let B := setitem 6 (2 + i * shell_NDOFN) g.1 B in
  let B := setitem 6 (4 + i * shell_NDOFN) N B in
  let B := setitem 7 (2 + i * shell_NDOFN) g.2 B in
  let B := setitem 7 (3 + i * shell_NDOFN) (- N) B in
  B.

Section Loops.
Context `{Lapack}.
Variable node : nat -> scalar * scalar -> scalar -> matrix -> matrix.

(** [for i in prange(nN)], from node [i] on; [ds] are the rows of
    [dshp[iP]] that are left. *)
Fixpoint nodes (Jinv : mat2) (shp : list (list scalar)) (iP i : nat)
    (ds : list (scalar * scalar)) (B : matrix) : result matrix :=
  match ds with
  | [] => Ok B
  | d :: ds' =>
      shp_iP ← getitem shp iP;
      N ← getitem shp_iP i;
      nodes Jinv shp iP (S i) ds' (node i (gdshp_row d Jinv) N B)
  end.

(** The body of the loop over the points *)
Definition point (shp : list (list scalar)) (dshp : list (list (scalar * scalar)))
    (jac_iE : list mat2) (iP : nat) : result matrix :=
  dshp_iP ← getitem dshp iP;
  J ← getitem jac_iE iP;
  Jinv ← inv J;
  nodes Jinv shp iP 0 dshp_iP (fun _ _ => 0).

(** The common body of the two routines: [shp] has shape (nP, nN),
    [dshp] shape (nP, nN, 2) and [jac] shape (nE, nP, 2, 2). *)
Definition strain_displacement_matrix (shp : list (list scalar))
    (dshp : list (list (scalar * scalar))) (jac : list (list mat2))
    : result (list (list matrix)) :=
  let nP := length dshp in
  mapM (fun jac_iE => mapM (point shp dshp jac_iE) (seq 0 nP)) jac.

End Loops.

Definition strain_displacement_matrix_mindlin_plate `{Lapack} :=
  strain_displacement_matrix plate_node.
Definition strain_displacement_matrix_mindlin_shell `{Lapack} :=
  strain_displacement_matrix shell_node.

(** The entry of the plate matrix at row [r] in the column of degree of
    freedom [d] (deflection, rotation about x, rotation about y) of a node
    with shape function value [N] and derivatives [g]. *)
Definition plate_block (g : scalar * scalar) (N : scalar) (r d : nat) : scalar :=
  match r, d with
  | 0%nat, 2%nat => g.1
  | 1%nat, 1%nat => - g.2
  | 2%nat, 1%nat => - g.1
  | 2%nat, 2%nat => g.2
  | 3%nat, 0%nat => g.1
  | 3%nat, 2%nat => N
  | 4%nat, 0%nat => g.2
  | 4%nat, 1%nat => - N
  | _, _ => 0
  end.

(** Where the plate routine writes: row [r], degree of freedom [d]. *)
Definition plate_pattern (r d : nat) : bool :=
  match r, d with
  | 0%nat, 2%nat | 1%nat, 1%nat | 2%nat, 1%nat | 2%nat, 2%nat
  | 3%nat, 0%nat | 3%nat, 2%nat | 4%nat, 0%nat | 4%nat, 1%nat => true
  | _, _ => false
  end.

(** The same for the shell: rows are the membrane strains (0-2), the
    curvatures (3-5) and the transverse shear strains (6, 7); degrees of
    freedom are three displacements and three rotations. *)
Definition shell_block (g : scalar * scalar) (N : scalar) (r d : nat) : scalar :=
  match r, d with
  | 0%nat, 0%nat => g.1
  | 1%nat, 1%nat => g.2
  | 2%nat, 0%nat => g.2
  | 2%nat, 1%nat => g.1
  | 3%nat, 4%nat => g.1
  | 4%nat, 3%nat => - g.2
  | 5%nat, 3%nat => - g.1
  | 5%nat, 4%nat => g.2
  | 6%nat, 2%nat => g.1
  | 6%nat, 4%nat => N
  | 7%nat, 2%nat => g.2
  | 7%nat, 3%nat => - N
  | _, _ => 0
  end.

Definition shell_pattern (r d : nat) : bool :=
  match r, d with
  | 0%nat, 0%nat | 1%nat, 1%nat | 2%nat, 0%nat | 2%nat, 1%nat
  | 3%nat, 4%nat | 4%nat, 3%nat | 5%nat, 3%nat | 5%nat, 4%nat
  | 6%nat, 2%nat | 6%nat, 4%nat | 7%nat, 2%nat | 7%nat, 3%nat => true
  | _, _ => false
  end.

End MindlinB.

Module MindlinBDemo.
Import MindlinB.

(** A library that refuses every singular matrix. *)
#[global] Instance strict : Lapack := {|
  inv_singular := fun _ => Raise ExternalError;
|}.

(** A three-node cell at one point: shape functions, their derivatives,
    and the Jacobian. *)
Definition shp1 : list (list scalar) := [[QcZ 1 / QcZ 3; QcZ 1 / QcZ 3; QcZ 1 / QcZ 3]].
Definition dshp1 : list (list (scalar * scalar)) :=
  [[(QcZ (-1), QcZ (-1)); (QcZ 1, QcZ 0); (QcZ 0, QcZ 1)]].
Definition jac1 : list (list mat2) := [[(QcZ 2, QcZ 0, QcZ 0, QcZ 2)]].

End MindlinBDemo.

(** * Properties *)

(** ** Iterating a fallible body over a list *)

Lemma bind_Ok {A B} (m : result A) (f : A -> result B) b :
  m ≫= f = Ok b <-> exists a, m = Ok a /\ f a = Ok b.
Proof.
  destruct m as [a|e]; cbn.
  - split; [eauto|]. intros (a' & [= <-] & Hf). exact Hf.
  - split; [discriminate|]. intros (a' & [=] & _).
Qed.

Lemma mapM_Ok {A B} (f : A -> result B) l k :
  mapM f l = Ok k <-> Forall2 (fun x y => f x = Ok y) l k.
Proof.
  revert k. induction l as [|x l IH]; intros k; cbn.
  - split.
    + intros [= <-]. constructor.
    + intros Hk. inversion Hk. reflexivity.
  - rewrite bind_Ok. split.
    + intros (y & Hy & Hk). apply bind_Ok in Hk as (k' & Hk' & [= <-]).
      constructor; [exact Hy | by apply IH].
    + intros Hk. inversion Hk as [|? y ? k' Hy Hk']; subst.
      exists y. split; [exact Hy|]. apply bind_Ok. exists k'.
      split; [by apply IH | reflexivity].
Qed.

Lemma mapM_Ok_lookup {A B} (f : A -> result B) l k i x :
  mapM f l = Ok k -> l !! i = Some x ->
  exists y, k !! i = Some y /\ f x = Ok y.
Proof.
  intros Hm Hl. apply mapM_Ok in Hm.
  destruct (Forall2_lookup_l _ _ _ _ _ Hm Hl) as (y & Hy & Hf). eauto.
Qed.

Lemma mapM_Ok_length {A B} (f : A -> result B) l k :
  mapM f l = Ok k -> length k = length l.
Proof. intros Hm. apply mapM_Ok in Hm. symmetry. by eapply Forall2_length. Qed.


Lemma Forall_Forall_lookup {A} (P : A -> Prop) (ll : list (list A)) i l p x :
  Forall (Forall P) ll -> ll !! i = Some l -> l !! p = Some x -> P x.
Proof.
  intros Hll Hl Hx.
  pose proof (proj1 (Forall_lookup _ _) Hll _ _ Hl) as Hl'.
  exact (proj1 (Forall_lookup _ _) Hl' _ _ Hx).
Qed.

Lemma all_finite_fmap {A} (l : list A) : all_finite (finite <$> l) = finite l.
Proof. induction l as [|a l IH]; [reflexivity|]. cbn. by rewrite IH. Qed.

Lemma all_finite_nonfinite {A} (l : list (floats A)) :
  nonfinite ∈ l -> all_finite l = nonfinite.
Proof.
  induction l as [|x l IH]; intros Hin; [by apply elem_of_nil in Hin|].
  apply elem_of_cons in Hin as [<-|Hin]; [reflexivity|].
  cbn. destruct x; [|reflexivity]. by rewrite (IH Hin).
Qed.

(** ** Material strains of Mindlin plates and shells *)

Section MindlinFacts.
Import Mindlin.

Lemma setslice_Ok_width n src :
  length src = n -> setslice n src = Ok src.
Proof. intros Hn. unfold setslice. by rewrite decide_True. Qed.


Lemma inplane_row_plate z row :
  (3 <= length row)%nat ->
  inplane_row z row = Ok ((fun m => m * z) <$> take 3 row).
Proof.
  intros Hrow. apply setslice_Ok_width.
  rewrite length_fmap, length_take. lia.
Qed.

Lemma shear_row_plate k head row :
  length row = plate_NSTRE ->
  shear_row k head row = Ok (head ++ ((fun m => k * m) <$> drop 3 row)).
Proof.
  intros Hrow. unfold shear_row. rewrite setslice_Ok_width; [reflexivity|].
  rewrite length_fmap, length_drop, Hrow. reflexivity.
Qed.

(** The shear rows of a shell do not fit: five values for two slots. *)
Lemma shear_row_shell k head row :
  length row = shell_NSTRE -> shear_row k head row = Raise ValueError.
Proof.
  intros Hrow. unfold shear_row, setslice.
  rewrite decide_False
    by (rewrite length_fmap, length_drop, Hrow; unfold shell_NSTRE, _NHOOKE_; lia).
  do 8 (destruct row as [|? row]; [discriminate Hrow|]). reflexivity.
Qed.

(** For a batch of plate strains (five components per point), one
    non-zero thickness per element: [material_strains_mindlin_plate]
    returns an array of the same elements and points, whose first three
    components are the model strains times [z] and whose last two are
    the model strains times [(5/4)(1 - 4 (z/t)^2)]. *)
Theorem material_strains_mindlin_plate_spec (model_strains : array3) z (t : list scalar) :
  length t = length model_strains ->
  Forall (fun ti => ti <> 0) t ->
  Forall (Forall (fun row => length row = plate_NSTRE)) model_strains ->
  exists res,
    material_strains_mindlin_plate model_strains z t = Ok (finite res) /\
    forall i p e row ti,
      model_strains !! i = Some e -> e !! p = Some row -> t !! i = Some ti ->
      exists out,
        res !! i ≫= (fun r => r !! p) = Some out /\
        take 3 out = (fun m => m * z) <$> take 3 row /\
        drop 3 out =
          (fun m => QcZ 5 / QcZ 4 * (1 - QcZ 4 * (z / ti) ^ 2) * m) <$> drop 3 row.
Proof.
  intros Ht Hnz Hshape.
  set (head_of row := (fun m => m * z) <$> take 3 row).
  set (out_of ti row :=
         head_of row ++
         ((fun m => QcZ 5 / QcZ 4 * (1 - QcZ 4 * (z / ti) ^ 2) * m) <$> drop 3 row)).
  set (res := fmap (M:=list) head_of <$> model_strains).
  assert (Hres : mapM (mapM (inplane_row z)) model_strains = Ok res).
  { apply mapM_Ok. subst res. apply Forall2_fmap_r, Forall_Forall2_diag.
    eapply Forall_impl; [exact Hshape|]. intros e He. cbn.
    apply mapM_Ok, Forall2_fmap_r, Forall_Forall2_diag.
    eapply Forall_impl; [exact He|]. intros row Hrow. cbn.
    apply inplane_row_plate. rewrite Hrow. unfold plate_NSTRE. lia. }
  set (final := imap (fun i e => out_of (default 0 (t !! i)) <$> e) model_strains).
  assert (Hfinal : mapM (shear_element z t)
            (zip (seq 0 (length model_strains)) (zip res model_strains))
            = Ok (finite <$> final)).
  { apply mapM_Ok. apply Forall2_same_length_lookup_2.
    - subst final res.
      rewrite length_zip_with, length_seq, length_zip_with, !length_fmap, length_imap. lia.
    - intros i [j [r e]] y Hzip Hy.
      apply lookup_zip_with_Some in Hzip as (j' & re & [= <- <-] & Hj & Hre).
      apply lookup_zip_with_Some in Hre as (r' & e' & [= <- <-] & Hr & He).
      apply lookup_seq in Hj as [-> Hi]. cbn in Hi |- *.
      subst final. rewrite list_lookup_fmap, list_lookup_imap, He in Hy.
      cbn in Hy. injection Hy as <-.
      subst res. rewrite list_lookup_fmap, He in Hr. cbn in Hr. injection Hr as <-.
      destruct (lookup_lt_is_Some_2 t i) as [ti Hti]; [lia|].
      unfold getitem. rewrite Hti. cbn.
      unfold shear_factor. rewrite decide_False
        by (eapply (proj1 (Forall_lookup _ _) Hnz); eauto).
      assert (He' : Forall (fun row => length row = plate_NSTRE) e)
        by (eapply (proj1 (Forall_lookup _ _) Hshape); eauto).
      apply bind_Ok. eexists. split; [|reflexivity].
      apply mapM_Ok, Forall2_same_length_lookup_2.
      + rewrite length_zip_with, !length_fmap. lia.
      + intros p [head row] y Hz Hy.
        apply lookup_zip_with_Some in Hz as (h' & row' & [= <- <-] & Hh & Hrow).
        rewrite list_lookup_fmap, Hrow in Hh, Hy. cbn in Hh, Hy.
        injection Hh as <-. injection Hy as <-.
        rewrite shear_row_plate; [reflexivity|].
        eapply (proj1 (Forall_lookup _ _) He'); eauto. }
  exists final. split.
  { unfold material_strains_mindlin_plate, material_strains.
    rewrite Hres. cbn. rewrite Hfinal. cbn. by rewrite all_finite_fmap. }
  intros i p e row ti He Hrow Hti. exists (out_of ti row).
  assert (Hlen : length row = plate_NSTRE).
  { exact (Forall_Forall_lookup _ _ _ _ _ _ Hshape He Hrow). }
  split; [|split].
  - subst final. rewrite list_lookup_imap, He. cbn.
    rewrite list_lookup_fmap, Hrow, Hti. reflexivity.
  - subst out_of head_of. cbn. rewrite take_app_length'; [reflexivity|].
    rewrite length_fmap, length_take, Hlen. reflexivity.
  - subst out_of head_of. cbn. rewrite drop_app_length'; [reflexivity|].
    rewrite length_fmap, length_take, Hlen. reflexivity.
Qed.

(** At [z = 0] the in-plane part vanishes and the transverse-shear
    part is the model strain times 5/4. *)
Lemma midsurface_factors (ti m : scalar) :
  m * 0 = 0 /\ QcZ 5 / QcZ 4 * (1 - QcZ 4 * (0 / ti) ^ 2) * m = QcZ 5 / QcZ 4 * m.
Proof.
  split; [ring|].
  assert (0 / ti = 0) as -> by (unfold Qcdiv; ring).
  change (0 ^ 2) with (0 * (0 * 1)). ring.
Qed.

(** At the mid-surface of a plate, [z = 0]: the three in-plane
    components of the material strains are zero and the two
    transverse-shear components are the model strains times 5/4. *)
Theorem material_strains_mindlin_plate_midsurface (model_strains : array3)
    (t : list scalar) :
  length t = length model_strains ->
  Forall (fun ti => ti <> 0) t ->
  Forall (Forall (fun row => length row = plate_NSTRE)) model_strains ->
  exists res,
    material_strains_mindlin_plate model_strains 0 t = Ok (finite res) /\
    forall i p e row,
      model_strains !! i = Some e -> e !! p = Some row ->
      exists out,
        res !! i ≫= (fun r => r !! p) = Some out /\
        take 3 out = [0; 0; 0] /\
        drop 3 out = (fun m => QcZ 5 / QcZ 4 * m) <$> drop 3 row.
Proof.
  intros Ht Hnz Hshape.
  destruct (material_strains_mindlin_plate_spec _ 0 t Ht Hnz Hshape) as (res & Hres & Hall).
  exists res. split; [exact Hres|]. intros i p e row He Hrow.
  destruct (lookup_lt_is_Some_2 t i) as [ti Hti].
  { rewrite Ht. by eapply lookup_lt_Some. }
  destruct (Hall i p e row ti He Hrow Hti) as (out & Hout & Htake & Hdrop).
  exists out. split; [exact Hout|]. split.
  - rewrite Htake.
    pose proof (Forall_Forall_lookup _ _ _ _ _ _ Hshape He Hrow) as Hlen.
    do 5 (destruct row as [|? row]; [discriminate Hlen|]).
    cbn. repeat f_equal; ring.
  - rewrite Hdrop. apply list_fmap_ext. intros j m _.
    apply (midsurface_factors ti m).
Qed.

(** No batch of shell strains (eight components per point) with a point
    in it gets material strains from [material_strains_mindlin_shell]. *)
Theorem material_strains_mindlin_shell_fails (model_strains : array3) z (t : list scalar) :
  Forall (Forall (fun row => length row = shell_NSTRE)) model_strains ->
  (exists i e p row, model_strains !! i = Some e /\ e !! p = Some row) ->
  ~ is_Ok (material_strains_mindlin_shell model_strains z t).
Proof.
  intros Hshape (i & e & p & row & He & Hrow) [out Hout].
  unfold material_strains_mindlin_shell, material_strains in Hout.
  apply bind_Ok in Hout as (res & Hres & Hout).
  apply bind_Ok in Hout as (elements & Hout & _).
  destruct (mapM_Ok_lookup _ _ _ _ _ Hres He) as (r & Hr & Hre).
  destruct (mapM_Ok_lookup _ _ _ _ _ Hre Hrow) as (head & Hhead & _).
  assert (Hzip : zip (seq 0 (length model_strains)) (zip res model_strains) !! i
                 = Some (i, (r, e))).
  { apply lookup_zip_with_Some. exists i, (r, e). split; [done|]. split.
    - apply lookup_seq. split; [done|]. by eapply lookup_lt_Some.
    - apply lookup_zip_with_Some. eauto. }
  destruct (mapM_Ok_lookup _ _ _ _ _ Hout Hzip) as (y & _ & Hy).
  cbn in Hy. apply bind_Ok in Hy as (ti & _ & Hy).
  assert (Hzip' : zip r e !! p = Some (head, row))
    by (apply lookup_zip_with_Some; eauto).
  assert (Hlen : length row = shell_NSTRE)
    by exact (Forall_Forall_lookup _ _ _ _ _ _ Hshape He Hrow).
  destruct (shear_factor z ti) as [k|];
    apply bind_Ok in Hy as (rows & Hy & _);
    destruct (mapM_Ok_lookup _ _ _ _ _ Hy Hzip') as (o & _ & Ho);
    cbn in Ho; rewrite shear_row_shell in Ho by exact Hlen; discriminate.
Qed.

(** C7. On one element with one point of shell strains (components 1
    to 8), at the mid-surface [z = 0] with thickness 1,
    [material_strains_mindlin_shell] raises: the five trailing
    components do not fit the two transverse-shear slots of the
    result. On plate strains the same body returns the scaled strains
    ([material_strains_mindlin_plate_spec]). *)
Theorem material_strains_mindlin_shell_raises :
  material_strains_mindlin_shell [[QcZ <$> [1; 2; 3; 4; 5; 6; 7; 8]%Z]] 0 [1]
  = Raise ValueError.
Proof. by_evaluation. Qed.

End MindlinFacts.

(** ** Global assembly *)

Section SparseFacts.
Import Mesh.

Lemma entry_app (A B : coo) k : entry (A ++ B) k = entry A k + entry B k.
Proof.
  induction A as [|[k' v] A IH]; cbn; [ring|]. rewrite IH. ring.
Qed.

Lemma entry_eliminate_zeros (K : coo) k : entry (eliminate_zeros K) k = entry K k.
Proof.
  unfold eliminate_zeros. induction K as [|[k' v] K IH]; [reflexivity|].
  rewrite filter_cons. cbn. destruct (decide (v <> 0)) as [Hv|Hv]; cbn.
  - by rewrite IH.
  - rewrite IH. apply dec_stable in Hv. rewrite Hv.
    destruct (decide (k' = k)); ring.
Qed.

Lemma entry_not_key (K : coo) k : k ∉ keys K -> entry K k = 0.
Proof.
  unfold keys. induction K as [|[k' v] K IH]; [reflexivity|]. cbn.
  rewrite not_elem_of_cons. intros [Hne Hk].
  rewrite decide_False by congruence. rewrite IH by exact Hk. ring.
Qed.

Lemma entry_tabulate (g : key -> scalar) (l : list key) k :
  NoDup l ->
  entry ((fun k => (k, g k)) <$> l) k = if decide (k ∈ l) then g k else 0.
Proof.
  induction 1 as [|k' l Hk' Hl IH]; cbn.
  - rewrite decide_False by apply not_elem_of_nil. reflexivity.
  - rewrite IH. destruct (decide (k' = k)) as [->|Hne].
    + rewrite decide_False by exact Hk'.
      rewrite decide_True by apply list_elem_of_here. ring.
    + destruct (decide (k ∈ l)) as [Hin|Hin].
      * rewrite decide_True by (by apply list_elem_of_further). ring.
      * rewrite decide_False; [ring|].
        rewrite not_elem_of_cons. split; [congruence | exact Hin].
Qed.

Lemma keys_sum_duplicates (K : coo) : keys (sum_duplicates K) = remove_dups (keys K).
Proof.
  unfold sum_duplicates, keys. rewrite <- list_fmap_compose.
  apply list_fmap_id.
Qed.

(** Merging keeps the denoted matrix and leaves one triplet per key. *)
Lemma entry_sum_duplicates (K : coo) k : entry (sum_duplicates K) k = entry K k.
Proof.
  unfold sum_duplicates. rewrite entry_tabulate by apply NoDup_remove_dups.
  destruct (decide (k ∈ remove_dups (keys K))) as [Hin|Hin]; [reflexivity|].
  symmetry. apply entry_not_key. intros Hk. by apply Hin, (proj2 (elem_of_remove_dups _ _)).
Qed.

Lemma NoDup_keys_sum_duplicates (K : coo) : NoDup (keys (sum_duplicates K)).
Proof. rewrite keys_sum_duplicates. apply NoDup_remove_dups. Qed.

Lemma stored_sum_duplicates (K : coo) k v :
  (k, v) ∈ sum_duplicates K <-> k ∈ keys K /\ v = entry K k.
Proof.
  unfold sum_duplicates. rewrite list_elem_of_fmap. split.
  - intros (k' & [= -> ->] & Hin).
    apply (proj1 (elem_of_remove_dups _ _)) in Hin. split; [assumption|reflexivity].
  - intros [Hin ->]. exists k. split; [reflexivity|].
    by apply (proj2 (elem_of_remove_dups _ _)).
Qed.

Lemma NoDup_keys_eliminate_zeros (K : coo) :
  NoDup (keys K) -> NoDup (keys (eliminate_zeros K)).
Proof.
  unfold keys, eliminate_zeros. intros Hnd.
  eapply sublist_NoDup; [exact Hnd|]. apply fmap_sublist, sublist_filter.
Qed.

Lemma stored_eliminate_zeros (K : coo) k v :
  (k, v) ∈ eliminate_zeros K <-> (k, v) ∈ K /\ v <> 0.
Proof. unfold eliminate_zeros. rewrite list_elem_of_filter. cbn. tauto. Qed.

Lemma entry_stored (K : coo) k v :
  NoDup (keys K) -> (k, v) ∈ K -> entry K k = v.
Proof.
  unfold keys. induction K as [|[k' v'] K IH]; cbn.
  - intros _ Hin. by apply elem_of_nil in Hin.
  - rewrite NoDup_cons, elem_of_cons. intros [Hk' HK] [[= -> ->]|Hin].
    + rewrite decide_True by reflexivity.
      rewrite (entry_not_key K k') by exact Hk'. ring.
    + rewrite decide_False.
      * rewrite IH by assumption. ring.
      * intros ->. apply Hk'. apply list_elem_of_fmap. by exists (k, v).
Qed.

(** The sum of two sparse matrices: their entries add up, no key is
    stored twice, no stored value is zero. *)
Lemma entry_coo_add (A B : coo) k : entry (coo_add A B) k = entry A k + entry B k.
Proof.
  unfold coo_add. by rewrite entry_eliminate_zeros, entry_sum_duplicates, entry_app.
Qed.

Lemma coo_add_canonical (A B : coo) :
  NoDup (keys (coo_add A B)) /\ forall k v, (k, v) ∈ coo_add A B -> v <> 0.
Proof.
  split.
  - apply NoDup_keys_eliminate_zeros, NoDup_keys_sum_duplicates.
  - intros k v Hin. by apply stored_eliminate_zeros in Hin as [_ Hv].
Qed.

Lemma blocks_sum_cons (B : coo) (Ks : list coo) k :
  blocks_sum (B :: Ks) k = entry B k + blocks_sum Ks k.
Proof. reflexivity. Qed.

Lemma entry_foldl_coo_add (Ks : list coo) (K : coo) k :
  entry (foldl coo_add K Ks) k = entry K k + blocks_sum Ks k.
Proof.
  revert K. induction Ks as [|B Ks IH]; intros K.
  - change (entry K k = entry K k + 0). ring.
  - change (entry (foldl coo_add (coo_add K B) Ks) k
            = entry K k + blocks_sum (B :: Ks) k).
    rewrite IH, entry_coo_add, blocks_sum_cons. ring.
Qed.

Lemma foldl_coo_add_canonical (Ks : list coo) (A B : coo) :
  let K := foldl coo_add A (B :: Ks) in
  NoDup (keys K) /\ forall k v, (k, v) ∈ K -> v <> 0.
Proof.
  cbn. revert A B. induction Ks as [|C Ks IH]; intros A B; cbn.
  - apply coo_add_canonical.
  - apply IH.
Qed.

(** A matrix in which no key is stored twice and no stored value is zero
    goes through both clean-up steps with its triplets unchanged. *)
Lemma cleanup_canonical (K : coo) k v :
  NoDup (keys K) -> (forall k v, (k, v) ∈ K -> v <> 0) ->
  (k, v) ∈ sum_duplicates (eliminate_zeros K) -> v <> 0.
Proof.
  intros Hnd Hnz Hin. apply stored_sum_duplicates in Hin as [Hk ->].
  unfold keys in Hk. apply list_elem_of_fmap in Hk as ([k' v'] & -> & Hin). cbn.
  rewrite (entry_stored (eliminate_zeros K) k' v');
    [| by apply NoDup_keys_eliminate_zeros | exact Hin].
  apply stored_eliminate_zeros in Hin. tauto.
Qed.

End SparseFacts.

Section AssemblyFacts.
Import Mesh.
Context {Cell : Type} `{!Kernels Cell}.

(** C4 (as amended). For a mesh with at least one cell block whose
    blocks all deliver their matrix, [elastic_stiffness_matrix_coo] with
    default arguments returns a matrix [K] that equals the sum of the
    blocks' contributions at every key, stores every key once, and stores
    under it that sum (duplicates are added, never overwritten). Stored
    zeros are dropped before the duplicates are merged: with two or more
    blocks no stored value is zero, and with a single block the stored
    keys are those under which the block stores a non-zero value. *)
Theorem elastic_stiffness_matrix_coo_sum (self : FemMesh Cell) (Ks : list coo) :
  cellblocks self <> [] ->
  mapM celldata_elastic_stiffness_matrix_coo (cellblocks self) = Ok Ks ->
  exists K,
    elastic_stiffness_matrix_coo self true true = Ok K /\
    (forall k, entry K k = blocks_sum Ks k) /\
    NoDup (keys K) /\
    (forall k v, (k, v) ∈ K -> v = blocks_sum Ks k) /\
    ((2 <= length Ks)%nat -> forall k v, (k, v) ∈ K -> v <> 0) /\
    (forall A, Ks = [A] ->
       forall k, k ∈ keys K <-> exists v, (k, v) ∈ A /\ v <> 0).
Proof.
  intros Hne Hm.
  destruct Ks as [|A Ks].
  { apply mapM_Ok_length in Hm. destruct (cellblocks self); [done | discriminate]. }
  set (K0 := foldl coo_add A Ks).
  assert (Hentry : forall k,
            entry (sum_duplicates (eliminate_zeros K0)) k = blocks_sum (A :: Ks) k).
  { intros k. rewrite entry_sum_duplicates, entry_eliminate_zeros.
    subst K0. rewrite entry_foldl_coo_add. reflexivity. }
  exists (sum_duplicates (eliminate_zeros K0)). split; [|split; [|split; [|split; [|split]]]].
  - unfold elastic_stiffness_matrix_coo. rewrite Hm. reflexivity.
  - exact Hentry.
  - apply NoDup_keys_sum_duplicates.
  - intros k v Hin. rewrite <- Hentry.
    apply stored_sum_duplicates in Hin as [_ ->]. by rewrite entry_sum_duplicates.
  - intros Hlen k v Hin. destruct Ks as [|B Ks]; [cbn in Hlen; lia|].
    destruct (foldl_coo_add_canonical Ks A B) as [Hnd Hnz].
    eapply cleanup_canonical; eauto.
  - intros A' [= <- ->] k. cbn in K0. subst K0.
    rewrite keys_sum_duplicates. split.
    + intros Hk. apply (proj1 (elem_of_remove_dups _ _)) in Hk.
      apply list_elem_of_fmap in Hk as ([k' v] & -> & Hin).
      apply stored_eliminate_zeros in Hin. exists v. exact Hin.
    + intros (v & Hin & Hv). apply (proj2 (elem_of_remove_dups _ _)).
      apply list_elem_of_fmap. exists (k, v). split; [reflexivity|].
      apply stored_eliminate_zeros. by split.
Qed.

(** *** Load vectors *)

Lemma sumQc_cons (x : scalar) (l : list scalar) : sumQc (x :: l) = x + sumQc l.
Proof. reflexivity. Qed.

Lemma shape_lookup (a : loadvec) i : shape a !! i = length <$> a !! i.
Proof. unfold shape. apply list_lookup_fmap. Qed.

Lemma shape_add_arrays (a b : loadvec) :
  shape b = shape a -> shape (add_arrays a b) = shape a.
Proof.
  revert b. induction a as [|ra a IH]; intros [|rb b]; cbn; try done.
  intros [= Hr Hs]. f_equal.
  - rewrite length_zip_with. lia.
  - by apply IH.
Qed.

Lemma at_add_arrays (a b : loadvec) i j :
  shape b = shape a -> at_ (add_arrays a b) i j = at_ a i j + at_ b i j.
Proof.
  intros Hs. assert (Hi : length <$> b !! i = length <$> a !! i)
    by (by rewrite <- !shape_lookup, Hs).
  unfold at_, add_arrays. rewrite lookup_zip_with.
  destruct (a !! i) as [ra|], (b !! i) as [rb|]; cbn in *; try discriminate.
  - injection Hi as Hlen. rewrite lookup_zip_with.
    destruct (ra !! j) as [x|] eqn:Hx, (rb !! j) as [y|] eqn:Hy; cbn.
    + reflexivity.
    + apply lookup_lt_Some in Hx. apply lookup_ge_None in Hy. lia.
    + apply lookup_lt_Some in Hy. apply lookup_ge_None in Hx. lia.
    + ring.
  - ring.
Qed.

Lemma sum_arrays_spec (vs : list loadvec) (acc : loadvec) :
  Forall (fun v => shape v = shape acc) vs ->
  exists r, sum_arrays acc vs = Ok r /\ shape r = shape acc /\
    forall i j, at_ r i j = at_ acc i j + sumQc ((fun v => at_ v i j) <$> vs).
Proof.
  revert acc. induction vs as [|v vs IH]; intros acc Hvs.
  - exists acc. repeat split. intros i j. change (at_ acc i j = at_ acc i j + 0). ring.
  - apply Forall_cons in Hvs as [Hv Hvs].
    destruct (IH (add_arrays acc v)) as (r & Hr & Hsr & Hat).
    { rewrite shape_add_arrays by exact Hv. exact Hvs. }
    exists r. cbn. rewrite decide_True by exact Hv. split; [exact Hr|]. split.
    + by rewrite Hsr, shape_add_arrays.
    + intros i j. rewrite Hat, at_add_arrays by exact Hv.
      unfold sumQc. cbn. ring.
Qed.

Lemma loads_sum_not_None (m : list (option loadvec)) i j :
  loads_sum m i j = sumQc ((fun v => at_ v i j) <$> not_None m).
Proof.
  unfold loads_sum, not_None. induction m as [|[v|] m IH].
  - reflexivity.
  - change (at_ v i j + sumQc ((fun v => contribution v i j) <$> m)
            = at_ v i j + sumQc ((fun v => at_ v i j) <$> omap id m)).
    by rewrite IH.
  - change (0 + sumQc ((fun v => contribution v i j) <$> m)
            = sumQc ((fun v => at_ v i j) <$> omap id m)).
    rewrite IH. ring.
Qed.

Lemma broadcast_same {A} (n : nat) (v : list A) :
  length v = n -> broadcast n v = Ok v.
Proof. intros Hn. unfold broadcast. by rewrite decide_True. Qed.

Lemma broadcast_length {A} (n : nat) (v v' : list A) :
  broadcast n v = Ok v' -> length v' = n.
Proof.
  unfold broadcast. destruct (decide (length v = n)) as [Hn|Hn].
  - by intros [= <-].
  - destruct v as [|x [|? ?]]; try discriminate.
    intros [= <-]. apply length_replicate.
Qed.

(** Broadcasting leaves an array of the shape of [res] as it is, and
    whatever it accepts comes out in the shape of [res]. *)
Lemma broadcast_to_same_shape (res v : loadvec) :
  shape v = shape res -> broadcast_to res v = Ok v.
Proof.
  intros Hs. unfold broadcast_to.
  rewrite broadcast_same by (rewrite <- (length_fmap length v), <- (length_fmap length res);
                             by f_equal).
  cbn. revert v Hs. induction res as [|r res IH]; intros [|row v]; try discriminate.
  - reflexivity.
  - intros [= Hr Hs]. cbn. rewrite broadcast_same by exact Hr. cbn.
    by rewrite (IH v Hs).
Qed.

Lemma broadcast_to_shape (res v v' : loadvec) :
  broadcast_to res v = Ok v' -> shape v' = shape res.
Proof.
  unfold broadcast_to. intros (rows & Hrows & Hm)%bind_Ok.
  apply broadcast_length in Hrows.
  apply mapM_Ok in Hm. revert rows v' Hrows Hm.
  induction res as [|r res IH]; intros [|row rows] v' Hrows; try discriminate.
  - by intros ->%Forall2_nil_inv_l.
  - cbn. intros (y & v'' & Hy & Hm & ->)%Forall2_cons_inv_l. cbn.
    apply broadcast_length in Hy. rewrite Hy. f_equal.
    apply (IH rows); [cbn in Hrows; lia | exact Hm].
Qed.

(** Squeezing keeps the entries and their order. *)
Lemma ravel_np_squeeze (v : loadvec) : ravel (np_squeeze v) = concat v.
Proof.
  destruct v as [|row [|row' v]]; [reflexivity | |].
  - destruct row as [|x [|y row]]; cbn; by rewrite ?app_nil_r.
  - unfold np_squeeze.
    destruct (forallb (fun row => (length row =? 1)%nat) (row :: row' :: v));
      by destruct row as [|x [|y row]].
Qed.

(** A guarded update keeps the shape of [res], whatever happens in it. *)
Lemma shape_add_block_loads (foo : Cell -> result (option loadvec)) blocks res :
  shape (add_block_loads foo blocks res) = shape res.
Proof.
  unfold add_block_loads.
  destruct (mapM foo blocks) as [m|e]; cbn; [|reflexivity].
  destruct (np_sum_axis0 (not_None m)) as [[v|]|e]; cbn; try reflexivity.
  destruct (broadcast_to res v) as [v'|e] eqn:Hv; cbn; [|reflexivity].
  apply shape_add_arrays. by eapply broadcast_to_shape.
Qed.

(** When every block answers, with no data or with an array of the shape
    of [res], the update adds the blocks' arrays to [res]. *)
Lemma add_block_loads_sum (foo : Cell -> result (option loadvec)) blocks res m :
  mapM foo blocks = Ok m ->
  Forall (fun v => shape v = shape res) (not_None m) ->
  forall i j, at_ (add_block_loads foo blocks res) i j = at_ res i j + loads_sum m i j.
Proof.
  intros Hm Hshape i j. unfold add_block_loads. rewrite Hm. cbn.
  rewrite loads_sum_not_None.
  destruct (not_None m) as [|v vs]; cbn.
  - change (at_ res i j = at_ res i j + 0). ring.
  - apply Forall_cons in Hshape as [Hv Hvs].
    destruct (sum_arrays_spec vs v) as (r & Hr & Hsr & Hat).
    { eapply Forall_impl; [exact Hvs|]. intros w Hw. cbn in Hw. congruence. }
    rewrite Hr. cbn. rewrite broadcast_to_same_shape by congruence. cbn.
    rewrite at_add_arrays by congruence. rewrite Hat.
    unfold sumQc. cbn. ring.
Qed.

Lemma mapM_Raise {A B} (f : A -> result B) (l : list A) x e :
  x ∈ l -> f x = Raise e -> exists e', mapM f l = Raise e'.
Proof.
  intros Hin Hx. destruct (mapM f l) as [k|e'] eqn:Hm; [|eauto].
  apply list_elem_of_lookup in Hin as [i Hi].
  destruct (mapM_Ok_lookup _ _ _ _ _ Hm Hi) as (y & _ & Hy). congruence.
Qed.

(** The update is skipped as a whole when one block raises. *)
Lemma add_block_loads_raise (foo : Cell -> result (option loadvec)) blocks res b e :
  b ∈ blocks -> foo b = Raise e -> add_block_loads foo blocks res = res.
Proof.
  intros Hin Hb. destruct (mapM_Raise foo blocks b e Hin Hb) as [e' He'].
  unfold add_block_loads. rewrite He'. reflexivity.
Qed.

(** C5 (as amended). When the nodal loads are set and their load vector
    is built, [load_vector] returns, whatever the blocks do: an error
    raised while a block's body-load (or strain-load) vector is computed
    is caught inside the method, and the returned vector is the one in
    which the body-load (or strain-load) update of all blocks is left
    out. *)
Theorem load_vector_catches_block_errors (self : FemMesh Cell) nodal res0 :
  loads (root_pointdata self) = Some nodal ->
  fem_load_vector nodal = Ok res0 ->
  (exists res, load_vector self = Ok res /\ shape res = shape res0) /\
  (forall b e, b ∈ cellblocks self -> celldata_body_load_vector b = Raise e ->
     load_vector self
     = Ok (add_block_loads celldata_strain_load_vector (cellblocks self) res0)) /\
  (forall b e, b ∈ cellblocks self -> celldata_strain_load_vector b = Raise e ->
     load_vector self
     = Ok (add_block_loads celldata_body_load_vector (cellblocks self) res0)).
Proof.
  intros Hl Hv. unfold load_vector. rewrite Hl. cbn. rewrite Hv. cbn.
  split; [|split].
  - eexists. split; [reflexivity|]. by rewrite !shape_add_block_loads.
  - intros b e Hin Hb. by rewrite (add_block_loads_raise _ _ res0 b e Hin Hb).
  - intros b e Hin Hb. by rewrite (add_block_loads_raise _ _ _ b e Hin Hb).
Qed.


(** C9. [penalty_matrix_coo] does not read its [fixity] argument: two
    calls that differ in it only return the same, which is the penalty
    matrix of the fixity array stored in the root point data (and the
    error of reading it when none is stored). *)
Theorem penalty_matrix_coo_ignores_fixity (self : FemMesh Cell)
    (fixity1 fixity2 : option fixity_array) (eliminate_zeros_ sum_duplicates_ : bool) :
  penalty_matrix_coo self fixity1 eliminate_zeros_ sum_duplicates_
  = penalty_matrix_coo self fixity2 eliminate_zeros_ sum_duplicates_ /\
  penalty_matrix_coo self fixity1 eliminate_zeros_ sum_duplicates_
  = (stored ← getattr (fixity (root_pointdata self));
     fem_penalty_matrix_coo stored eliminate_zeros_ sum_duplicates_).
Proof.
  split; [reflexivity|]. unfold penalty_matrix_coo.
  destruct (getattr (fixity (root_pointdata self))) as [stored|e]; cbn; [|reflexivity].
  by destruct (fem_penalty_matrix_coo stored eliminate_zeros_ sum_duplicates_).
Qed.

End AssemblyFacts.

Section AssemblyExamples.
Import Mesh.

(** Two blocks that share the keys (0, 1) and (1, 1): the entries under
    (0, 1) cancel and the key is gone, the stored zero under (2, 2) is
    dropped. *)
Lemma elastic_stiffness_matrix_coo_sum_witness :
  let self := Demo.two_blocks (Ok None) in
  let Ks := [ [Demo.triplet 0 0 (QcZ 2); Demo.triplet 0 1 (- (1)); Demo.triplet 1 1 1];
              [Demo.triplet 1 1 1; Demo.triplet 0 1 1; Demo.triplet 2 2 0] ] in
  cellblocks self <> [] /\
  mapM celldata_elastic_stiffness_matrix_coo (cellblocks self) = Ok Ks /\
  exists K,
    elastic_stiffness_matrix_coo self true true = Ok K /\
    (forall k, entry K k = blocks_sum Ks k) /\
    NoDup (keys K) /\
    (forall k v, (k, v) ∈ K -> v = blocks_sum Ks k) /\
    ((2 <= length Ks)%nat -> forall k v, (k, v) ∈ K -> v <> 0) /\
    (forall A, Ks = [A] ->
       forall k, k ∈ keys K <-> exists v, (k, v) ∈ A /\ v <> 0).
Proof.
  intros self Ks. split; [discriminate|]. split; [reflexivity|].
  apply (elastic_stiffness_matrix_coo_sum self Ks); [discriminate | reflexivity].
Defined.

(** C4, as stated, fails on a mesh of one block that stores 1 and -1
    under the key (0, 0): nothing is zero when the zeros are dropped, the
    merge that follows leaves the key stored with the value zero. It
    fails on a mesh without cell blocks too, where no matrix is returned. *)
Lemma elastic_stiffness_matrix_coo_stores_zero :
  elastic_stiffness_matrix_coo Demo.cancelling_mesh true true
  = Ok [Demo.triplet 0 0 0] /\
  elastic_stiffness_matrix_coo Demo.empty_mesh true true = Raise AttributeError.
Proof. split; by_evaluation. Qed.

(** The second block cannot compute its body loads: the call returns the
    nodal loads plus the strain loads; the body loads of the first block
    are lost with those of the second. *)
Lemma load_vector_catches_block_errors_witness :
  let self := Demo.two_blocks (Raise ExternalError) in
  let nodal := [[[1; 0]; [0; 1]]; [[0; 0]; [QcZ 2; QcZ 3]]] in
  let res0 := [[1; 0]; [0; 1]; [0; 0]; [QcZ 2; QcZ 3]] in
  loads (root_pointdata self) = Some nodal /\
  fem_load_vector nodal = Ok res0 /\
  (exists res, load_vector self = Ok res /\ shape res = shape res0) /\
  (forall b e, b ∈ cellblocks self -> celldata_body_load_vector b = Raise e ->
     load_vector self
     = Ok (add_block_loads celldata_strain_load_vector (cellblocks self) res0)) /\
  (forall b e, b ∈ cellblocks self -> celldata_strain_load_vector b = Raise e ->
     load_vector self
     = Ok (add_block_loads celldata_body_load_vector (cellblocks self) res0)).
Proof.
  intros self nodal res0. split; [reflexivity|]. split; [reflexivity|].
  apply (load_vector_catches_block_errors self nodal res0); reflexivity.
Defined.

(** C5, as stated, fails: the body loads of the second block raise, and
    the call returns a load vector all the same. *)
Lemma load_vector_swallows_error :
  let self := Demo.two_blocks (Raise ExternalError) in
  celldata_body_load_vector <$> cellblocks self !! 1%nat = Some (Raise ExternalError) /\
  load_vector self = Ok [[1; 0]; [0; 1]; [QcZ 5; QcZ 7]; [QcZ 2; QcZ 3]].
Proof. split; by_evaluation. Qed.



End AssemblyExamples.

(** ** Homogenization *)

Section FixityFacts.
Import Homg.

Lemma fixed_zeros2 n m p d : fixed (zeros2 n m) p d = false.
Proof.
  unfold fixed, zeros2. destruct (replicate n (replicate m false) !! p) as [row|] eqn:Hp;
    [|reflexivity]. cbn.
  apply lookup_replicate in Hp as [-> _].
  destruct (replicate m false !! d) as [b|] eqn:Hd; [|reflexivity].
  by apply lookup_replicate in Hd as [-> _].
Qed.


Lemma row_lengths_insert (a : list (list bool)) i row row' :
  a !! i = Some row -> length row' = length row ->
  row_lengths (<[i := row']> a) = row_lengths a.
Proof.
  intros Hi Hlen. unfold row_lengths. rewrite list_fmap_insert, Hlen.
  apply list_insert_id. by rewrite list_lookup_fmap, Hi.
Qed.

Lemma getitem_Ok {A} (l : list A) i x : getitem l i = Ok x <-> l !! i = Some x.
Proof.
  unfold getitem. destruct (l !! i); split; intros Hx; congruence.
Qed.

(** [a[i, :k] = True] flags the first [k] DOFs of point [i]. *)
Lemma setitem_row_slice_spec i k (a a' : list (list bool)) :
  setitem_row_slice i k a = Ok a' ->
  (i < length a)%nat /\
  row_lengths a' = row_lengths a /\
  forall p d, fixed a' p d =
    fixed a p d || (bool_decide (p = i) && bool_decide (d < k)%nat
                    && bool_decide (is_Some (a !! p ≫= fun row => row !! d))).
Proof.
  unfold setitem_row_slice. intros Ha.
  apply bind_Ok in Ha as (row & Hrow%getitem_Ok & [= <-]).
  split; [by eapply lookup_lt_Some|]. split.
  { apply (row_lengths_insert _ _ row); [exact Hrow|].
    rewrite length_app, length_replicate, length_drop. lia. }
  intros p d. unfold fixed. destruct (decide (p = i)) as [->|Hne].
  - rewrite list_lookup_insert_eq by (by eapply lookup_lt_Some).
    rewrite Hrow. cbn. rewrite bool_decide_true by reflexivity. cbn.
    destruct (decide (d < k)%nat) as [Hd|Hd].
    + rewrite (bool_decide_true (d < k)%nat) by exact Hd. cbn.
      destruct (row !! d) as [b|] eqn:Hb.
      * rewrite lookup_app_l by (rewrite length_replicate; apply lookup_lt_Some in Hb; lia).
        rewrite lookup_replicate_2 by (apply lookup_lt_Some in Hb; lia). cbn.
        by rewrite orb_true_r.
      * apply lookup_ge_None in Hb.
        rewrite lookup_ge_None_2
          by (rewrite length_app, length_replicate, length_drop; lia).
        reflexivity.
    + rewrite (bool_decide_false (d < k)%nat) by exact Hd. cbn. rewrite orb_false_r.
      rewrite lookup_app_r by (rewrite length_replicate; lia).
      rewrite length_replicate, lookup_drop.
      destruct (decide (k <= length row)%nat).
      * replace (k + (d - k `min` length row))%nat with d by lia. reflexivity.
      * rewrite !lookup_ge_None_2 by lia. reflexivity.
  - rewrite list_lookup_insert_ne by congruence.
    rewrite (bool_decide_false (p = i)) by exact Hne. cbn. by rewrite orb_false_r.
Qed.

Lemma setitem_indices_spec js (row row' : list bool) :
  setitem_indices row js = Ok row' ->
  length row' = length row /\
  Forall (fun j => j < length row)%nat js /\
  forall d, default false (row' !! d) = default false (row !! d) || bool_decide (d ∈ js).
Proof.
  revert row. induction js as [|j js IH]; intros row; cbn.
  - intros [= <-]. split; [reflexivity|]. split; [constructor|].
    intros d. rewrite bool_decide_false by apply not_elem_of_nil. by rewrite orb_false_r.
  - intros Hrow. apply bind_Ok in Hrow as (row1 & Hj & Hrest).
    unfold setitem_index in Hj. destruct (decide (j < length row)%nat) as [Hlt|]; [|discriminate].
    injection Hj as <-. destruct (IH _ Hrest) as (Hlen & Hjs & Hd).
    rewrite length_insert in Hlen, Hjs. split; [exact Hlen|]. split; [by constructor|].
    intros d. rewrite Hd. destruct (decide (d = j)) as [->|Hne].
    + rewrite list_lookup_insert_eq by exact Hlt. cbn.
      rewrite (bool_decide_true (j ∈ j :: js)) by apply list_elem_of_here.
      by rewrite orb_true_r.
    + rewrite list_lookup_insert_ne by congruence.
      f_equal. apply bool_decide_ext. rewrite elem_of_cons. tauto.
Qed.

(** [a[i, js] = True] flags the DOFs [js] of point [i]; every index must
    exist. *)
Lemma setitem_row_indices_spec i js (a a' : list (list bool)) :
  setitem_row_indices i js a = Ok a' ->
  (i < length a)%nat /\
  row_lengths a' = row_lengths a /\
  forall p d, fixed a' p d = fixed a p d || (bool_decide (p = i) && bool_decide (d ∈ js)).
Proof.
  unfold setitem_row_indices. intros Ha.
  apply bind_Ok in Ha as (row & Hrow%getitem_Ok & Ha).
  apply bind_Ok in Ha as (row' & Hrow' & [= <-]).
  apply setitem_indices_spec in Hrow' as (Hlen & _ & Hd).
  split; [by eapply lookup_lt_Some|]. split.
  { by apply (row_lengths_insert _ _ row). }
  intros p d. unfold fixed. destruct (decide (p = i)) as [->|Hne].
  - rewrite list_lookup_insert_eq by (by eapply lookup_lt_Some).
    rewrite Hrow. cbn. rewrite Hd.
    rewrite (bool_decide_true (i = i)) by reflexivity. reflexivity.
  - rewrite list_lookup_insert_ne by congruence.
    rewrite (bool_decide_false (p = i)) by exact Hne. cbn. by rewrite orb_false_r.
Qed.

End FixityFacts.

Section HomogenizeFacts.
Import Homg.
Context {CellData : Type} `{!Externals CellData} `{!Python}.

Lemma M_bind_Ok {A B} (m : M A) (f : A -> M B) (s s' : Structure CellData) b :
  (m ≫= f) s = (Ok b, s') <-> exists a s1, m s = (Ok a, s1) /\ f a s1 = (Ok b, s').
Proof.
  unfold mbind, M_bind. destruct (m s) as [[a|e] s1]; split.
  - eauto.
  - intros (a' & s1' & [= <- <-] & Hf). exact Hf.
  - discriminate.
  - intros (a' & s1' & [=] & _).
Qed.

Lemma get_Ok (s s1 a : Structure CellData) :
  get s = (Ok a, s1) -> a = s /\ s1 = s.
Proof. intros [= <- <-]. done. Qed.

Lemma lift_Ok {A} (r : result A) (s s1 : Structure CellData) a :
  lift r s = (Ok a, s1) -> r = Ok a /\ s1 = s.
Proof. intros [= -> <-]. done. Qed.

Lemma modify_Ok (f : Structure CellData -> Structure CellData) s s1 u :
  modify f s = (Ok u, s1) -> s1 = f s.
Proof. intros [= <-]. done. Qed.

(** *** Loops over the blocks *)

Lemma for_blocks_post {A} (P : Block CellData -> Prop)
    (body : Block CellData -> A -> Block CellData * result A) bs a bs' a' :
  (forall b a, P (body b a).1) ->
  for_blocks body bs a = (bs', Ok a') -> Forall P bs'.
Proof.
  intros HP. revert a bs'. induction bs as [|b bs IH]; intros a bs'; cbn.
  - intros [= <- _]. constructor.
  - pose proof (HP b a) as Hb. destruct (body b a) as [b1 [a1|e]]; [|discriminate].
    destruct (for_blocks body bs a1) as [bs1 r] eqn:Hbs. intros [= <- ->].
    constructor; [exact Hb | by eapply IH].
Qed.

Lemma postproc_block_clears dofsol (b : Block CellData) acc :
  strain_loads (postproc_block dofsol b acc).1 = None.
Proof. unfold postproc_block. by destruct acc. Qed.


Lemma prepare_Ok model (s s1 : Structure CellData) NSTRE area :
  prepare model s = (Ok (NSTRE, area), s1) ->
  exists xmin xmax ymin ymax c ic ix iy fx1 fx2 fx3 im bs,
    bounds (points s) = Ok ((xmin, xmax), (ymin, ymax)) /\
    center (points s) = Ok c /\
    area = (xmax - xmin) * (ymax - ymin) /\
    model_dimension model = Some NSTRE /\
    index_of_closest (points s) c = Ok ic /\
    setitem_row_slice ic 3 (zeros2 (length (points s)) (NDOFN s)) = Ok fx1 /\
    index_of_closest (points s) (xmax, 0, 0) = Ok ix /\
    setitem_row_indices ix [1; 2]%nat fx1 = Ok fx2 /\
    index_of_closest (points s) (0, ymax, 0) = Ok iy /\
    setitem_row_indices iy [2]%nat fx2 = Ok fx3 /\
    link_opposite_sides (points s) [0; 1]%nat = Ok im /\
    for_blocks (strain_loads_block NSTRE) (blocks s) tt = (bs, Ok tt) /\
    s1 = {| NDOFN := NDOFN s; points := points s;
            pd_loads := Some (zeros3 (length (points s)) (NDOFN s) NSTRE);
            pd_fixity := Some fx3; pd_dofsol := pd_dofsol s; blocks := bs;
            constraints := constraints s ++ [{| imap := im |}] |}.
Proof.
  unfold prepare. intros Hp.
  apply M_bind_Ok in Hp as (self & s0 & [-> ->]%get_Ok & Hp).
  apply M_bind_Ok in Hp as ([[xmin xmax] [ymin ymax]] & s0 & [Hbounds ->]%lift_Ok & Hp).
  apply M_bind_Ok in Hp as (c & s0 & [Hcenter ->]%lift_Ok & Hp).
  apply M_bind_Ok in Hp as (NSTRE' & s0 & [HNSTRE ->]%lift_Ok & Hp).
  apply M_bind_Ok in Hp as ([] & s0 & ->%modify_Ok & Hp).
  apply M_bind_Ok in Hp as (ic & s0 & [Hic ->]%lift_Ok & Hp).
  apply M_bind_Ok in Hp as (fx1 & s0 & [Hfx1 ->]%lift_Ok & Hp).
  apply M_bind_Ok in Hp as (ix & s0 & [Hix ->]%lift_Ok & Hp).
  apply M_bind_Ok in Hp as (fx2 & s0 & [Hfx2 ->]%lift_Ok & Hp).
  apply M_bind_Ok in Hp as (iy & s0 & [Hiy ->]%lift_Ok & Hp).
  apply M_bind_Ok in Hp as (fx3 & s0 & [Hfx3 ->]%lift_Ok & Hp).
  apply M_bind_Ok in Hp as ([] & s0 & ->%modify_Ok & Hp).
  apply M_bind_Ok in Hp as (pc & s0 & [Hpc ->]%lift_Ok & Hp).
  apply M_bind_Ok in Hp as ([] & s0 & Hloop & Hp).
  apply M_bind_Ok in Hp as ([] & s2 & ->%modify_Ok & Hp).
  injection Hp as <- <- <-.
  unfold periodic_essential_ebc in Hpc. apply bind_Ok in Hpc as (im & Him & [= <-]).
  unfold for_blocks_M in Hloop. cbn in Hloop.
  destruct (for_blocks (strain_loads_block NSTRE') (blocks s) ()) as [bs r] eqn:Hbs.
  injection Hloop as -> <-.
  unfold read_local in HNSTRE.
  destruct (model_dimension model) as [n|] eqn:Hdim; [|discriminate].
  injection HNSTRE as ->.
  exists xmin, xmax, ymin, ymax, c, ic, ix, iy, fx1, fx2, fx3, im, bs.
  repeat (split; [done|]). reflexivity.
Qed.


Lemma solve_Ok (s s1 : Structure CellData) dofsol :
  solve s = (Ok dofsol, s1) ->
  linear_static_analysis s = Ok dofsol /\ s1 = set_pd_dofsol dofsol s.
Proof.
  unfold solve. intros Hs.
  apply M_bind_Ok in Hs as (self & s0 & [-> ->]%get_Ok & Hs).
  apply M_bind_Ok in Hs as (sol & s0 & [Hsol ->]%lift_Ok & Hs).
  apply M_bind_Ok in Hs as ([] & s0 & ->%modify_Ok & Hs).
  injection Hs as <- <-. done.
Qed.

(** A completed call went through the phases. *)
Lemma accumulate_Ok model (s s' : Structure CellData) NSTRE area hooke hooke_avg :
  accumulate model s = (Ok (NSTRE, area, (hooke, hooke_avg)), s') ->
  exists s1 dofsol bs,
    prepare model s = (Ok (NSTRE, area), s1) /\
    linear_static_analysis s1 = Ok dofsol /\
    for_blocks (postproc_block dofsol) (blocks s1) (zeros, zeros)
    = (bs, Ok (hooke, hooke_avg)) /\
    s' = set_blocks bs (set_pd_dofsol dofsol s1).
Proof.
  unfold accumulate. intros Hh.
  apply M_bind_Ok in Hh as ([NSTRE' area'] & s1 & Hprep & Hh).
  apply M_bind_Ok in Hh as (dofsol & s2 & [Hsol ->]%solve_Ok & Hh).
  apply M_bind_Ok in Hh as ([hooke' hooke_avg'] & s3 & Hloop & Hh).
  injection Hh as <- <- <- <- <-.
  unfold for_blocks_M in Hloop. cbn in Hloop.
  destruct (for_blocks (postproc_block dofsol) (blocks s1) (zeros, zeros))
    as [bs r] eqn:Hbs.
  injection Hloop as -> <-.
  exists s1, dofsol, bs. done.
Qed.

Lemma homogenize_Ok model (s s' : Structure CellData) R :
  homogenize model s = (Ok R, s') ->
  exists NSTRE area s1 dofsol bs hooke hooke_avg,
    prepare model s = (Ok (NSTRE, area), s1) /\
    linear_static_analysis s1 = Ok dofsol /\
    for_blocks (postproc_block dofsol) (blocks s1) (zeros, zeros)
    = (bs, Ok (hooke, hooke_avg)) /\
    R = combine NSTRE area hooke hooke_avg /\
    s' = set_blocks bs (set_pd_dofsol dofsol s1) /\
    accumulate model s = (Ok (NSTRE, area, (hooke, hooke_avg)), s').
Proof.
  unfold homogenize. intros Hh.
  apply M_bind_Ok in Hh as ([[NSTRE area] [hooke hooke_avg]] & s1 & Hacc & Hh).
  injection Hh as <- <-.
  destruct (accumulate_Ok _ _ _ _ _ _ _ Hacc) as (s0 & dofsol & bs & Hprep & Hsol & Hloop & Hs).
  exists NSTRE, area, s0, dofsol, bs, hooke, hooke_avg. done.
Qed.

(** The division by a zero area leaves no number; by another area it
    leaves, entry by entry, the difference of the two quotients, and in
    the shear block of the eight-component model 5/6 of the response. *)
Lemma combine_zero_area NSTRE (hooke hooke_avg : matrix) :
  combine NSTRE 0 hooke hooke_avg = nonfinite.
Proof. unfold combine, mdiv. by rewrite decide_True. Qed.

Lemma combine_entries NSTRE area (hooke hooke_avg : matrix) :
  area <> 0 ->
  exists R,
    combine NSTRE area hooke hooke_avg = finite R /\
    forall i j,
      R i j =
      if bool_decide (NSTRE = 8%nat) && in_shear_block i j
      then QcZ 5 / QcZ 6 * (hooke i j / area)
      else hooke_avg i j / area - hooke i j / area.
Proof.
  intros Harea. unfold combine, mdiv. rewrite !decide_False by exact Harea.
  eexists. split; [reflexivity|]. intros i j. unfold set_shear_block, msub.
  destruct (decide (NSTRE = 8%nat)) as [HN|HN].
  - rewrite (bool_decide_true _ HN). cbn.
    destruct (in_shear_block i j); [|reflexivity]. unfold Qcdiv. ring.
  - rewrite (bool_decide_false _ HN). reflexivity.
Qed.

(** One pass of the post-processing loop clears the strain loads of the
    block, feeds the response of the block into [hooke] and its weighted
    constitutive matrix into [hooke_avg]. *)
Lemma postproc_block_Ok dofsol (b b' : Block CellData) (h ha h' ha' : matrix) :
  postproc_block dofsol b (h, ha) = (b', Ok (h', ha')) ->
  b' = set_strain_loads None b /\
  stress_response_of dofsol b' h = Ok h' /\
  weighted_constitutive_of b' ha = Ok ha'.
Proof.
  unfold postproc_block, stress_response_of, weighted_constitutive_of.
  cbv beta iota zeta. intros [= <- Hr]. split; [reflexivity|].
  destruct (elastic_material_stiffness_matrix (set_strain_loads None b)) as [hb|e1];
    [|discriminate].
  destruct (quadrature_full (set_strain_loads None b)) as [gpw|e2]; [|discriminate].
  cbn in *.
  destruct (decide (NDIM b = 3%nat)).
  - destruct (_postproc_3d_gauss_stresses _ _ _ _) as [h1|e3]; [|by cbn in Hr].
    cbn [mbind result_bind] in Hr.
    destruct (_calc_avg_hooke_3d_to_shell _ _ _ _) as [ha1|e4]; [|by cbn in Hr].
    by injection Hr as <- <-.
  - destruct (decide (NDIM b = 2%nat)); [|discriminate].
    destruct (_postproc_shell_gauss_dynams _ _ _ _) as [h1|e5]; [|by cbn in Hr].
    cbn [mbind result_bind] in Hr.
    destruct (_calc_avg_hooke_shell _ _ _) as [ha1|e6]; [|by cbn in Hr].
    by injection Hr as <- <-.
Qed.

Lemma for_blocks_postproc dofsol (bs : list (Block CellData)) :
  forall (h ha : matrix) bs' (h' ha' : matrix),
    for_blocks (postproc_block dofsol) bs (h, ha) = (bs', Ok (h', ha')) ->
    bs' = set_strain_loads None <$> bs /\
    over_blocks (stress_response_of dofsol) bs' h = Ok h' /\
    over_blocks weighted_constitutive_of bs' ha = Ok ha'.
Proof.
  induction bs as [|b bs IH]; intros h ha bs' h' ha'; cbn [for_blocks].
  - intros [= <- <- <-]. done.
  - destruct (postproc_block dofsol b (h, ha)) as [b1 [[h1 ha1]|e]] eqn:Hb; [|discriminate].
    destruct (for_blocks (postproc_block dofsol) bs (h1, ha1)) as [bs1 r] eqn:Hbs.
    intros [= <- ->].
    apply postproc_block_Ok in Hb as (-> & Hh1 & Hha1).
    destruct (IH _ _ _ _ _ Hbs) as (-> & Hh & Hha).
    split; [reflexivity|]. cbn [over_blocks fmap list_fmap].
    rewrite Hh1, Hha1. cbn [mbind result_bind]. done.
Qed.

(** A completed call: the locals, the state handed to the solver, the
    solution, and the two accumulated arrays as the stress response and
    the weighted constitutive matrix of the blocks it leaves. *)
Lemma homogenize_completed model (s s' : Structure CellData) R :
  homogenize model s = (Ok R, s') ->
  exists NSTRE xmin xmax ymin ymax s1 dofsol hooke hooke_avg,
    model_dimension model = Some NSTRE /\
    bounds (points s) = Ok ((xmin, xmax), (ymin, ymax)) /\
    prepare model s = (Ok (NSTRE, (xmax - xmin) * (ymax - ymin)), s1) /\
    linear_static_analysis s1 = Ok dofsol /\
    blocks s' = set_strain_loads None <$> blocks s1 /\
    stress_response dofsol (blocks s') = Ok hooke /\
    weighted_constitutive (blocks s') = Ok hooke_avg /\
    pd_loads s' = Some (zeros3 (length (points s)) (NDOFN s) NSTRE) /\
    R = combine NSTRE ((xmax - xmin) * (ymax - ymin)) hooke hooke_avg.
Proof.
  intros Hh.
  apply homogenize_Ok in Hh
    as (NSTRE & area & s1 & dofsol & bs & hooke & hooke_avg & Hprep & Hsol & Hloop & -> & -> & _).
  pose proof Hprep as Hprep'.
  apply prepare_Ok in Hprep'
    as (xmin & xmax & ymin & ymax & c & ic & ix & iy & fx1 & fx2 & fx3 & im & bs0
        & Hbounds & _ & -> & Hdim & _ & _ & _ & _ & _ & _ & _ & _ & Hs1).
  apply for_blocks_postproc in Hloop as (-> & Hh & Hha).
  exists NSTRE, xmin, xmax, ymin, ymax, s1, dofsol, hooke, hooke_avg.
  repeat (split; [done|]). split; [|reflexivity].
  rewrite Hs1. reflexivity.
Qed.

(** C1 (as amended). A completed call of [homogenize] has computed the
    stress response of the solved cell and the weighted constitutive
    matrix of the blocks, both over the blocks as the call leaves them
    and from the solution of the structure that the set-up prepared, and
    the area of the bounding box of the points. For an area that is not
    zero it returns, entry by entry, the weighted constitutive matrix
    divided by the area minus the stress response divided by the area;
    for NSTRE = 8 the entries of rows and columns 6 and 7 are instead 5/6
    of the stress response divided by the area. For a zero area the
    returned array holds no number. *)
Theorem homogenize_result model (s s' : Structure CellData) R :
  homogenize model s = (Ok R, s') ->
  exists NSTRE xmin xmax ymin ymax s1 dofsol hooke hooke_avg,
    model_dimension model = Some NSTRE /\
    bounds (points s) = Ok ((xmin, xmax), (ymin, ymax)) /\
    prepare model s = (Ok (NSTRE, (xmax - xmin) * (ymax - ymin)), s1) /\
    linear_static_analysis s1 = Ok dofsol /\
    blocks s' = set_strain_loads None <$> blocks s1 /\
    stress_response dofsol (blocks s') = Ok hooke /\
    weighted_constitutive (blocks s') = Ok hooke_avg /\
    let area := (xmax - xmin) * (ymax - ymin) in
    (area = 0 -> R = nonfinite) /\
    (area <> 0 ->
     exists R', R = finite R' /\
       forall i j,
         R' i j =
         if bool_decide (NSTRE = 8%nat) && in_shear_block i j
         then QcZ 5 / QcZ 6 * (hooke i j / area)
         else hooke_avg i j / area - hooke i j / area).
Proof.
  intros Hh.
  apply homogenize_completed in Hh
    as (NSTRE & xmin & xmax & ymin & ymax & s1 & dofsol & hooke & hooke_avg
        & Hdim & Hbounds & Hprep & Hsol & Hbs & Hh & Hha & _ & ->).
  exists NSTRE, xmin, xmax, ymin, ymax, s1, dofsol, hooke, hooke_avg.
  repeat (split; [assumption|]). cbv zeta. split.
  - intros ->. apply combine_zero_area.
  - intros Harea. by apply combine_entries.
Qed.

(** C2 (as amended). In the structure handed to the solver, the fixity
    array flags exactly: the first three DOFs of the point nearest the
    centre of the points, DOFs 1 and 2 of the point nearest (xmax, 0, 0)
    and DOF 2 of the point nearest (0, ymax, 0); and the constraint built
    from the links of opposite sides along the axes 0 and 1 is the last
    of the constraints. *)
Theorem prepare_supports model (s s1 : Structure CellData) NSTRE area :
  prepare model s = (Ok (NSTRE, area), s1) ->
  exists xmin xmax ymin ymax c ic ix iy fx im,
    bounds (points s) = Ok ((xmin, xmax), (ymin, ymax)) /\
    center (points s) = Ok c /\
    index_of_closest (points s) c = Ok ic /\
    index_of_closest (points s) (xmax, 0, 0) = Ok ix /\
    index_of_closest (points s) (0, ymax, 0) = Ok iy /\
    pd_fixity s1 = Some fx /\
    (forall p d, (p < length (points s))%nat -> (d < NDOFN s)%nat ->
       fixed fx p d = true <->
       (p = ic /\ (d < 3)%nat) \/ (p = ix /\ (d = 1 \/ d = 2)%nat) \/ (p = iy /\ d = 2%nat)) /\
    link_opposite_sides (points s) [0; 1]%nat = Ok im /\
    constraints s1 = constraints s ++ [{| imap := im |}].
Proof.
  intros Hp.
  apply prepare_Ok in Hp
    as (xmin & xmax & ymin & ymax & c & ic & ix & iy & fx1 & fx2 & fx3 & im & bs
        & Hbounds & Hcenter & _ & _ & Hic & Hfx1 & Hix & Hfx2 & Hiy & Hfx3 & Him & _ & ->).
  exists xmin, xmax, ymin, ymax, c, ic, ix, iy, fx3, im.
  repeat (split; [done|]). split; [|done].
  intros p d Hp Hd.
  apply setitem_row_slice_spec in Hfx1 as (_ & _ & H1).
  apply setitem_row_indices_spec in Hfx2 as (_ & _ & H2).
  apply setitem_row_indices_spec in Hfx3 as (_ & _ & H3).
  rewrite H3, H2, H1, fixed_zeros2. cbn.
  assert (Hin : is_Some (zeros2 (length (points s)) (NDOFN s) !! p
                         ≫= fun row => row !! d)).
  { unfold zeros2. rewrite lookup_replicate_2 by exact Hp. cbn.
    rewrite lookup_replicate_2 by exact Hd. eauto. }
  rewrite (bool_decide_true _ Hin), andb_true_r.
  rewrite !orb_true_iff, !andb_true_iff, !bool_decide_eq_true.
  rewrite !elem_of_cons, !elem_of_nil. tauto.
Qed.



Lemma model_dimension_cases model :
  match model_dimension model with
  | Some NSTRE =>
      (lower model = "mr"%string /\ NSTRE = 8%nat) \/
      (lower model = "kl"%string /\ NSTRE = 6%nat)
  | None => lower model <> "mr"%string /\ lower model <> "kl"%string
  end.
Proof.
  unfold model_dimension.
  destruct (decide (lower model = "mr"%string)) as [Hmr|Hmr]; [by left|].
  destruct (decide (lower model = "kl"%string)) as [Hkl|Hkl]; [by right|]. done.
Qed.

(** The model name is compared in lower case: NSTRE is 8 when it reads
    "mr" and 6 when it reads "kl", and a completed call has set up the
    nodal loads with that many load cases; for a name that reads neither,
    no call returns a result. *)
Lemma homogenize_model_name model :
  (lower model = "mr"%string -> model_dimension model = Some 8%nat) /\
  (lower model = "kl"%string -> model_dimension model = Some 6%nat) /\
  (forall (s s' : Structure CellData) R,
     homogenize model s = (Ok R, s') ->
     exists NSTRE,
       model_dimension model = Some NSTRE /\
       pd_loads s' = Some (zeros3 (length (points s)) (NDOFN s) NSTRE)) /\
  (lower model <> "mr"%string -> lower model <> "kl"%string ->
   forall (s s' : Structure CellData) R, homogenize model s <> (Ok R, s')).
Proof.
  pose proof (model_dimension_cases model) as Hcases.
  split; [|split; [|split]].
  - intros Hmr. unfold model_dimension. by rewrite decide_True.
  - intros Hkl. unfold model_dimension.
    rewrite decide_False by (rewrite Hkl; discriminate). by rewrite decide_True.
  - intros s s' R Hh.
    apply homogenize_Ok in Hh
      as (NSTRE & area & s1 & dofsol & bs & hooke & hooke_avg & Hprep & _ & _ & _ & -> & _).
    apply prepare_Ok in Hprep
      as (xmin & xmax & ymin & ymax & c & ic & ix & iy & fx1 & fx2 & fx3 & im & bs0
          & _ & _ & _ & Hdim & _ & _ & _ & _ & _ & _ & _ & _ & ->).
    exists NSTRE. done.
  - intros Hmr Hkl s s' R Hh.
    apply homogenize_Ok in Hh
      as (NSTRE & area & s1 & dofsol & bs & hooke & hooke_avg & Hprep & _).
    apply prepare_Ok in Hprep
      as (xmin & xmax & ymin & ymax & c & ic & ix & iy & fx1 & fx2 & fx3 & im & bs0
          & _ & _ & _ & Hdim & _).
    rewrite Hdim in Hcases. destruct Hcases as [[? _]|[? _]]; contradiction.
Qed.

(** The two names of the documentation select 8 and 6 components. *)
Lemma model_dimension_MR_KL :
  model_dimension "MR" = Some 8%nat /\ model_dimension "KL" = Some 6%nat.
Proof.
  unfold model_dimension. rewrite !lower_of_ascii by reflexivity. cbn. done.
Qed.

(** C3. A model name whose lower-case form is neither "mr" nor "kl" is
    not refused where the name is tested: no branch binds NSTRE and none
    raises. The call goes on to the bounds and the centre of the points,
    and where these are found it raises [UnboundLocalError] at the
    allocation of the nodal loads, the first reading of NSTRE, with the
    structure as it was. *)
Theorem homogenize_unbound_NSTRE model (s : Structure CellData) b c :
  lower model <> "mr"%string -> lower model <> "kl"%string ->
  bounds (points s) = Ok b -> center (points s) = Ok c ->
  homogenize model s = (Raise UnboundLocalError, s).
Proof.
  intros Hmr Hkl Hb Hc.
  assert (Hdim : model_dimension model = None).
  { unfold model_dimension. by rewrite !decide_False. }
  destruct b as [[xmin xmax] [ymin ymax]].
  unfold homogenize, accumulate, prepare.
  unfold mbind, M_bind, get, lift. cbn.
  rewrite Hb, Hc, Hdim. reflexivity.
Qed.

(** A completed call keeps the points and appends one constraint. *)
Lemma homogenize_constraints model (s s' : Structure CellData) R :
  homogenize model s = (Ok R, s') ->
  points s' = points s /\
  exists im, link_opposite_sides (points s) [0; 1]%nat = Ok im /\
             constraints s' = constraints s ++ [{| imap := im |}].
Proof.
  intros Hh.
  apply homogenize_Ok in Hh
    as (NSTRE & area & s1 & dofsol & bs & hooke & hooke_avg & Hprep & _ & _ & _ & -> & _).
  apply prepare_Ok in Hprep
    as (xmin & xmax & ymin & ymax & c & ic & ix & iy & fx1 & fx2 & fx3 & im & bs0
        & _ & _ & _ & _ & _ & _ & _ & _ & _ & _ & Him & _ & ->).
  split; [reflexivity|]. exists im. done.
Qed.

(** *** The constraints over any call, completed or not *)

Lemma keeps_bind {A B} (m : M A) (f : A -> M B) :
  keeps_constraints (CellData:=CellData) m -> (forall a, keeps_constraints (CellData:=CellData) (f a)) ->
  keeps_constraints (CellData:=CellData) (m ≫= f).
Proof.
  intros Hm Hf s s' r. unfold mbind, M_bind.
  destruct (m s) as [[a|e] s1] eqn:Hms.
  - intros Hfa. rewrite (Hf a _ _ _ Hfa). eapply Hm, Hms.
  - intros [= <- <-]. eapply Hm, Hms.
Qed.

Lemma keeps_lift {A} (r : result A) : keeps_constraints (CellData:=CellData) (lift r).
Proof. by intros s s' r' [= _ <-]. Qed.

Lemma keeps_get : keeps_constraints (CellData:=CellData) get.
Proof. by intros s s' r' [= _ <-]. Qed.

Lemma keeps_mret {A} (a : A) : keeps_constraints (CellData:=CellData) (mret a : M A).
Proof. by intros s s' r' [= _ <-]. Qed.

Lemma keeps_modify (f : Structure CellData -> Structure CellData) :
  (forall s, constraints (f s) = constraints s) -> keeps_constraints (CellData:=CellData) (modify f).
Proof. intros Hf s s' r' [= _ <-]. apply Hf. Qed.

Lemma keeps_for_blocks_M {A}
    (body : Block CellData -> A -> Block CellData * result A) a :
  keeps_constraints (CellData:=CellData) (for_blocks_M body a).
Proof.
  intros s s' r. unfold for_blocks_M.
  destruct (for_blocks body (blocks s) a) as [bs r']. by intros [= _ <-].
Qed.

Lemma appends_bind_l {A B} (m : M A) (f : A -> M B) :
  keeps_constraints (CellData:=CellData) m -> (forall a, appends_at_most_one (CellData:=CellData) (f a)) ->
  appends_at_most_one (CellData:=CellData) (m ≫= f).
Proof.
  intros Hm Hf s s' r. unfold mbind, M_bind.
  destruct (m s) as [[a|e] s1] eqn:Hms.
  - intros Hfa. rewrite <- (Hm _ _ _ Hms). eapply Hf, Hfa.
  - intros [= <- <-]. exists []. rewrite app_nil_r, (Hm _ _ _ Hms). split; [done|cbn; lia].
Qed.

Lemma appends_bind_r {A B} (m : M A) (f : A -> M B) :
  appends_at_most_one (CellData:=CellData) m -> (forall a, keeps_constraints (CellData:=CellData) (f a)) ->
  appends_at_most_one (CellData:=CellData) (m ≫= f).
Proof.
  intros Hm Hf s s' r. unfold mbind, M_bind.
  destruct (m s) as [[a|e] s1] eqn:Hms.
  - intros Hfa. rewrite (Hf a _ _ _ Hfa). eapply Hm, Hms.
  - intros [= <- <-]. eapply Hm, Hms.
Qed.

Lemma appends_append c : appends_at_most_one (CellData:=CellData) (modify (append_constraint c)).
Proof. intros s s' r [= _ <-]. exists [c]. split; [done|cbn; lia]. Qed.

Ltac keeps :=
  repeat first
    [ apply keeps_lift | apply keeps_get | apply keeps_mret
    | apply keeps_for_blocks_M
    | apply keeps_modify; intros; reflexivity
    | apply keeps_bind; [|intros ?] ].

Lemma prepare_appends model : appends_at_most_one (CellData:=CellData) (prepare model).
Proof.
  unfold prepare.
  apply appends_bind_l; [keeps|intros self].
  apply appends_bind_l; [keeps|intros [[xmin xmax] [ymin ymax]]].
  do 12 (apply appends_bind_l; [keeps|intros ?]).
  apply appends_bind_r; [apply appends_append | intros ?; keeps].
Qed.

(** No call removes a constraint, and none appends more than one. *)
Lemma homogenize_appends model :
  appends_at_most_one (CellData:=CellData) (homogenize model).
Proof.
  unfold homogenize, accumulate.
  apply appends_bind_r; [|intros [[NSTRE area] [hooke hooke_avg]]; keeps].
  apply appends_bind_r; [apply prepare_appends|intros [NSTRE area]].
  unfold solve. keeps.
Qed.

(** C10 (as amended). [n] completed calls in a row leave the constraints
    that were there, followed by [n] new ones, each built from the links
    of opposite sides along the axes 0 and 1. *)
Theorem homogenize_times_constraints n model (s s' : Structure CellData) Rs :
  homogenize_times n model s = (Ok Rs, s') ->
  exists cs,
    length cs = n /\
    Forall (fun c => link_opposite_sides (points s) [0; 1]%nat = Ok (imap c)) cs /\
    constraints s' = constraints s ++ cs.
Proof.
  revert s Rs. induction n as [|n IH]; intros s Rs; cbn.
  - intros [= <- <-]. exists []. rewrite app_nil_r. done.
  - intros Hh.
    apply M_bind_Ok in Hh as (R & s1 & Hfirst & Hh).
    apply M_bind_Ok in Hh as (Rs' & s2 & Hrest & Hh).
    injection Hh as <- <-.
    apply homogenize_constraints in Hfirst as (Hpts & im & Him & Hcs).
    apply IH in Hrest as (cs & Hlen & Hall & Hcs').
    exists ({| imap := im |} :: cs). split; [cbn; by rewrite Hlen|]. split.
    + constructor; [exact Him|]. by rewrite <- Hpts.
    + rewrite Hcs', Hcs, <- app_assoc. reflexivity.
Qed.

End HomogenizeFacts.

Section HomogenizeExamples.
Import Homg.

(** A run that is known to return cannot have raised. *)
Ltac absurd_raise E :=
  exfalso;
  lazymatch type of E with
  | ?run = (Raise _, _) =>
      let H := fresh in
      assert (H : returns run.1 = true) by (vm_compute; reflexivity);
      rewrite E in H; discriminate H
  end.

(** The square cell of side 2 (area 4) with one plate block: the
    constitutive matrix is 10 on the diagonal, the integrated response 24
    on the diagonal. *)
Lemma homogenize_result_witness :
  exists R s',
    homogenize "MR" Demo.cell = (Ok R, s') /\
    exists NSTRE xmin xmax ymin ymax s1 dofsol hooke hooke_avg,
      model_dimension "MR" = Some NSTRE /\
      bounds (points Demo.cell) = Ok ((xmin, xmax), (ymin, ymax)) /\
      prepare "MR" Demo.cell = (Ok (NSTRE, (xmax - xmin) * (ymax - ymin)), s1) /\
      linear_static_analysis s1 = Ok dofsol /\
      blocks s' = set_strain_loads None <$> blocks s1 /\
      stress_response dofsol (blocks s') = Ok hooke /\
      weighted_constitutive (blocks s') = Ok hooke_avg /\
      let area := (xmax - xmin) * (ymax - ymin) in
      (area = 0 -> R = nonfinite) /\
      (area <> 0 ->
       exists R', R = finite R' /\
         forall i j,
           R' i j =
           if bool_decide (NSTRE = 8%nat) && in_shear_block i j
           then QcZ 5 / QcZ 6 * (hooke i j / area)
           else hooke_avg i j / area - hooke i j / area).
Proof.
  destruct (homogenize "MR" Demo.cell) as [[R|e] s'] eqn:E.
  - exists R, s'. split; [exact eq_refl|]. exact (homogenize_result "MR" Demo.cell s' R E).
  - absurd_raise E.
Defined.

(** C1, as stated, fails on that cell: the response accumulated over the
    blocks is 24 at (6, 6), so 5/6 of it is 20, and the call returns 5 at
    (6, 6), which is 5/6 of the response divided by the area 4. *)
Lemma homogenize_shear_block_counterexample :
  exists R s' hooke hooke_avg,
    homogenize "MR" Demo.cell = (Ok (finite R), s') /\
    accumulate "MR" Demo.cell = (Ok (8%nat, QcZ 4, (hooke, hooke_avg)), s') /\
    hooke 6%nat 6%nat = QcZ 24 /\
    QcZ 5 / QcZ 6 * hooke 6%nat 6%nat = QcZ 20 /\
    R 6%nat 6%nat = QcZ 5.
Proof.
  destruct (homogenize "MR" Demo.cell) as [[R|e] s'] eqn:E; [|absurd_raise E].
  destruct (homogenize_Ok _ _ _ _ E)
    as (NSTRE & area & s1 & dofsol & bs & hooke & hooke_avg & _ & _ & _ & _ & _ & Hacc).
  assert (HR : result_entry (homogenize "MR" Demo.cell).1 6 6 = Some (QcZ 5))
    by by_evaluation.
  assert (HA : accumulated_entry (accumulate "MR" Demo.cell).1 6 6
               = Some (8%nat, QcZ 4, QcZ 24, QcZ 40)) by by_evaluation.
  rewrite E in HR. rewrite Hacc in HA. cbn in HR, HA.
  destruct R as [R|]; [|discriminate HR].
  injection HR as HR. injection HA as -> -> Hh _.
  exists R, s', hooke, hooke_avg.
  split; [exact eq_refl|]. split; [exact Hacc|]. split; [exact Hh|].
  split; [|exact HR]. rewrite Hh. by_evaluation.
Qed.

(** A cell whose points lie on one line has a bounding box of area zero;
    the two divisions leave no number in the returned array. *)
Lemma homogenize_zero_area :
  (homogenize "MR" Demo.flat_cell).1 = Ok nonfinite.
Proof.
  assert (H : no_number (homogenize "MR" Demo.flat_cell).1 = true)
    by (vm_compute; reflexivity).
  destruct (homogenize "MR" Demo.flat_cell).1 as [[R|]|e]; [discriminate H|reflexivity|discriminate H].
Qed.

Lemma prepare_supports_witness :
  exists NSTRE area s1,
    prepare "MR" Demo.cell = (Ok (NSTRE, area), s1) /\
    exists xmin xmax ymin ymax c ic ix iy fx im,
      bounds (points Demo.cell) = Ok ((xmin, xmax), (ymin, ymax)) /\
      center (points Demo.cell) = Ok c /\
      index_of_closest (points Demo.cell) c = Ok ic /\
      index_of_closest (points Demo.cell) (xmax, 0, 0) = Ok ix /\
      index_of_closest (points Demo.cell) (0, ymax, 0) = Ok iy /\
      pd_fixity s1 = Some fx /\
      (forall p d, (p < length (points Demo.cell))%nat -> (d < NDOFN Demo.cell)%nat ->
         fixed fx p d = true <->
         (p = ic /\ (d < 3)%nat) \/ (p = ix /\ (d = 1 \/ d = 2)%nat)
         \/ (p = iy /\ d = 2%nat)) /\
      link_opposite_sides (points Demo.cell) [0; 1]%nat = Ok im /\
      constraints s1 = constraints Demo.cell ++ [{| imap := im |}].
Proof.
  destruct (prepare "MR" Demo.cell) as [[[NSTRE area]|e] s1] eqn:E.
  - exists NSTRE, area, s1. split; [exact eq_refl|].
    exact (prepare_supports "MR" Demo.cell s1 NSTRE area E).
  - absurd_raise E.
Defined.

(** C2, as stated, fails on that cell, whose nodes have six DOFs: point 4
    is the one nearest the centre and its DOFs 3, 4 and 5 stay free, and
    point 5, the one nearest (xmax, 0, 0) = (1, 0, 0), gets two DOFs
    fixed, not one. *)
Lemma prepare_supports_counterexample :
  NDOFN Demo.cell = 6%nat /\
  (c ← center (points Demo.cell); index_of_closest (points Demo.cell) c) = Ok 4%nat /\
  index_of_closest (points Demo.cell) (QcZ 1, 0, 0) = Ok 5%nat /\
  index_of_closest (points Demo.cell) (0, QcZ 1, 0) = Ok 7%nat /\
  exists NSTRE area s1,
    prepare "MR" Demo.cell = (Ok (NSTRE, area), s1) /\
    pd_fixity s1 =
    Some [ [false; false; false; false; false; false];
           [false; false; false; false; false; false];
           [false; false; false; false; false; false];
           [false; false; false; false; false; false];
           [true; true; true; false; false; false];
           [false; true; true; false; false; false];
           [false; false; false; false; false; false];
           [false; false; true; false; false; false];
           [false; false; false; false; false; false] ].
Proof.
  do 4 (split; [vm_compute; reflexivity|]).
  destruct (prepare "MR" Demo.cell) as [[[NSTRE area]|e] s1] eqn:E; [|absurd_raise E].
  exists NSTRE, area, s1. split; [exact eq_refl|].
  change s1 with (Ok (NSTRE, area), s1).2. rewrite <- E. vm_compute. reflexivity.
Qed.

Lemma homogenize_unbound_NSTRE_witness :
  lower "3D" <> "mr"%string /\ lower "3D" <> "kl"%string /\
  bounds (points Demo.cell) = Ok ((- QcZ 1, QcZ 1), (- QcZ 1, QcZ 1)) /\
  center (points Demo.cell) = Ok (0, 0, 0) /\
  homogenize "3D" Demo.cell = (Raise UnboundLocalError, Demo.cell).
Proof.
  assert (Hmr : lower "3D" <> "mr"%string) by discriminate.
  assert (Hkl : lower "3D" <> "kl"%string) by discriminate.
  assert (Hb : bounds (points Demo.cell) = Ok ((- QcZ 1, QcZ 1), (- QcZ 1, QcZ 1)))
    by by_evaluation.
  assert (Hc : center (points Demo.cell) = Ok (0, 0, 0)) by by_evaluation.
  split; [exact Hmr|]. split; [exact Hkl|]. split; [exact Hb|]. split; [exact Hc|].
  exact (homogenize_unbound_NSTRE "3D" Demo.cell _ _ Hmr Hkl Hb Hc).
Defined.

(** The names are compared in lower case: "mr" is neither "MR" nor "KL",
    and the call completes, with eight load cases. *)
Lemma homogenize_accepts_lower_case :
  "mr"%string <> "MR"%string /\ "mr"%string <> "KL"%string /\
  exists R s',
    homogenize "mr" Demo.cell = (Ok R, s') /\
    pd_loads s' = Some (zeros3 9 6 8).
Proof.
  split; [discriminate|]. split; [discriminate|].
  destruct (homogenize "mr" Demo.cell) as [[R|e] s'] eqn:E; [|absurd_raise E].
  exists R, s'. split; [exact eq_refl|].
  change s' with (Ok R, s').2. rewrite <- E. vm_compute. reflexivity.
Qed.

(** Where the lower-case form of a name that is not ASCII is "kl", as
    Python gives it for the Kelvin sign followed by "L", the name selects
    six components. *)
Lemma model_dimension_kelvin_sign :
  Homg.is_ascii Demo.kelvin_L = false /\
  model_dimension Demo.kelvin_L = Some 6%nat.
Proof. split; vm_compute; reflexivity. Qed.

(** For a name that is not supported, the exception is the one of
    reading the unbound local [NSTRE], raised where the nodal loads are
    allocated: the loads of the structure are not set yet, and on a
    structure without points the bounds raise first. *)
Lemma homogenize_unknown_model :
  (homogenize "3D" Demo.cell).1 = Raise UnboundLocalError /\
  pd_loads (homogenize "3D" Demo.cell).2 = None /\
  (homogenize "3D" {| NDOFN := 6; points := []; pd_loads := None; pd_fixity := None;
                      pd_dofsol := None; blocks := [Demo.plate_block];
                      constraints := [] |}).1 = Raise ValueError.
Proof. repeat split; vm_compute; reflexivity. Qed.


Lemma homogenize_times_constraints_witness :
  exists Rs s',
    homogenize_times 3 "MR" Demo.cell = (Ok Rs, s') /\
    exists cs,
      length cs = 3%nat /\
      Forall (fun c => link_opposite_sides (points Demo.cell) [0; 1]%nat = Ok (imap c)) cs /\
      constraints s' = constraints Demo.cell ++ cs.
Proof.
  destruct (homogenize_times 3 "MR" Demo.cell) as [[Rs|e] s'] eqn:E.
  - exists Rs, s'. split; [exact eq_refl|].
    exact (homogenize_times_constraints 3 "MR" Demo.cell s' Rs E).
  - absurd_raise E.
Defined.

(** C10, as stated, fails on a call that raises before the solve: the
    call with the name "3D" appends nothing to the constraints. *)
Lemma homogenize_failed_call_appends_nothing :
  (homogenize "3D" Demo.cell).1 = Raise UnboundLocalError /\
  constraints (homogenize "3D" Demo.cell).2 = constraints Demo.cell.
Proof. split; vm_compute; reflexivity. Qed.

End HomogenizeExamples.

(** * Further properties *)

(** ** Material strains of Mindlin plates *)

Section MindlinMore.
Import Mindlin.

Lemma mapM_Forall_is_Ok {A B} (f : A -> result B) (l : list A) :
  Forall (fun x => is_Ok (f x)) l -> is_Ok (mapM f l).
Proof.
  induction 1 as [|x l [y Hy] _ [k Hk]]; [by exists []|].
  exists (y :: k). apply mapM_Ok. constructor; [exact Hy | by apply mapM_Ok].
Qed.

Lemma all_finite_inv {A} (l : list (floats A)) (k : list A) :
  all_finite l = finite k -> l = finite <$> k.
Proof.
  revert k. induction l as [|x l IH]; intros k; cbn.
  - by intros [= <-].
  - destruct x as [a|]; [|discriminate].
    destruct (all_finite l) as [k'|]; [|discriminate].
    intros [= <-]. cbn. by rewrite (IH k').
Qed.

(** X1: The plate routine on a well-formed batch: the result has the
    elements and the points of the batch, [_NHOOKE_] components at every
    point, of which the first three are the model strains times [z] and
    the last two the model strains times [(5/4)(1 - 4 (z/t)^2)]. *)
Theorem material_strains_mindlin_plate_components (model_strains : array3) z
    (t : list scalar) :
  length t = length model_strains ->
  Forall (fun ti => ti <> 0) t ->
  Forall (Forall (fun row => length row = plate_NSTRE)) model_strains ->
  exists res,
    material_strains_mindlin_plate model_strains z t = Ok (finite res) /\
    length res = length model_strains /\
    forall i e ti,
      model_strains !! i = Some e -> t !! i = Some ti ->
      exists r,
        res !! i = Some r /\ length r = length e /\
        forall p row, e !! p = Some row ->
          exists out,
            r !! p = Some out /\ length out = _NHOOKE_ /\
            take 3 out = (fun m => m * z) <$> take 3 row /\
            drop 3 out =
              (fun m => QcZ 5 / QcZ 4 * (1 - QcZ 4 * (z / ti) ^ 2) * m) <$> drop 3 row.
Proof.
  intros Ht Hnz Hshape.
  destruct (material_strains_mindlin_plate_spec model_strains z t Ht Hnz Hshape)
    as (res & Hres & Hall).
  exists res. split; [exact Hres|].
  unfold material_strains_mindlin_plate, material_strains in Hres.
  apply bind_Ok in Hres as (res0 & Hres0 & Hres).
  apply bind_Ok in Hres as (elements & Hres & [= Hfin]).
  apply all_finite_inv in Hfin as ->.
  pose proof (mapM_Ok_length _ _ _ Hres0) as Hlen0.
  pose proof (mapM_Ok_length _ _ _ Hres) as Hlen.
  rewrite length_fmap, length_zip, length_seq, length_zip, Hlen0 in Hlen.
  split; [lia|].
  intros i e ti He Hti.
  destruct (mapM_Ok_lookup _ _ _ _ _ Hres0 He) as (r0 & Hr0 & Hre0).
  assert (Hzip : zip (seq 0 (length model_strains)) (zip res0 model_strains) !! i
                 = Some (i, (r0, e))).
  { apply lookup_zip_with_Some. exists i, (r0, e). split; [reflexivity|]. split.
    - apply lookup_seq. split; [reflexivity|]. by eapply lookup_lt_Some.
    - apply lookup_zip_with_Some. eauto. }
  destruct (mapM_Ok_lookup _ _ _ _ _ Hres Hzip) as (y & Hy & Hrun).
  rewrite list_lookup_fmap in Hy.
  destruct (res !! i) as [r|] eqn:Hr; [|discriminate]. injection Hy as <-.
  exists r. split; [reflexivity|].
  cbn in Hrun. apply bind_Ok in Hrun as (ti' & Hti' & Hrun).
  unfold getitem in Hti'. rewrite Hti in Hti'. injection Hti' as <-.
  unfold shear_factor in Hrun.
  rewrite decide_False in Hrun by (eapply (proj1 (Forall_lookup _ _) Hnz); eauto).
  apply bind_Ok in Hrun as (rows & Hrun & [= ->]).
  pose proof (mapM_Ok_length _ _ _ Hrun) as Hlenr.
  pose proof (mapM_Ok_length _ _ _ Hre0) as Hlenr0.
  rewrite length_zip, Hlenr0 in Hlenr.
  split; [lia|].
  intros p row Hrow.
  destruct (Hall i p e row ti He Hrow Hti) as (out & Hout & Htake & Hdrop).
  rewrite Hr in Hout. cbn in Hout.
  exists out. split; [exact Hout|]. split; [|by split].
  pose proof (Forall_Forall_lookup _ _ _ _ _ _ Hshape He Hrow) as Hlenrow.
  rewrite <- (take_drop 3 out), length_app, Htake, Hdrop, !length_fmap,
    length_take, length_drop, Hlenrow.
  reflexivity.
Qed.

Lemma material_strains_mindlin_plate_components_witness :
  let model_strains := [[QcZ <$> [1; 2; 3; 4; 5]%Z; QcZ <$> [0; 1; 0; 1; 0]%Z]] in
  let z := QcZ 2 in
  let t := [QcZ 8] in
  exists res,
    material_strains_mindlin_plate model_strains z t = Ok (finite res) /\
    length res = length model_strains /\
    forall i e ti,
      model_strains !! i = Some e -> t !! i = Some ti ->
      exists r,
        res !! i = Some r /\ length r = length e /\
        forall p row, e !! p = Some row ->
          exists out,
            r !! p = Some out /\ length out = _NHOOKE_ /\
            take 3 out = (fun m => m * z) <$> take 3 row /\
            drop 3 out =
              (fun m => QcZ 5 / QcZ 4 * (1 - QcZ 4 * (z / ti) ^ 2) * m) <$> drop 3 row.
Proof.
  intros model_strains z t.
  apply (material_strains_mindlin_plate_components model_strains z t).
  - reflexivity.
  - repeat constructor. by_evaluation.
  - repeat constructor.
Defined.

(** X2: A thickness of zero raises nothing: for a well-formed batch of
    plate strains in which an element with at least one point has
    thickness zero, the routine returns, and the array it returns is not
    made of numbers only (the shear factor of that element is [inf] or
    [nan], and so are the transverse-shear strains of its points). *)
Theorem material_strains_mindlin_plate_zero_thickness (model_strains : array3) z
    (t : list scalar) (i : nat) (e : list (list scalar)) :
  length t = length model_strains ->
  Forall (Forall (fun row => length row = plate_NSTRE)) model_strains ->
  t !! i = Some 0 -> model_strains !! i = Some e -> e <> [] ->
  material_strains_mindlin_plate model_strains z t = Ok nonfinite.
Proof.
  intros Ht Hshape Hzero He Hne.
  set (head_of row := (fun m => m * z) <$> take 3 row).
  set (res := fmap (M:=list) head_of <$> model_strains).
  assert (Hres : mapM (mapM (inplane_row z)) model_strains = Ok res).
  { apply mapM_Ok. subst res. apply Forall2_fmap_r, Forall_Forall2_diag.
    eapply Forall_impl; [exact Hshape|]. intros e' He'. cbn.
    apply mapM_Ok, Forall2_fmap_r, Forall_Forall2_diag.
    eapply Forall_impl; [exact He'|]. intros row Hrow. cbn.
    apply inplane_row_plate. rewrite Hrow. unfold plate_NSTRE. lia. }
  assert (Hrows : forall k (e' : list (list scalar)),
            Forall (fun row => length row = plate_NSTRE) e' ->
            mapM (fun '(head, row) => shear_row k head row) (zip (head_of <$> e') e')
            = Ok ((fun row => head_of row ++ ((fun m => k * m) <$> drop 3 row)) <$> e')).
  { intros k e' He'. apply mapM_Ok, Forall2_same_length_lookup_2.
    - rewrite length_zip_with, !length_fmap. lia.
    - intros p [head row] y Hz Hy.
      apply lookup_zip_with_Some in Hz as (h' & row' & [= <- <-] & Hh & Hrow).
      rewrite list_lookup_fmap, Hrow in Hh, Hy. cbn in Hh, Hy.
      injection Hh as <-. injection Hy as <-.
      apply shear_row_plate. eapply (proj1 (Forall_lookup _ _) He'); eauto. }
  assert (Hall : is_Ok (mapM (shear_element z t)
            (zip (seq 0 (length model_strains)) (zip res model_strains)))).
  { apply mapM_Forall_is_Ok, Forall_lookup. intros j [j' [r e']] Hzip.
    apply lookup_zip_with_Some in Hzip as (j'' & re & [= <- <-] & Hj & Hre).
    apply lookup_zip_with_Some in Hre as (r' & e'' & [= <- <-] & Hr & He').
    apply lookup_seq in Hj as [-> Hj]. cbn in Hj |- *.
    subst res. rewrite list_lookup_fmap, He' in Hr. cbn in Hr. injection Hr as <-.
    destruct (lookup_lt_is_Some_2 t j) as [tj Htj]; [lia|].
    unfold getitem. rewrite Htj. cbn.
    assert (He'' : Forall (fun row => length row = plate_NSTRE) e')
      by (eapply (proj1 (Forall_lookup _ _) Hshape); eauto).
    destruct (shear_factor z tj) as [k|]; rewrite Hrows by exact He''; by eexists. }
  destruct Hall as [elements Hel].
  assert (Hzip : zip (seq 0 (length model_strains)) (zip res model_strains) !! i
                 = Some (i, (head_of <$> e, e))).
  { apply lookup_zip_with_Some. exists i, (head_of <$> e, e). split; [reflexivity|]. split.
    - apply lookup_seq. split; [reflexivity|]. by eapply lookup_lt_Some.
    - apply lookup_zip_with_Some. exists (head_of <$> e), e.
      split; [reflexivity|]. split; [|exact He].
      subst res. by rewrite list_lookup_fmap, He. }
  destruct (mapM_Ok_lookup _ _ _ _ _ Hel Hzip) as (y & Hy & Hrun).
  cbn in Hrun. unfold getitem in Hrun. rewrite Hzero in Hrun. cbn in Hrun.
  unfold shear_factor in Hrun. rewrite decide_True in Hrun by reflexivity.
  rewrite Hrows in Hrun by (eapply (proj1 (Forall_lookup _ _) Hshape); eauto).
  cbn in Hrun. destruct e as [|row e]; [done|]. cbn in Hrun. injection Hrun as <-.
  unfold material_strains_mindlin_plate, material_strains.
  rewrite Hres. cbn. rewrite Hel. cbn. f_equal.
  apply all_finite_nonfinite. by eapply list_elem_of_lookup_2.
Qed.

Lemma material_strains_mindlin_plate_zero_thickness_witness :
  material_strains_mindlin_plate
    [[QcZ <$> [1; 2; 3; 4; 5]%Z]; [QcZ <$> [0; 1; 0; 1; 0]%Z]] (QcZ 2) [QcZ 8; 0]
  = Ok nonfinite.
Proof.
  apply (material_strains_mindlin_plate_zero_thickness
           [[QcZ <$> [1; 2; 3; 4; 5]%Z]; [QcZ <$> [0; 1; 0; 1; 0]%Z]] (QcZ 2) [QcZ 8; 0]
           1 [QcZ <$> [0; 1; 0; 1; 0]%Z]).
  - reflexivity.
  - repeat constructor.
  - reflexivity.
  - reflexivity.
  - discriminate.
Defined.

End MindlinMore.

(** ** Global assembly, further *)

Section AssemblyMore.
Import Mesh.
Context {Cell : Type} `{!Kernels Cell}.

(** X11: Whatever the two flags of [elastic_stiffness_matrix_coo] are, a mesh
    with at least one block gets a matrix that equals the sum of the
    blocks' contributions at every key; with [sum_duplicates] set no key
    is stored twice. *)
Theorem elastic_stiffness_matrix_coo_any_flags (self : FemMesh Cell) (Ks : list coo)
    (eliminate_zeros_ sum_duplicates_ : bool) :
  cellblocks self <> [] ->
  mapM celldata_elastic_stiffness_matrix_coo (cellblocks self) = Ok Ks ->
  exists K,
    elastic_stiffness_matrix_coo self eliminate_zeros_ sum_duplicates_ = Ok K /\
    (forall k, entry K k = blocks_sum Ks k) /\
    (sum_duplicates_ = true -> NoDup (keys K)).
Proof.
  intros Hne Hm.
  destruct Ks as [|A Ks].
  { apply mapM_Ok_length in Hm. destruct (cellblocks self); [done | discriminate]. }
  unfold elastic_stiffness_matrix_coo. rewrite Hm. cbn.
  eexists. split; [reflexivity|]. split.
  - intros k.
    destruct sum_duplicates_, eliminate_zeros_;
      rewrite ?entry_sum_duplicates, ?entry_eliminate_zeros, entry_foldl_coo_add;
      reflexivity.
  - intros ->. apply NoDup_keys_sum_duplicates.
Qed.


Lemma mapM_insert_Ok {A B} (f : A -> result B) (l1 l2 : list A) x y :
  f x = Ok y ->
  match mapM f (l1 ++ l2) with
  | Ok m => exists m1 m2, m = m1 ++ m2 /\ mapM f (l1 ++ x :: l2) = Ok (m1 ++ y :: m2)
  | Raise _ => exists e, mapM f (l1 ++ x :: l2) = Raise e
  end.
Proof.
  intros Hx. induction l1 as [|a l1 IH]; cbn.
  - rewrite Hx. cbn. destruct (mapM f l2) as [m|e]; cbn.
    + by exists [], m.
    + by exists e.
  - destruct (f a) as [b|e]; cbn; [|by exists e].
    destruct (mapM f (l1 ++ l2)) as [m|e]; cbn.
    + destruct IH as (m1 & m2 & -> & ->). cbn. by exists (b :: m1), m2.
    + destruct IH as (e' & ->). cbn. by exists e'.
Qed.

Lemma add_block_loads_insert_None (foo : Cell -> result (option loadvec))
    (l1 l2 : list Cell) b res :
  foo b = Ok None ->
  add_block_loads foo (l1 ++ b :: l2) res = add_block_loads foo (l1 ++ l2) res.
Proof.
  intros Hb. pose proof (mapM_insert_Ok foo l1 l2 b None Hb) as Hm.
  unfold add_block_loads.
  destruct (mapM foo (l1 ++ l2)) as [m|e].
  - destruct Hm as (m1 & m2 & -> & ->). cbn. unfold not_None.
    by rewrite !omap_app.
  - destruct Hm as (e' & ->). reflexivity.
Qed.

(** X12: A block that has neither body loads nor strain loads is of no
    consequence for the load vector, wherever it stands among the blocks. *)
Theorem load_vector_block_without_loads (pd : PointData) (l1 l2 : list Cell) b :
  celldata_body_load_vector b = Ok None ->
  celldata_strain_load_vector b = Ok None ->
  load_vector {| root_pointdata := pd; cellblocks := l1 ++ b :: l2 |}
  = load_vector {| root_pointdata := pd; cellblocks := l1 ++ l2 |}.
Proof.
  intros Hbody Hstrain. unfold load_vector. cbn.
  destruct (getattr (loads pd)) as [nodal|e]; cbn; [|reflexivity].
  destruct (fem_load_vector nodal) as [res|e]; cbn; [|reflexivity].
  by rewrite !add_block_loads_insert_None.
Qed.


End AssemblyMore.

Section AssemblyMoreExamples.
Import Mesh.

Lemma elastic_stiffness_matrix_coo_any_flags_witness :
  let self := Demo.cancelling_mesh in
  let Ks := [[Demo.triplet 0 0 1; Demo.triplet 0 0 (- (1))]] in
  cellblocks self <> [] /\
  mapM celldata_elastic_stiffness_matrix_coo (cellblocks self) = Ok Ks /\
  exists K,
    elastic_stiffness_matrix_coo self false true = Ok K /\
    (forall k, entry K k = blocks_sum Ks k) /\
    (true = true -> NoDup (keys K)).
Proof.
  intros self Ks. split; [discriminate|]. split; [reflexivity|].
  apply (elastic_stiffness_matrix_coo_any_flags self Ks false true);
    [discriminate | reflexivity].
Defined.


Lemma load_vector_block_without_loads_witness :
  let b := {| Demo.stiffness := Ok []; Demo.body_load := Ok None;
              Demo.strain_load := Ok None |} in
  let pd := root_pointdata (Demo.two_blocks (Ok None)) in
  let l := cellblocks (Demo.two_blocks (Ok None)) in
  celldata_body_load_vector b = Ok None /\
  celldata_strain_load_vector b = Ok None /\
  load_vector {| root_pointdata := pd; cellblocks := take 1 l ++ b :: drop 1 l |}
  = load_vector {| root_pointdata := pd; cellblocks := take 1 l ++ drop 1 l |}.
Proof.
  intros b pd l. split; [reflexivity|]. split; [reflexivity|].
  exact (load_vector_block_without_loads pd (take 1 l) (drop 1 l) b eq_refl eq_refl).
Defined.


End AssemblyMoreExamples.

(** ** Homogenization, further *)

Section HomogenizeMore.
Import Homg.
Context {CellData : Type} `{!Externals CellData} `{!Python}.

Lemma M_bind_run {A B} (m : M A) (f : A -> M B) (s s1 : Structure CellData) a :
  m s = (Ok a, s1) -> (m ≫= f) s = f a s1.
Proof. intros Hm. unfold mbind, M_bind. by rewrite Hm. Qed.

Lemma M_bind_raise {A B} (m : M A) (f : A -> M B) (s s1 : Structure CellData) e :
  m s = (Raise e, s1) -> (m ≫= f) s = (Raise e, s1).
Proof. intros Hm. unfold mbind, M_bind. by rewrite Hm. Qed.

(** *** Loops over the blocks *)

Lemma for_blocks_Ok_each {A}
    (body : Block CellData -> A -> Block CellData * result A) bs a bs' a' :
  for_blocks body bs a = (bs', Ok a') ->
  Forall2 (fun b b' => exists a0 a1, body b a0 = (b', Ok a1)) bs bs'.
Proof.
  revert a bs'. induction bs as [|b bs IH]; intros a bs'; cbn.
  - intros [= <- _]. constructor.
  - destruct (body b a) as [b1 [a1|e]] eqn:Hb; [|discriminate].
    destruct (for_blocks body bs a1) as [bs1 r] eqn:Hbs. intros [= <- ->].
    constructor; [eauto | by eapply IH].
Qed.

Lemma strain_loads_block_Ok NSTRE (b b' : Block CellData) u u' :
  strain_loads_block NSTRE b u = (b', Ok u') ->
  (NDIM b = 2%nat \/ NDIM b = 3%nat) /\ is_Some (strain_loads b').
Proof.
  unfold strain_loads_block.
  destruct (centers b ≫= _) as [sl|e]; [|discriminate].
  destruct (decide (NDIM b = 3%nat)).
  { intros [= <- _]. split; [by right|]. cbn. eauto. }
  destruct (decide (NDIM b = 2%nat)); [|discriminate].
  destruct (_transform_3d_strain_loads_to_surfaces sl b); [|discriminate].
  intros [= <- _]. split; [by left|]. cbn. eauto.
Qed.

(** *** Calls that cannot complete *)

Ltac keeps_tac :=
  repeat first
    [ apply keeps_lift | apply keeps_get | apply keeps_mret
    | apply keeps_for_blocks_M
    | apply keeps_modify; intros; reflexivity
    | apply keeps_bind; [|intros ?] ].

Lemma raise_keeps_bind {A B} (m : M A) (f : A -> M B) :
  keeps_constraints (CellData:=CellData) m ->
  (forall a (s s' : Structure CellData) e,
     f a s = (Raise e, s') -> constraints s' = constraints s) ->
  forall (s s' : Structure CellData) e,
    (m ≫= f) s = (Raise e, s') -> constraints s' = constraints s.
Proof.
  intros Hm Hf s s' e. unfold mbind, M_bind.
  destruct (m s) as [[a|e0] s1] eqn:Hms.
  - intros Hfa. rewrite (Hf a _ _ _ Hfa). eapply Hm, Hms.
  - intros [= _ <-]. eapply Hm, Hms.
Qed.

(** The one write of [prepare] to the constraints is its last step: when
    it raises, they are as they were. *)
Lemma prepare_raise_keeps model (s s' : Structure CellData) e :
  prepare model s = (Raise e, s') -> constraints s' = constraints s.
Proof.
  revert s s' e. unfold prepare.
  apply raise_keeps_bind; [keeps_tac|intros self].
  apply raise_keeps_bind; [keeps_tac|intros [[xmin xmax] [ymin ymax]]].
  do 12 (apply raise_keeps_bind; [keeps_tac|intros ?]).
  intros s s' e. discriminate.
Qed.

(** X23: A block whose dimension is neither 2 nor 3 makes every call fail;
    the failure comes before the periodicity constraint is appended, so
    the constraints stay as they were. *)
Theorem homogenize_unsupported_dimension model (s s' : Structure CellData) r b :
  b ∈ blocks s -> NDIM b <> 2%nat -> NDIM b <> 3%nat ->
  homogenize model s = (r, s') ->
  returns r = false /\ constraints s' = constraints s.
Proof.
  intros Hb H2 H3 Hh.
  assert (Hnot : forall x s1, prepare model s <> (Ok x, s1)).
  { intros [NSTRE area] s1 Hprep.
    apply prepare_Ok in Hprep
      as (xmin & xmax & ymin & ymax & c & ic & ix & iy & fx1 & fx2 & fx3 & im & bs
          & _ & _ & _ & _ & _ & _ & _ & _ & _ & _ & _ & Hloop & _).
    apply for_blocks_Ok_each in Hloop.
    apply list_elem_of_lookup in Hb as [i Hi].
    destruct (Forall2_lookup_l _ _ _ _ _ Hloop Hi) as (b' & _ & u0 & u1 & Hbody).
    apply strain_loads_block_Ok in Hbody as [[?|?] _]; contradiction. }
  unfold homogenize, accumulate in Hh.
  destruct (prepare model s) as [[x|e] s1] eqn:Hprep; [by destruct (Hnot x s1)|].
  rewrite (M_bind_raise _ _ s s1 e) in Hh.
  2: { by rewrite (M_bind_raise _ _ s s1 e). }
  injection Hh as <- <-. split; [reflexivity|].
  by eapply prepare_raise_keeps.
Qed.

(** X24: With fewer than three DOFs per node the rigid-body supports cannot
    be placed, and no call completes. *)
Theorem homogenize_needs_three_dofs model (s s' : Structure CellData) R :
  (NDOFN s < 3)%nat -> homogenize model s <> (Ok R, s').
Proof.
  intros HN Hh.
  apply homogenize_Ok in Hh
    as (NSTRE & area & s1 & dofsol & bs & hooke & hooke_avg & Hprep & _).
  apply prepare_Ok in Hprep
    as (xmin & xmax & ymin & ymax & c & ic & ix & iy & fx1 & fx2 & fx3 & im & bs0
        & _ & _ & _ & _ & _ & Hfx1 & _ & Hfx2 & _).
  apply setitem_row_slice_spec in Hfx1 as (_ & Hlen & _).
  unfold setitem_row_indices in Hfx2.
  apply bind_Ok in Hfx2 as (row & Hrow%getitem_Ok & Hfx2).
  apply bind_Ok in Hfx2 as (row' & Hrow' & _).
  apply setitem_indices_spec in Hrow' as (_ & Hjs & _).
  assert (Hwidth : length row = NDOFN s).
  { assert (Hl : row_lengths fx1 !! ix = Some (length row))
      by (unfold row_lengths; by rewrite list_lookup_fmap, Hrow).
    rewrite Hlen in Hl. unfold row_lengths, zeros2 in Hl.
    rewrite fmap_replicate, length_replicate in Hl.
    apply lookup_replicate in Hl as [Hl _]. congruence. }
  apply Forall_cons in Hjs as [_ Hjs]. apply Forall_cons in Hjs as [H2 _]. lia.
Qed.

(** X25: When the solver raises, its exception is the outcome of the call,
    and the structure stays as it was prepared: every block holds its
    strain loads, and the periodicity constraint is in the list. *)
Theorem homogenize_failed_solve model (s s1 : Structure CellData) NSTRE area e :
  prepare model s = (Ok (NSTRE, area), s1) ->
  linear_static_analysis s1 = Raise e ->
  homogenize model s = (Raise e, s1) /\
  Forall (fun block => is_Some (strain_loads block)) (blocks s1) /\
  exists im, constraints s1 = constraints s ++ [{| imap := im |}].
Proof.
  intros Hprep Hsol. split; [|split].
  - unfold homogenize, accumulate.
    apply M_bind_raise. rewrite (M_bind_run _ _ s s1 _ Hprep).
    apply M_bind_raise. unfold solve.
    rewrite (M_bind_run get _ s1 s1 s1 eq_refl).
    apply M_bind_raise. unfold lift. by rewrite Hsol.
  - apply prepare_Ok in Hprep
      as (xmin & xmax & ymin & ymax & c & ic & ix & iy & fx1 & fx2 & fx3 & im & bs
          & _ & _ & _ & _ & _ & _ & _ & _ & _ & _ & _ & Hloop & ->).
    cbn. apply for_blocks_Ok_each in Hloop.
    apply Forall_lookup. intros i b' Hb'.
    destruct (Forall2_lookup_r _ _ _ _ _ Hloop Hb') as (b & _ & u0 & u1 & Hbody).
    by apply strain_loads_block_Ok in Hbody as [_ ?].
  - apply prepare_Ok in Hprep
      as (xmin & xmax & ymin & ymax & c & ic & ix & iy & fx1 & fx2 & fx3 & im & bs
          & _ & _ & _ & _ & _ & _ & _ & _ & _ & _ & _ & _ & ->).
    by exists im.
Qed.

(** *** The returned matrix *)

(** X26: [ABD] is the Kirchhoff-Love call. A completed call has set up
    six load cases and has computed, over the blocks as it leaves them
    and from the solution of the prepared structure, the stress response
    and the weighted constitutive matrix. For a bounding box of the
    points whose area is not zero, every entry of the returned matrix,
    those of rows and columns 6 and 7 too, is the weighted constitutive
    matrix over the area minus the stress response over the area; for a
    zero area the returned array holds no number. *)
Theorem ABD_result (s s' : Structure CellData) R :
  ABD s = (Ok R, s') ->
  exists xmin xmax ymin ymax s1 dofsol hooke hooke_avg,
    bounds (points s) = Ok ((xmin, xmax), (ymin, ymax)) /\
    prepare "KL" s = (Ok (6%nat, (xmax - xmin) * (ymax - ymin)), s1) /\
    linear_static_analysis s1 = Ok dofsol /\
    blocks s' = set_strain_loads None <$> blocks s1 /\
    stress_response dofsol (blocks s') = Ok hooke /\
    weighted_constitutive (blocks s') = Ok hooke_avg /\
    pd_loads s' = Some (zeros3 (length (points s)) (NDOFN s) 6) /\
    let area := (xmax - xmin) * (ymax - ymin) in
    (area = 0 -> R = nonfinite) /\
    (area <> 0 ->
     exists R', R = finite R' /\
       forall i j, R' i j = hooke_avg i j / area - hooke i j / area).
Proof.
  unfold ABD. intros Hh.
  apply homogenize_completed in Hh
    as (NSTRE & xmin & xmax & ymin & ymax & s1 & dofsol & hooke & hooke_avg
        & Hdim & Hbounds & Hprep & Hsol & Hbs & Hh & Hha & Hloads & ->).
  rewrite (proj2 model_dimension_MR_KL) in Hdim. injection Hdim as <-.
  exists xmin, xmax, ymin, ymax, s1, dofsol, hooke, hooke_avg.
  repeat (split; [assumption|]). cbv zeta. split.
  - intros ->. apply combine_zero_area.
  - intros Harea.
    destruct (combine_entries 6 _ hooke hooke_avg Harea) as (R' & -> & Hentries).
    exists R'. split; [reflexivity|]. intros i j. by rewrite Hentries.
Qed.

End HomogenizeMore.

Section HomogenizeMoreExamples.
Import Homg.

Ltac absurd_raise E :=
  exfalso;
  lazymatch type of E with
  | ?run = (Raise _, _) =>
      let H := fresh in
      assert (H : returns run.1 = true) by (vm_compute; reflexivity);
      rewrite E in H; discriminate H
  end.

Lemma homogenize_unsupported_dimension_witness :
  DemoMore.line_block ∈ blocks DemoMore.cell_with_lines /\
  NDIM DemoMore.line_block <> 2%nat /\
  NDIM DemoMore.line_block <> 3%nat /\
  exists r s',
    homogenize "MR" DemoMore.cell_with_lines = (r, s') /\
    returns r = false /\
    constraints s' = constraints DemoMore.cell_with_lines.
Proof.
  assert (Hin : DemoMore.line_block ∈ blocks DemoMore.cell_with_lines)
    by (apply list_elem_of_further, list_elem_of_here).
  assert (H2 : NDIM DemoMore.line_block <> 2%nat) by discriminate.
  assert (H3 : NDIM DemoMore.line_block <> 3%nat) by discriminate.
  split; [exact Hin|]. split; [exact H2|]. split; [exact H3|].
  destruct (homogenize "MR" DemoMore.cell_with_lines) as [r s'] eqn:E.
  exists r, s'. split; [exact eq_refl|].
  exact (homogenize_unsupported_dimension "MR" DemoMore.cell_with_lines s' r
           DemoMore.line_block Hin H2 H3 E).
Defined.

Lemma homogenize_needs_three_dofs_witness :
  (NDOFN DemoMore.cell_2dof < 3)%nat /\
  forall R s', homogenize "MR" DemoMore.cell_2dof <> (Ok R, s').
Proof.
  assert (HN : (NDOFN DemoMore.cell_2dof < 3)%nat) by (cbn; lia).
  split; [exact HN|]. intros R s'.
  exact (homogenize_needs_three_dofs "MR" DemoMore.cell_2dof s' R HN).
Defined.

Lemma homogenize_failed_solve_witness :
  exists NSTRE area s1,
    @prepare _ DemoMore.singular _ "MR" Demo.cell = (Ok (NSTRE, area), s1) /\
    @linear_static_analysis _ DemoMore.singular s1 = Raise ExternalError /\
    @homogenize _ DemoMore.singular _ "MR" Demo.cell = (Raise ExternalError, s1) /\
    Forall (fun block => is_Some (strain_loads block)) (blocks s1) /\
    exists im, constraints s1 = constraints Demo.cell ++ [{| imap := im |}].
Proof.
  destruct (@prepare _ DemoMore.singular _ "MR" Demo.cell)
    as [[[NSTRE area]|e] s1] eqn:E; [|absurd_raise E].
  exists NSTRE, area, s1. split; [exact eq_refl|]. split; [exact eq_refl|].
  exact (@homogenize_failed_solve _ DemoMore.singular _ "MR" Demo.cell s1 NSTRE area
           ExternalError E eq_refl).
Defined.

Lemma ABD_result_witness :
  exists R s',
    ABD Demo.cell = (Ok R, s') /\
    exists xmin xmax ymin ymax s1 dofsol hooke hooke_avg,
      bounds (points Demo.cell) = Ok ((xmin, xmax), (ymin, ymax)) /\
      prepare "KL" Demo.cell = (Ok (6%nat, (xmax - xmin) * (ymax - ymin)), s1) /\
      linear_static_analysis s1 = Ok dofsol /\
      blocks s' = set_strain_loads None <$> blocks s1 /\
      stress_response dofsol (blocks s') = Ok hooke /\
      weighted_constitutive (blocks s') = Ok hooke_avg /\
      pd_loads s' = Some (zeros3 (length (points Demo.cell)) (NDOFN Demo.cell) 6) /\
      let area := (xmax - xmin) * (ymax - ymin) in
      (area = 0 -> R = nonfinite) /\
      (area <> 0 ->
       exists R', R = finite R' /\
         forall i j, R' i j = hooke_avg i j / area - hooke i j / area).
Proof.
  destruct (ABD Demo.cell) as [[R|e] s'] eqn:E.
  - exists R, s'. split; [exact eq_refl|]. exact (ABD_result Demo.cell s' R E).
  - absurd_raise E.
Defined.

End HomogenizeMoreExamples.

(** ** Homogenized stiffness of Mindlin plates and shells *)

Section MindlinStiffnessFacts.
Import MindlinStiffness.

Lemma slice_len_same_start r0 r1 n : (slice_len r0 r1 n <= n - r0 `min` n)%nat.
Proof. unfold slice_len. destruct r1; lia. Qed.

Lemma fits_refl n : fits n n = true.
Proof. unfold fits. by rewrite Nat.eqb_refl. Qed.

(** A block taken from [C] fits the same place of an array of the shape
    of [C]: the assignment goes through, and changes the entries of that
    place in the matrix of element [i] only. *)
Lemma setblock_same_place (C res : array3d) i r0 r1 c0 c1 k :
  nR res = nR C -> nC res = nC C ->
  exists res',
    setblock i r0 r1 c0 c1 (scaled_block C i r0 r1 c0 c1 k) res = Ok res' /\
    nE res' = nE res /\ nR res' = nR res /\ nC res' = nC res /\
    forall e r c, (r < nR C)%nat -> (c < nC C)%nat ->
      at3 res' e r c =
      if (e =? i)%nat && (r0 <=? r)%nat && (r <? r0 + slice_len r0 r1 (nR C))%nat
         && (c0 <=? c)%nat && (c <? c0 + slice_len c0 c1 (nC C))%nat
      then at3 C i r c * k
      else at3 res e r c.
Proof.
  intros HR HC. unfold setblock. cbn [rows cols scaled_block at2].
  rewrite HR, HC, !fits_refl. cbn [andb].
  eexists. split; [reflexivity|]. cbn [nE nR nC at3].
  repeat (split; [reflexivity|]).
  intros e r c Hr Hc.
  destruct ((e =? i)%nat && (r0 <=? r)%nat && (r <? r0 + slice_len r0 r1 (nR C))%nat
            && (c0 <=? c)%nat && (c <? c0 + slice_len c0 c1 (nC C))%nat) eqn:Hin;
    [|reflexivity].
  rewrite !andb_true_iff in Hin. destruct Hin as ((((_ & Hr0) & Hr1) & Hc0) & Hc1).
  apply Nat.leb_le in Hr0, Hc0. apply Nat.ltb_lt in Hr1, Hc1.
  assert (Hrow : (r0 + (if (slice_len r0 r1 (nR C) =? 1)%nat then 0 else r - r0) = r)%nat).
  { destruct (slice_len r0 r1 (nR C) =? 1)%nat eqn:E; [apply Nat.eqb_eq in E|]; lia. }
  assert (Hcol : (c0 + (if (slice_len c0 c1 (nC C) =? 1)%nat then 0 else c - c0) = c)%nat).
  { destruct (slice_len c0 c1 (nC C) =? 1)%nat eqn:E; [apply Nat.eqb_eq in E|]; lia. }
  by rewrite Hrow, Hcol.
Qed.

Lemma setblock_Ok_inv i r0 r1 c0 c1 src res res' :
  setblock i r0 r1 c0 c1 src res = Ok res' ->
  fits (slice_len r0 r1 (nR res)) (rows src)
    && fits (slice_len c0 c1 (nC res)) (cols src) = true /\
  nR res' = nR res /\ nC res' = nC res.
Proof.
  unfold setblock.
  destruct (fits (slice_len r0 r1 (nR res)) (rows src)
            && fits (slice_len c0 c1 (nC res)) (cols src)); [|discriminate].
  intros [= <-]. repeat split.
Qed.

Lemma setblock_misfit i r0 r1 c0 c1 src res :
  fits (slice_len r0 r1 (nR res)) (rows src)
    && fits (slice_len c0 c1 (nC res)) (cols src) = false ->
  setblock i r0 r1 c0 c1 src res = Raise ValueError.
Proof. unfold setblock. by intros ->. Qed.

Lemma setblock_raise i r0 r1 c0 c1 src res e :
  setblock i r0 r1 c0 c1 src res = Raise e -> e = ValueError.
Proof.
  unfold setblock.
  destruct (fits (slice_len r0 r1 (nR res)) (rows src)
            && fits (slice_len c0 c1 (nC res)) (cols src)); [discriminate|].
  by intros [= <-].
Qed.

(** Along an axis of two or more entries, the slice [6:] cannot take
    the slice [3:] once the slice [3:6] took the slice [:3]. *)
Lemma axis_misfit n :
  (2 <= n)%nat ->
  fits (slice_len 3 (Some 6%nat) n) (slice_len 0 (Some 3%nat) n) = true ->
  fits (slice_len 6 None n) (slice_len 3 None n) = false.
Proof.
  intros Hn. unfold fits, slice_len.
  destruct (decide (n < 6)%nat) as [Hlt|Hge].
  - assert (Hcases : n = 2%nat \/ n = 3%nat \/ n = 4%nat \/ n = 5%nat) by lia.
    destruct Hcases as [-> | [-> | [-> | ->]]]; cbn; discriminate.
  - intros _. rewrite (Nat.min_l 3 n), (Nat.min_l 6 n) by lia.
    apply orb_false_iff. rewrite !Nat.eqb_neq. lia.
Qed.

Lemma Ok_bind {A B} (a : A) (f : A -> result B) : Ok a ≫= f = f a.
Proof. reflexivity. Qed.

Lemma plate_body_spec (C res : array3d) (t : list scalar) i ti :
  nR res = nR C -> nC res = nC C -> t !! i = Some ti ->
  exists res',
    plate_body C t i res = Ok res' /\
    nE res' = nE res /\ nR res' = nR res /\ nC res' = nC res /\
    forall e r c, (r < nR C)%nat -> (c < nC C)%nat ->
      at3 res' e r c =
      if (e =? i)%nat && (((r <? 3)%nat && (c <? 3)%nat) || ((3 <=? r)%nat && (3 <=? c)%nat))
      then plate_entry C i ti r c
      else at3 res e r c.
Proof.
  intros HR HC Hti. unfold plate_body, getitem. rewrite Hti, Ok_bind.
  destruct (setblock_same_place C res i 0 (Some 3%nat) 0 (Some 3%nat)
              (ti ^ 3 / QcZ 12) HR HC) as (res1 & -> & HE1 & HR1 & HC1 & Hat1).
  rewrite !Ok_bind.
  destruct (setblock_same_place C res1 i 3 None 3 None (ti * QcZ 5 / QcZ 6))
    as (res2 & -> & HE2 & HR2 & HC2 & Hat2); [congruence | congruence |].
  exists res2. split; [reflexivity|].
  split; [congruence|]. split; [congruence|]. split; [congruence|].
  intros e r c Hr Hc. rewrite Hat2, Hat1 by assumption.
  unfold plate_entry, slice_len.
  repeat match goal with
         | |- context [(?a <? ?b)%nat] =>
             destruct (Nat.ltb_spec a b); try (exfalso; lia)
         | |- context [(?a <=? ?b)%nat] =>
             destruct (Nat.leb_spec a b); try (exfalso; lia)
         | |- context [(?a =? ?b)%nat] =>
             destruct (Nat.eqb_spec a b); try (exfalso; lia)
         end; reflexivity.
Qed.

Lemma for_range_plate (C : array3d) (t : list scalar) n : forall k res,
  nR res = nR C -> nC res = nC C -> (k + n <= length t)%nat ->
  exists res',
    for_range (plate_body C t) (seq k n) res = Ok res' /\
    nE res' = nE res /\ nR res' = nR res /\ nC res' = nC res /\
    forall e r c, (r < nR C)%nat -> (c < nC C)%nat ->
      at3 res' e r c =
      if (k <=? e)%nat && (e <? k + n)%nat
         && (((r <? 3)%nat && (c <? 3)%nat) || ((3 <=? r)%nat && (3 <=? c)%nat))
      then match t !! e with
           | Some ti => plate_entry C e ti r c
           | None => 0
           end
      else at3 res e r c.
Proof.
  induction n as [|n IH]; intros k res HR HC Hlen.
  - exists res. split; [reflexivity|]. repeat (split; [reflexivity|]).
    intros e r c _ _.
    destruct (Nat.leb_spec k e), (Nat.ltb_spec e (k + 0)); try reflexivity; lia.
  - destruct (lookup_lt_is_Some_2 t k) as [ti Hti]; [lia|].
    destruct (plate_body_spec C res t k ti HR HC Hti)
      as (res1 & Hbody & HE1 & HR1 & HC1 & Hat1).
    destruct (IH (S k) res1) as (res2 & Hloop & HE2 & HR2 & HC2 & Hat2);
      [congruence | congruence | lia |].
    exists res2. cbn [seq for_range]. rewrite Hbody, Ok_bind.
    split; [exact Hloop|].
    split; [congruence|]. split; [congruence|]. split; [congruence|].
    intros e r c Hr Hc. rewrite Hat2, Hat1 by assumption.
    destruct (((r <? 3)%nat && (c <? 3)%nat) || ((3 <=? r)%nat && (3 <=? c)%nat));
      rewrite ?andb_true_r, ?andb_false_r; [|reflexivity].
    destruct (Nat.eqb_spec e k) as [->|Hne].
    + rewrite Hti.
      destruct (Nat.leb_spec (S k) k), (Nat.leb_spec k k), (Nat.ltb_spec k (k + S n));
        try reflexivity; lia.
    + destruct (Nat.leb_spec (S k) e), (Nat.leb_spec k e), (Nat.ltb_spec e (k + S n)),
        (Nat.ltb_spec e (S k + n)); try reflexivity; lia.
Qed.

Lemma plate_entries (C : array3d) (t : list scalar) :
  (nE C <= length t)%nat ->
  exists res,
    model_stiffness_iso_homg_mindlin_plate C t = Ok res /\
    nE res = nE C /\ nR res = nR C /\ nC res = nC C /\
    forall i ti r c,
      (i < nE C)%nat -> t !! i = Some ti -> (r < nR C)%nat -> (c < nC C)%nat ->
      at3 res i r c = plate_entry C i ti r c.
Proof.
  intros Hlen. unfold model_stiffness_iso_homg_mindlin_plate.
  destruct (for_range_plate C t (nE C) 0 (zeros_like C))
    as (res & Hloop & HE & HR & HC & Hat); [reflexivity | reflexivity | exact Hlen |].
  exists res. split; [exact Hloop|]. repeat (split; [assumption|]).
  intros i ti r c Hi Hti Hr Hc. rewrite Hat, Hti by assumption.
  unfold plate_entry. cbn [zeros_like at3].
  destruct (Nat.leb_spec 0 i), (Nat.ltb_spec i (0 + nE C)), (Nat.ltb_spec r 3),
    (Nat.ltb_spec c 3), (Nat.leb_spec 3 r), (Nat.leb_spec 3 c);
    try (exfalso; lia); reflexivity.
Qed.

(** X3: for a batch [C] of matrices and one thickness per element, the
    plate routine returns an array of the shape of [C] in which, for every
    element, the leading 3 x 3 block is that of [C] times [t ** 3 / 12],
    the block from row and column 3 on is that of [C] times [t * 5 / 6],
    and the two off-diagonal (coupling) blocks are zero. *)
Theorem model_stiffness_iso_homg_mindlin_plate_spec (C : array3d) (t : list scalar) :
  (nE C <= length t)%nat ->
  exists res,
    model_stiffness_iso_homg_mindlin_plate C t = Ok res /\
    nE res = nE C /\ nR res = nR C /\ nC res = nC C /\
    forall i ti r c,
      (i < nE C)%nat -> t !! i = Some ti -> (r < nR C)%nat -> (c < nC C)%nat ->
      ((r < 3)%nat -> (c < 3)%nat ->
         at3 res i r c = at3 C i r c * (ti ^ 3 / QcZ 12)) /\
      ((3 <= r)%nat -> (3 <= c)%nat ->
         at3 res i r c = at3 C i r c * (ti * QcZ 5 / QcZ 6)) /\
      ((r < 3)%nat -> (3 <= c)%nat -> at3 res i r c = 0) /\
      ((3 <= r)%nat -> (c < 3)%nat -> at3 res i r c = 0).
Proof.
  intros Hlen.
  destruct (plate_entries C t Hlen) as (res & Hres & HE & HR & HC & Hat).
  exists res. split; [exact Hres|]. repeat (split; [assumption|]).
  intros i ti r c Hi Hti Hr Hc. rewrite (Hat i ti r c Hi Hti Hr Hc).
  unfold plate_entry.
  destruct (Nat.ltb_spec r 3), (Nat.ltb_spec c 3), (Nat.leb_spec 3 r), (Nat.leb_spec 3 c);
    try (exfalso; lia); cbn [andb];
    repeat split; intros; try reflexivity; exfalso; lia.
Qed.

(** X4: the plate routine keeps symmetry: if every matrix of [C] is
    symmetric, so is every matrix of the result. *)
Theorem model_stiffness_iso_homg_mindlin_plate_symmetric (C : array3d)
    (t : list scalar) :
  (nE C <= length t)%nat ->
  nC C = nR C ->
  (forall i r c, (i < nE C)%nat -> (r < nR C)%nat -> (c < nR C)%nat ->
     at3 C i r c = at3 C i c r) ->
  exists res,
    model_stiffness_iso_homg_mindlin_plate C t = Ok res /\
    forall i r c, (i < nE C)%nat -> (r < nR C)%nat -> (c < nR C)%nat ->
      at3 res i r c = at3 res i c r.
Proof.
  intros Hlen Hsq Hsym.
  destruct (plate_entries C t Hlen) as (res & Hres & _ & _ & _ & Hat).
  exists res. split; [exact Hres|]. intros i r c Hi Hr Hc.
  destruct (lookup_lt_is_Some_2 t i) as [ti Hti]; [lia|].
  rewrite (Hat i ti r c Hi Hti Hr ltac:(lia)), (Hat i ti c r Hi Hti Hc ltac:(lia)).
  unfold plate_entry. rewrite (Hsym i r c Hi Hr Hc).
  destruct (Nat.ltb_spec r 3), (Nat.ltb_spec c 3), (Nat.leb_spec 3 r), (Nat.leb_spec 3 c);
    try (exfalso; lia); reflexivity.
Qed.

(** X5: the shell routine never returns for a batch with at least one
    element whose matrices have two or more rows, or two or more columns:
    the array it fills has the shape of [C], so the slice [3:6] cannot
    take the leading 3 x 3 block nor the slice [6:] the block [3:]. *)
Theorem model_stiffness_iso_homg_mindlin_shell_raises (C : array3d) (t : list scalar)
    (t0 : scalar) :
  (1 <= nE C)%nat -> t !! 0%nat = Some t0 ->
  (2 <= nR C)%nat \/ (2 <= nC C)%nat ->
  model_stiffness_iso_homg_mindlin_shell C t = Raise ValueError.
Proof.
  intros HE Ht0 Hshape. unfold model_stiffness_iso_homg_mindlin_shell.
  cbv zeta. change (nE (zeros_like C)) with (nE C).
  destruct (nE C) as [|n]; [lia|].
  cbn [seq for_range]. unfold shell_body, getitem. rewrite Ht0, Ok_bind.
  destruct (setblock_same_place C (zeros_like C) 0 0 (Some 3%nat) 0 (Some 3%nat) t0)
    as (res1 & Hset & _ & HR1 & HC1 & _); [reflexivity | reflexivity |].
  change (nR (zeros_like C)) with (nR C) in HR1.
  change (nC (zeros_like C)) with (nC C) in HC1.
  rewrite Hset, !Ok_bind.
  destruct (setblock 0 3 (Some 6%nat) 3 (Some 6%nat)
              (scaled_block C 0 0 (Some 3%nat) 0 (Some 3%nat) (t0 ^ 3 / QcZ 12)) res1)
    as [res2|e] eqn:Hset2.
  - apply setblock_Ok_inv in Hset2 as (Hfit2 & HR2 & HC2).
    cbn [rows cols scaled_block] in Hfit2. rewrite HR1, HC1 in Hfit2.
    rewrite !Ok_bind, setblock_misfit; [reflexivity|].
    cbn [rows cols scaled_block]. rewrite HR2, HC2, HR1, HC1.
    apply andb_true_iff in Hfit2 as [Hr2 Hc2].
    apply andb_false_iff.
    destruct Hshape as [Hrows|Hcols]; [left | right]; by apply axis_misfit.
  - apply setblock_raise in Hset2 as ->. reflexivity.
Qed.

End MindlinStiffnessFacts.

Section MindlinStiffnessExamples.
Import MindlinStiffness.

Lemma model_stiffness_iso_homg_mindlin_plate_spec_witness :
  exists res,
    model_stiffness_iso_homg_mindlin_plate (sample 5) [QcZ 1; QcZ 2] = Ok res /\
    nE res = 2%nat /\ nR res = 5%nat /\ nC res = 5%nat /\
    forall i ti r c,
      (i < 2)%nat -> [QcZ 1; QcZ 2] !! i = Some ti -> (r < 5)%nat -> (c < 5)%nat ->
      ((r < 3)%nat -> (c < 3)%nat ->
         at3 res i r c = at3 (sample 5) i r c * (ti ^ 3 / QcZ 12)) /\
      ((3 <= r)%nat -> (3 <= c)%nat ->
         at3 res i r c = at3 (sample 5) i r c * (ti * QcZ 5 / QcZ 6)) /\
      ((r < 3)%nat -> (3 <= c)%nat -> at3 res i r c = 0) /\
      ((3 <= r)%nat -> (c < 3)%nat -> at3 res i r c = 0).
Proof.
  apply (model_stiffness_iso_homg_mindlin_plate_spec (sample 5) [QcZ 1; QcZ 2]).
  simpl. lia.
Defined.

Lemma model_stiffness_iso_homg_mindlin_plate_symmetric_witness :
  exists res,
    model_stiffness_iso_homg_mindlin_plate (sample 5) [QcZ 1; QcZ 2] = Ok res /\
    forall i r c, (i < 2)%nat -> (r < 5)%nat -> (c < 5)%nat ->
      at3 res i r c = at3 res i c r.
Proof.
  apply (model_stiffness_iso_homg_mindlin_plate_symmetric (sample 5) [QcZ 1; QcZ 2]).
  - simpl. lia.
  - reflexivity.
  - intros i r c _ _ _. simpl. f_equal. lia.
Defined.

Lemma model_stiffness_iso_homg_mindlin_shell_raises_witness :
  model_stiffness_iso_homg_mindlin_shell (sample 8) [QcZ 1; QcZ 2] = Raise ValueError.
Proof.
  apply (model_stiffness_iso_homg_mindlin_shell_raises (sample 8) [QcZ 1; QcZ 2] (QcZ 1)).
  - simpl. lia.
  - reflexivity.
  - left. simpl. lia.
Defined.

End MindlinStiffnessExamples.

(** ** Stresses from strains *)

Section ModelUtilsFacts.
Import ModelUtils.

Lemma dot_combine1 k1 k2 (row : list scalar) : forall v1 v2,
  length v1 = length v2 ->
  dot row (combine1 k1 k2 v1 v2) = k1 * dot row v1 + k2 * dot row v2.
Proof.
  unfold dot, combine1.
  induction row as [|x row IH]; intros [|a v1] [|b v2] Hlen; try discriminate;
    cbn; try ring.
  rewrite IH by (cbn in Hlen; lia). ring.
Qed.

Lemma length_combine1 k1 k2 (a b : list scalar) :
  length a = length b -> length (combine1 k1 k2 a b) = length a.
Proof. intros H. unfold combine1. rewrite length_zip_with. lia. Qed.

Lemma forallb_length_eq (M : list (list scalar)) (n : nat) :
  forallb (fun row => (length row =? n)%nat) M = true <->
  Forall (fun row => length row = n) M.
Proof.
  induction M as [|row M IH]; cbn.
  - split; [constructor | reflexivity].
  - rewrite andb_true_iff, Nat.eqb_eq, IH, Forall_cons. reflexivity.
Qed.

Lemma matvec_Ok M v s :
  matvec M v = Ok s <->
  Forall (fun row => length row = length v) M /\ s = (fun row => dot row v) <$> M.
Proof.
  unfold matvec.
  destruct (forallb (fun row => (length row =? length v)%nat) M) eqn:Hall.
  - apply forallb_length_eq in Hall. split.
    + by intros [= <-].
    + by intros [_ ->].
  - split; [discriminate|]. intros [Hrows _].
    apply forallb_length_eq in Hrows. congruence.
Qed.

Lemma matvec_combine1 k1 k2 M v1 v2 s1 s2 :
  length v1 = length v2 ->
  matvec M v1 = Ok s1 -> matvec M v2 = Ok s2 ->
  matvec M (combine1 k1 k2 v1 v2) = Ok (combine1 k1 k2 s1 s2).
Proof.
  intros Hlen [Hrows1 ->]%matvec_Ok [_ ->]%matvec_Ok. apply matvec_Ok. split.
  - rewrite length_combine1 by exact Hlen. exact Hrows1.
  - unfold combine1 at 2. clear Hrows1.
    induction M as [|row M IH]; [reflexivity|]. cbn. f_equal; [|exact IH].
    symmetry. by apply dot_combine1.
Qed.

Lemma setslice_combine1 k1 k2 w s1 s2 r1 r2 :
  length s1 = length s2 ->
  Mindlin.setslice w s1 = Ok r1 -> Mindlin.setslice w s2 = Ok r2 ->
  Mindlin.setslice w (combine1 k1 k2 s1 s2) = Ok (combine1 k1 k2 r1 r2).
Proof.
  intros Hlen. unfold Mindlin.setslice.
  rewrite (length_combine1 k1 k2 s1 s2 Hlen), <- Hlen.
  destruct (decide (length s1 = w)) as [Hw|Hw].
  - by intros [= <-] [= <-].
  - destruct s1 as [|x [|? ?]], s2 as [|y [|? ?]]; try discriminate.
    intros [= <-] [= <-]. cbn. f_equal. unfold combine1.
    clear. induction w as [|w IH]; [reflexivity|]. cbn. by rewrite IH.
Qed.

Lemma stress_point_combine1 k1 k2 C iE eps1 eps2 r1 r2 :
  length eps1 = length eps2 ->
  stress_point C iE eps1 = Ok r1 -> stress_point C iE eps2 = Ok r2 ->
  stress_point C iE (combine1 k1 k2 eps1 eps2) = Ok (combine1 k1 k2 r1 r2).
Proof.
  intros Hlen. unfold stress_point.
  destruct (getitem C iE) as [Ci|e]; [|discriminate]. rewrite !Ok_bind.
  intros (s1 & Hs1 & Hr1)%bind_Ok (s2 & Hs2 & Hr2)%bind_Ok.
  rewrite (matvec_combine1 k1 k2 Ci eps1 eps2 s1 s2 Hlen Hs1 Hs2), Ok_bind.
  rewrite length_combine1 by exact Hlen.
  rewrite <- Hlen in Hr2.
  apply setslice_combine1; [|assumption..].
  apply matvec_Ok in Hs1 as [_ ->]. apply matvec_Ok in Hs2 as [_ ->].
  by rewrite !length_fmap.
Qed.

Lemma mapM_zip_with {A B} (P : A -> A -> Prop) (f : A -> result B)
    (g : A -> A -> A) (h : B -> B -> B) :
  (forall x y fx fy, P x y -> f x = Ok fx -> f y = Ok fy -> f (g x y) = Ok (h fx fy)) ->
  forall l1 l2 k1 k2,
    Forall2 P l1 l2 -> mapM f l1 = Ok k1 -> mapM f l2 = Ok k2 ->
    mapM f (zip_with g l1 l2) = Ok (zip_with h k1 k2).
Proof.
  intros Hf l1 l2 k1 k2 HP. revert k1 k2.
  induction HP as [|x y l1 l2 Hxy HP IH]; intros k1 k2.
  - by intros [= <-] [= <-].
  - cbn [mapM zip_with].
    intros (fx & Hfx & (k1' & Hk1 & [= <-])%bind_Ok)%bind_Ok.
    intros (fy & Hfy & (k2' & Hk2 & [= <-])%bind_Ok)%bind_Ok.
    rewrite (Hf x y fx fy Hxy Hfx Hfy), Ok_bind, (IH k1' k2' Hk1 Hk2). reflexivity.
Qed.

Lemma zip_seq_zip_with {A} (g : A -> A -> A) (l1 : list A) : forall l2 n,
  length l1 = length l2 ->
  zip (seq n (length (zip_with g l1 l2))) (zip_with g l1 l2) =
  zip_with (fun p q => (p.1, g p.2 q.2)) (zip (seq n (length l1)) l1)
    (zip (seq n (length l2)) l2).
Proof.
  induction l1 as [|x l1 IH]; intros [|y l2] n Hlen; try discriminate; [reflexivity|].
  cbn. f_equal. apply IH. cbn in Hlen. lia.
Qed.

(** X10: superposition. If the stresses of two strain fields of one shape
    can be computed, the stresses of a linear combination of the fields
    are the same combination of the stresses. *)
Theorem stresses_from_strains_linear (k1 k2 : scalar)
    (C s1 s2 r1 r2 : list (list (list scalar))) :
  same_shape s1 s2 ->
  stresses_from_strains C s1 = Ok r1 ->
  stresses_from_strains C s2 = Ok r2 ->
  stresses_from_strains C (combine3 k1 k2 s1 s2) = Ok (combine3 k1 k2 r1 r2).
Proof.
  unfold stresses_from_strains, combine3, same_shape. intros Hshape H1 H2.
  pose proof (Forall2_length _ _ _ Hshape) as Hlen.
  rewrite zip_seq_zip_with by exact Hlen.
  apply (mapM_zip_with
           (fun p q => p.1 = q.1 /\
              Forall2 (fun x y : list Qc => length x = length y) p.2 q.2)); try assumption.
  - intros [i pts1] [j pts2] fx fy [Hij Hpts] Hfx Hfy. cbn in Hij, Hpts. subst j.
    cbn [fst snd].
    apply (mapM_zip_with (fun x y : list Qc => length x = length y)); try assumption.
    intros x y sx sy Hxy. by apply stress_point_combine1.
  - rewrite <- Hlen. clear H1 H2 Hlen. generalize 0%nat.
    induction Hshape as [|p1 p2 l1 l2 Hp Hshape IH]; intros n; [constructor|].
    cbn. constructor; [by split | apply IH].
Qed.

(** X9: Hooke's law, point by point. With one [n x n] matrix per element
    and [n] strain components at every point, the routine returns, and
    component [i] of the stress at a point is the product of row [i] of
    the matrix of the element with the strain at the point. *)
Theorem stresses_from_strains_spec (n : nat) (C strains : list (list (list scalar))) :
  (length strains <= length C)%nat ->
  Forall (fun Ce => length Ce = n /\ Forall (fun row => length row = n) Ce) C ->
  Forall (Forall (fun eps => length eps = n)) strains ->
  exists res,
    stresses_from_strains C strains = Ok res /\
    length res = length strains /\
    forall e p Ce pts eps,
      C !! e = Some Ce -> strains !! e = Some pts -> pts !! p = Some eps ->
      exists sig,
        res !! e = Some sig /\ length sig = length pts /\
        sig !! p = Some ((fun row => dot row eps) <$> Ce).
Proof.
  intros Hlen HC Hs.
  assert (Hpoint : forall e Ce eps, C !! e = Some Ce -> length eps = n ->
            stress_point C e eps = Ok ((fun row => dot row eps) <$> Ce)).
  { intros e Ce eps HCe Heps. unfold stress_point, getitem. rewrite HCe, Ok_bind.
    destruct (proj1 (Forall_lookup _ C) HC e Ce HCe) as [HnCe Hrows].
    rewrite (proj2 (matvec_Ok Ce eps ((fun row => dot row eps) <$> Ce))), Ok_bind.
    - unfold Mindlin.setslice. rewrite length_fmap, decide_True by congruence.
      reflexivity.
    - split; [|reflexivity]. eapply Forall_impl; [exact Hrows|].
      intros row Hrow. cbn in Hrow. congruence. }
  set (out := imap (fun e pts =>
                 (fun eps => (fun row => dot row eps) <$> default [] (C !! e)) <$> pts)
                strains).
  assert (Hres : stresses_from_strains C strains = Ok out).
  { unfold stresses_from_strains. apply mapM_Ok.
    apply Forall2_same_length_lookup_2.
    - subst out. rewrite length_zip, length_seq, length_imap. lia.
    - intros i [e pts] sig Hzip Hout.
      apply lookup_zip_with_Some in Hzip as (e' & pts' & [= <- <-] & He & Hpts).
      apply lookup_seq in He as [-> _]. cbn [Nat.add] in *.
      subst out. rewrite list_lookup_imap, Hpts in Hout. cbn in Hout.
      injection Hout as <-.
      destruct (lookup_lt_is_Some_2 C i) as [Ce HCe].
      { apply lookup_lt_Some in Hpts. lia. }
      rewrite HCe. cbn [default].
      apply mapM_Ok, Forall2_fmap_r, Forall_Forall2_diag.
      pose proof (proj1 (Forall_lookup _ strains) Hs i pts Hpts) as Hrows.
      eapply Forall_impl; [exact Hrows|].
      intros eps Heps. cbn in Heps. by apply Hpoint. }
  exists out. split; [exact Hres|]. split.
  { subst out. by rewrite length_imap. }
  intros e p Ce pts eps HCe Hpts Heps.
  exists ((fun eps => (fun row => dot row eps) <$> Ce) <$> pts).
  subst out. rewrite list_lookup_imap, Hpts. cbn. rewrite HCe. cbn.
  split; [reflexivity|]. split; [by rewrite length_fmap|].
  by rewrite list_lookup_fmap, Heps.
Qed.

End ModelUtilsFacts.

Section ModelUtilsExamples.
Import ModelUtils ModelUtilsDemo.

Lemma stresses_from_strains_linear_witness :
  stresses_from_strains C (combine3 (QcZ 2) (QcZ 3) strains_x strains_y)
  = Ok (combine3 (QcZ 2) (QcZ 3) [[[QcZ 1; QcZ 3]]] [[[QcZ 2; QcZ 4]]]).
Proof.
  apply (stresses_from_strains_linear (QcZ 2) (QcZ 3) C strains_x strains_y).
  - repeat constructor.
  - by_evaluation.
  - by_evaluation.
Defined.

Lemma stresses_from_strains_spec_witness :
  exists res,
    stresses_from_strains C strains_x = Ok res /\
    length res = length strains_x /\
    forall e p Ce pts eps,
      C !! e = Some Ce -> strains_x !! e = Some pts -> pts !! p = Some eps ->
      exists sig,
        res !! e = Some sig /\ length sig = length pts /\
        sig !! p = Some ((fun row => dot row eps) <$> Ce).
Proof.
  apply (stresses_from_strains_spec 2 C strains_x).
  - simpl. lia.
  - repeat constructor.
  - repeat constructor.
Defined.

End ModelUtilsExamples.

(** ** Masses and the mass matrix *)

Section MassFacts.
Import Mesh MeshMass.
Context {Cell D V E : Type} `{MassKernels Cell D V E}.

Lemma sumQc_app (l1 l2 : list scalar) : sumQc (l1 ++ l2) = sumQc l1 + sumQc l2.
Proof.
  unfold sumQc. induction l1 as [|x l1 IH]; cbn; [ring|]. rewrite IH. ring.
Qed.

Lemma sumQc_concat (ls : list (list scalar)) : sumQc (concat ls) = sumQc (sumQc <$> ls).
Proof.
  induction ls as [|l ls IH]; [reflexivity|].
  cbn [concat fmap list_fmap]. rewrite sumQc_app, IH. reflexivity.
Qed.

Lemma mapM_is_Ok {A B} (f : A -> result B) (l : list A) :
  is_Ok (mapM f l) <-> Forall (fun x => is_Ok (f x)) l.
Proof.
  induction l as [|x l IH]; cbn.
  - split; [constructor | by exists []].
  - rewrite Forall_cons, <- IH. split.
    + intros [k Hk]. destruct (f x) as [y|e]; [|discriminate]. cbn in Hk.
      destruct (mapM f l) as [k'|e]; [|discriminate]. split; eexists; reflexivity.
    + intros [[y ->] [k ->]]. by eexists.
Qed.

(** X13: the total mass can be computed exactly when the mesh has a block
    and the masses of every block can be computed. *)
Theorem mass_returns_iff (self : FemMesh Cell) :
  is_Ok (mass self) <->
  cellblocks self <> [] /\ Forall (fun b => is_Ok (celldata_masses b)) (cellblocks self).
Proof.
  rewrite <- mapM_is_Ok. unfold mass, masses.
  destruct (mapM celldata_masses (cellblocks self)) as [vmap|e] eqn:Hm; cbn.
  - destruct vmap as [|v vmap]; cbn.
    + apply mapM_Ok_length in Hm. destruct (cellblocks self); [|discriminate].
      split; [intros [? [=]] | by intros [? _]].
    + split; [|by eexists]. intros _. split; [|by eexists].
      intros Hnil. rewrite Hnil in Hm. discriminate.
  - split; [intros [? [=]] | intros [_ [? [=]]]].
Qed.

(** X14: the total mass is the sum of the totals of the blocks. *)
Theorem mass_blocks_sum (self : FemMesh Cell) (vmap : list (list scalar)) :
  cellblocks self <> [] ->
  mapM celldata_masses (cellblocks self) = Ok vmap ->
  masses self = Ok (concat vmap) /\ mass self = Ok (sumQc (sumQc <$> vmap)).
Proof.
  intros Hne Hm. unfold mass, masses. rewrite Hm, Ok_bind.
  destruct vmap as [|v vmap].
  { apply mapM_Ok_length in Hm. destruct (cellblocks self); [done | discriminate]. }
  cbn [np_concatenate fmap result_fmap]. by rewrite sumQc_concat.
Qed.

(** Clearing zeros and merging duplicates leave a matrix without
    duplicate keys and stored zeros in that state. *)
Lemma flags_canonical (K : coo) (ez sd : bool) :
  NoDup (keys K) -> (forall k v, (k, v) ∈ K -> v <> 0) ->
  let K' := if ez then eliminate_zeros K else K in
  let K'' := if sd then sum_duplicates K' else K' in
  (forall k, entry K'' k = entry K k) /\
  NoDup (keys K'') /\ (forall k v, (k, v) ∈ K'' -> v <> 0).
Proof.
  intros Hnd Hnz K' K''.
  assert (H' : (forall k, entry K' k = entry K k) /\ NoDup (keys K')
               /\ (forall k v, (k, v) ∈ K' -> v <> 0)).
  { subst K'. destruct ez; [|by repeat split].
    split; [apply entry_eliminate_zeros|].
    split; [by apply NoDup_keys_eliminate_zeros|].
    intros k v Hin. by apply stored_eliminate_zeros in Hin as [_ Hv]. }
  destruct H' as (He' & Hnd' & Hnz'). subst K''. destruct sd; [|by repeat split].
  split; [intros k; by rewrite entry_sum_duplicates|].
  split; [apply NoDup_keys_sum_duplicates|].
  intros k v Hin. apply stored_sum_duplicates in Hin as [Hk ->].
  unfold keys in Hk. apply list_elem_of_fmap in Hk as ([k' v'] & -> & Hin). cbn.
  rewrite (entry_stored K' k' v' Hnd' Hin). by eapply Hnz'.
Qed.

(** X15: with nodal masses on the root, the mass matrix of a mesh with at
    least one block is, at every key, the sum of the blocks' matrices plus
    the matrix of the nodal masses; and whatever the two flags say, it
    stores no key twice and no zero, because the sum of two sparse
    matrices is formed in compressed form. *)
Theorem consistent_mass_matrix_coo_nodal (self : FemMesh Cell) (d : D) (NDOFN : nat)
    (eliminate_zeros_ sum_duplicates_ distribute : bool) (Ms : list coo) (Mn : coo) :
  cellblocks self <> [] ->
  mapM celldata_consistent_mass_matrix_coo (cellblocks self) = Ok Ms ->
  nodal_mass_matrix self d eliminate_zeros_ sum_duplicates_ distribute NDOFN = Ok Mn ->
  exists M,
    consistent_mass_matrix_coo self (Some d) NDOFN
      eliminate_zeros_ sum_duplicates_ distribute = Ok M /\
    (forall k, entry M k = blocks_sum Ms k + entry Mn k) /\
    NoDup (keys M) /\
    (forall k v, (k, v) ∈ M -> v <> 0).
Proof.
  intros Hne Hm Hn.
  destruct Ms as [|A Ms].
  { apply mapM_Ok_length in Hm. destruct (cellblocks self); [done | discriminate]. }
  unfold consistent_mass_matrix_coo. rewrite Hm, Ok_bind.
  cbn [np_sum_tocoo]. rewrite Ok_bind, Hn, !Ok_bind.
  destruct (coo_add_canonical (foldl coo_add A Ms) Mn) as [Hnd Hnz].
  destruct (flags_canonical (coo_add (foldl coo_add A Ms) Mn)
              eliminate_zeros_ sum_duplicates_ Hnd Hnz) as (He & Hnd' & Hnz').
  eexists. split; [reflexivity|]. split; [|split; assumption].
  intros k. rewrite He, entry_coo_add, entry_foldl_coo_add, blocks_sum_cons. reflexivity.
Qed.

(** X16: with [distribute], the matrix of the nodal masses is the sum of
    what the blocks integrate from the masses pulled to their cells. *)
Theorem nodal_mass_matrix_distribute (self : FemMesh Cell) (d : D) (NDOFN : nat)
    (eliminate_zeros_ sum_duplicates_ : bool) (v : V) (edata : list E) (Ms : list coo) :
  cellblocks self <> [] ->
  volumes self = Ok v ->
  mapM (fun b => celldata_pull b d v) (cellblocks self) = Ok edata ->
  mapM (fun bv : Cell * E => celldata_consistent_mass_matrix_coo_values bv.1 bv.2)
    (zip (cellblocks self) edata) = Ok Ms ->
  exists Mn,
    nodal_mass_matrix self d eliminate_zeros_ sum_duplicates_ true NDOFN = Ok Mn /\
    length Ms = length (cellblocks self) /\
    forall k, entry Mn k = blocks_sum Ms k.
Proof.
  intros Hne Hv He Hm. unfold nodal_mass_matrix. rewrite Hv, Ok_bind, He, Ok_bind, Hm, Ok_bind.
  assert (Hlen : length Ms = length (cellblocks self)).
  { apply mapM_Ok_length in Hm, He. rewrite Hm, length_zip, He. lia. }
  destruct Ms as [|A Ms].
  { destruct (cellblocks self); [done | discriminate]. }
  eexists. split; [reflexivity|]. split; [exact Hlen|].
  intros k. rewrite entry_foldl_coo_add, blocks_sum_cons. reflexivity.
Qed.

End MassFacts.

Section MassExamples.
Import Mesh MeshMass DemoMass.

Lemma mass_blocks_sum_witness :
  masses two_blocks = Ok (concat [[QcZ 1; QcZ 2]; [QcZ 3]]) /\
  mass two_blocks = Ok (sumQc (sumQc <$> [[QcZ 1; QcZ 2]; [QcZ 3]])).
Proof.
  apply (mass_blocks_sum two_blocks [[QcZ 1; QcZ 2]; [QcZ 3]]).
  - discriminate.
  - reflexivity.
Defined.

Lemma consistent_mass_matrix_coo_nodal_witness :
  exists M,
    consistent_mass_matrix_coo two_blocks (Some [((1, 1), QcZ 5)]%nat) 6 false false false
      = Ok M /\
    (forall k, entry M k
       = blocks_sum [[((0, 0), QcZ 1); ((0, 0), QcZ 2)]%nat;
                     [((0, 0), QcZ (-3)); ((1, 1), QcZ 0)]%nat] k
         + entry [((1, 1), QcZ 5)]%nat k) /\
    NoDup (keys M) /\
    (forall k v, (k, v) ∈ M -> v <> 0).
Proof.
  apply (consistent_mass_matrix_coo_nodal two_blocks [((1, 1), QcZ 5)]%nat 6
           false false false).
  - discriminate.
  - reflexivity.
  - reflexivity.
Defined.

Lemma nodal_mass_matrix_distribute_witness :
  exists Mn,
    nodal_mass_matrix two_blocks [((1, 1), QcZ 5)]%nat false false true 6 = Ok Mn /\
    length [[((0, 0), QcZ 1); ((0, 0), QcZ 2)]%nat;
            [((0, 0), QcZ (-3)); ((1, 1), QcZ 0)]%nat] = length (cellblocks two_blocks) /\
    forall k, entry Mn k
      = blocks_sum [[((0, 0), QcZ 1); ((0, 0), QcZ 2)]%nat;
                    [((0, 0), QcZ (-3)); ((1, 1), QcZ 0)]%nat] k.
Proof.
  apply (nodal_mass_matrix_distribute two_blocks [((1, 1), QcZ 5)]%nat 6
           false false tt [tt; tt]).
  - discriminate.
  - reflexivity.
  - reflexivity.
  - reflexivity.
Defined.

End MassExamples.

(** ** The model of a mesh and the section of a line mesh *)

Section MeshTreeFacts.
Import Py MeshTree.

Lemma inherited_Some_iff {A} (self : Mesh A) (a : A) :
  inherited self = Some a <->
  exists k, path self !! k = Some (Some a) /\
            forall j, (j < k)%nat -> path self !! j = Some None.
Proof.
  induction self as [own|own parent IH]; cbn [inherited path].
  - split.
    + intros ->. exists 0%nat. split; [reflexivity|]. intros j Hj. lia.
    + intros (k & Hk & Hbefore). destruct k as [|k]; [by injection Hk|].
      destruct k; discriminate.
  - destruct own as [a'|].
    + split.
      * intros [= ->]. exists 0%nat. split; [reflexivity|]. intros j Hj. lia.
      * intros (k & Hk & Hbefore). destruct k as [|k]; [cbn in Hk; congruence|].
        specialize (Hbefore 0%nat ltac:(lia)). discriminate.
    + rewrite IH. split.
      * intros (k & Hk & Hbefore). exists (S k). split; [exact Hk|].
        intros [|j] Hj; [reflexivity|]. apply Hbefore. lia.
      * intros (k & Hk & Hbefore). destruct k as [|k]; [discriminate|].
        exists k. split; [exact Hk|]. intros j Hj. apply (Hbefore (S j)). lia.
Qed.

Lemma inherited_None_iff {A} (self : Mesh A) :
  inherited self = None <-> Forall (fun own => own = None) (path self).
Proof.
  induction self as [own|own parent IH]; cbn [inherited path].
  - rewrite Forall_singleton. reflexivity.
  - rewrite Forall_cons. destruct own as [a|].
    + split; [discriminate | by intros [? _]].
    + rewrite IH. split; [by split | by intros [_ ?]].
Qed.

(** X17: the model of a mesh ([FemMesh.model]) and the section of a line
    mesh ([LineMesh.section]) are what the nearest mesh on the way to the
    root holds: the value [a] is answered exactly when some mesh on the
    path holds [a] and every mesh before it holds nothing, and nothing is
    answered exactly when no mesh on the path holds a value. *)
Theorem inherited_nearest {A} (self : Mesh A) :
  (forall a, model self = Some a <->
     exists k, path self !! k = Some (Some a) /\
               forall j, (j < k)%nat -> path self !! j = Some None) /\
  (model self = None <-> Forall (fun own => own = None) (path self)) /\
  section self = model self.
Proof.
  split; [intros a; apply inherited_Some_iff|].
  split; [apply inherited_None_iff | reflexivity].
Qed.


End MeshTreeFacts.

(** ** Line meshes *)

Section LineMeshFacts.
Import Py LineMesh.


Lemma bind_Return {A B} (m : outcome A) (f : A -> outcome B) b :
  m ≫= f = Return b <-> exists a, m = Return a /\ f a = Return b.
Proof.
  destruct m as [a|e]; cbn.
  - split; [eauto|]. intros (a' & [= <-] & Hf). exact Hf.
  - split; [discriminate|]. intros (a' & [=] & _).
Qed.

Lemma select_ctype_Return nNE c :
  select_ctype nNE = Return c -> nNE = 2%nat /\ c = B2.
Proof.
  unfold select_ctype. destruct (Nat.eqb_spec nNE 2); [|discriminate].
  by intros [= <-].
Qed.

Lemma arrays_with_rows_getitem n data : forall cdata k v,
  arrays_with_rows n data = Return cdata ->
  dict_getitem cdata k = Return v ->
  exists shape, v = ndarray shape /\ head shape = Some n /\ (k, v) ∈ data.
Proof.
  induction data as [|[k' v'] data IH]; intros cdata k v.
  - intros [= <-]. discriminate.
  - cbn [arrays_with_rows].
    intros (keep & Hkeep & (rest & Hrest & [= <-])%bind_Return)%bind_Return Hget.
    destruct keep.
    + cbn [dict_getitem] in Hget. destruct (String.eqb_spec k' k) as [->|Hne].
      * injection Hget as <-. destruct v' as [shape|]; [|discriminate].
        exists shape. split; [reflexivity|]. split; [|apply list_elem_of_here].
        destruct shape as [|n0 shape]; [discriminate|].
        injection Hkeep as Hn0. apply Nat.eqb_eq in Hn0. by subst.
      * destruct (IH rest k v Hrest Hget) as (shape & -> & Hhead & Hin).
        exists shape. split; [reflexivity|]. split; [exact Hhead|].
        by apply list_elem_of_further.
    + destruct (IH rest k v Hrest Hget) as (shape & -> & Hhead & Hin).
      exists shape. split; [reflexivity|]. split; [exact Hhead|].
      by apply list_elem_of_further.
Qed.

Section FromDictFacts.
Context {DictOut PointData CellData Mesh : Type}
  `{Constructors DictOut PointData CellData Mesh}.

(** X20: [from_dict] returns a mesh only for two-node cells. When it
    returns, the data hold under ['topo'] an array with one row per cell
    and two columns, the cells were built by the class [B2] from the arrays
    with one row per cell, and the mesh from these cells; the class [B3] is
    out of reach. *)
Theorem from_dict_two_node_cells (d_in : dict) (points cells : option nat)
    (d_out : DictOut) (mesh : Mesh) :
  from_dict d_in points cells = Return (d_out, mesh) ->
  exists data nC cdata shape pd cd model,
    _get_bernoulli_metadata_ d_in = Return (d_out, data) /\
    cells = Some nC /\
    arrays_with_rows nC data = Return cdata /\
    ("topo", ndarray shape) ∈ data /\
    head shape = Some nC /\ last shape = Some 2%nat /\
    ctype_new B2 cdata = Return cd /\
    LineMesh_new pd cd model = Return mesh.
Proof.
  unfold from_dict. intros ([d_out' data] & Hmeta & Hrun)%bind_Return.
  destruct points as [nP|]; [|discriminate].
  destruct cells as [nC|]; [|discriminate].
  cbn [mbind outcome_bind] in Hrun.
  apply bind_Return in Hrun as (pdata & _ & Hrun).
  apply bind_Return in Hrun as (cdata & Hcdata & Hrun).
  apply bind_Return in Hrun as (pd & _ & Hrun).
  apply bind_Return in Hrun as (topo & Htopo & Hrun).
  apply bind_Return in Hrun as (cd & Hcd & Hrun).
  apply bind_Return in Hrun as (model & _ & Hrun).
  apply bind_Return in Hrun as (mesh' & Hmesh & [= <- <-]).
  destruct (arrays_with_rows_getitem nC data cdata "topo" topo Hcdata Htopo)
    as (shape & -> & Hhead & Hin).
  apply bind_Return in Hcd as (c & Hc & Hcd).
  destruct (last shape) as [nNE|] eqn:Hlast; [|discriminate].
  apply select_ctype_Return in Hc as [-> ->].
  by exists data, nC, cdata, shape, pd, cd, model.
Qed.

(** X21: with three nodes per cell, [from_dict] raises
    [NotImplementedError] as soon as the reader and the point data went
    through, although the line mesh lists a three-node cell class. *)
Theorem from_dict_three_node_cells (d_in : dict) (nP nC : nat) (d_out : DictOut)
    (data pdata cdata : dict) (pd : PointData) (shape : list nat) (nNE : nat) :
  _get_bernoulli_metadata_ d_in = Return (d_out, data) ->
  arrays_with_rows nP data = Return pdata ->
  arrays_with_rows nC data = Return cdata ->
  PointData_new pdata = Return pd ->
  dict_getitem cdata "topo" = Return (ndarray shape) ->
  last shape = Some nNE -> nNE <> 2%nat ->
  from_dict d_in (Some nP) (Some nC) = Throw (Exc NotImplementedError).
Proof.
  intros Hmeta Hp Hc Hpd Htopo Hlast Hne. unfold from_dict.
  rewrite Hmeta. cbn [mbind outcome_bind]. rewrite Hp, Hc. cbn [mbind outcome_bind].
  rewrite Hpd, Htopo. cbn [mbind outcome_bind]. rewrite Hlast.
  unfold select_ctype. apply Nat.eqb_neq in Hne. rewrite Hne. reflexivity.
Qed.

End FromDictFacts.

End LineMeshFacts.

Section LineMeshExamples.
Import Py LineMesh DemoLine.

Lemma from_dict_two_node_cells_witness :
  exists data nC cdata shape pd cd model,
    _get_bernoulli_metadata_ (frame 2) = Return (tt, data) /\
    Some 3%nat = Some nC /\
    arrays_with_rows nC data = Return cdata /\
    ("topo", ndarray shape) ∈ data /\
    head shape = Some nC /\ last shape = Some 2%nat /\
    ctype_new B2 cdata = Return cd /\
    LineMesh_new pd cd model
    = Return ([("x", ndarray [4; 3])]%nat,
              (B2, [("topo", ndarray [3; 2])]%nat), ndarray [6; 6]%nat).
Proof.
  apply (from_dict_two_node_cells (frame 2) (Some 4%nat) (Some 3%nat)).
  reflexivity.
Defined.

Lemma from_dict_three_node_cells_witness :
  from_dict (frame 3) (Some 4%nat) (Some 3%nat) = Throw (Exc NotImplementedError).
Proof.
  apply (from_dict_three_node_cells (frame 3) 4 3 tt (frame 3)
           [("x", ndarray [4; 3])]%nat [("topo", ndarray [3; 3])]%nat
           [("x", ndarray [4; 3])]%nat [3; 3]%nat 3);
    [reflexivity | reflexivity | reflexivity | reflexivity | reflexivity
    | reflexivity | lia].
Defined.

End LineMeshExamples.

(** ** Strain-displacement matrices of Mindlin plates and shells *)

Section MindlinBFacts.
Import MindlinB.
Context `{Lapack}.

Lemma eqb_add_same (a b m : nat) : (a + m =? b + m)%nat = (a =? b)%nat.
Proof.
  destruct (Nat.eqb_spec a b) as [->|Hne]; [apply Nat.eqb_refl|].
  apply Nat.eqb_neq. lia.
Qed.

Lemma eqb_add_other (n a b i j : nat) :
  (a < n)%nat -> (b < n)%nat -> i <> j -> (a + i * n =? b + j * n)%nat = false.
Proof. intros Ha Hb Hij. apply Nat.eqb_neq. nia. Qed.

(** What the assignments for a node leave in the columns of a node. *)
Lemma plate_node_entry (i' : nat) (g : scalar * scalar) (N : scalar) (B : nat -> nat -> scalar)
    (r d i : nat) :
  (d < 3)%nat ->
  plate_node i' g N B r (d + i * 3)
  = if (i =? i')%nat && plate_pattern r d then plate_block g N r d
    else B r (d + i * 3)%nat.
Proof.
  intros Hd. unfold plate_node, setitem, plate_NDOFN.
  destruct (Nat.eqb_spec i i') as [->|Hne].
  - rewrite !eqb_add_same.
    do 6 (destruct r as [|r]; [do 3 (destruct d as [|d]; [reflexivity|]); lia|]).
    do 3 (destruct d as [|d]; [reflexivity|]); lia.
  - rewrite !(eqb_add_other 3) by lia. rewrite !andb_false_r. reflexivity.
Qed.

Lemma shell_node_entry (i' : nat) (g : scalar * scalar) (N : scalar) (B : nat -> nat -> scalar)
    (r d i : nat) :
  (d < 6)%nat ->
  shell_node i' g N B r (d + i * 6)
  = if (i =? i')%nat && shell_pattern r d then shell_block g N r d
    else B r (d + i * 6)%nat.
Proof.
  intros Hd. unfold shell_node, setitem, shell_NDOFN.
  destruct (Nat.eqb_spec i i') as [->|Hne].
  - rewrite !eqb_add_same.
    do 9 (destruct r as [|r]; [do 6 (destruct d as [|d]; [reflexivity|]); lia|]).
    do 6 (destruct d as [|d]; [reflexivity|]); lia.
  - rewrite !(eqb_add_other 6) by lia. rewrite !andb_false_r. reflexivity.
Qed.

Section Nodes.
Variable node : nat -> scalar * scalar -> scalar -> (nat -> nat -> scalar) -> nat -> nat -> scalar.
Variable n : nat.
Variable pattern : nat -> nat -> bool.
Variable block : scalar * scalar -> scalar -> nat -> nat -> scalar.
Hypothesis node_entry : forall i' g N B r d i,
  (d < n)%nat ->
  node i' g N B r (d + i * n)
  = if (i =? i')%nat && pattern r d then block g N r d else B r (d + i * n)%nat.

Lemma nodes_entry Jinv shp iP ds : forall i0 B B',
  nodes node Jinv shp iP i0 ds B = Ok B' ->
  forall r d i, (d < n)%nat ->
    ((i < i0 \/ i0 + length ds <= i)%nat -> B' r (d + i * n)%nat = B r (d + i * n)%nat) /\
    (forall j dj, i = (i0 + j)%nat -> ds !! j = Some dj ->
       exists row Ni, shp !! iP = Some row /\ row !! i = Some Ni /\
         B' r (d + i * n)%nat
         = if pattern r d then block (gdshp_row dj Jinv) Ni r d
           else B r (d + i * n)%nat).
Proof.
  induction ds as [|d0 ds IH]; intros i0 B B' Hrun r d i Hd.
  - injection Hrun as <-. split; [reflexivity|]. intros j dj _ Hj. discriminate.
  - cbn [nodes] in Hrun.
    apply bind_Ok in Hrun as (row & Hrow & Hrun).
    apply bind_Ok in Hrun as (N0 & HN0 & Hrun).
    unfold getitem in Hrow, HN0.
    destruct (shp !! iP) as [row'|] eqn:Hshp; [|discriminate]. injection Hrow as ->.
    destruct (row !! i0) as [N0'|] eqn:Hrow0; [|discriminate]. injection HN0 as ->.
    destruct (IH (S i0) _ B' Hrun r d i Hd) as [Hout Hin]. split.
    + intros Hi. rewrite Hout by (cbn [length] in Hi; lia).
      rewrite node_entry by exact Hd.
      destruct (Nat.eqb_spec i i0) as [->|Hne]; [cbn [length] in Hi; lia|]. reflexivity.
    + intros [|j] dj Hi Hj.
      * rewrite Nat.add_0_r in Hi. subst i. injection Hj as ->. exists row, N0.
        split; [reflexivity|]. split; [exact Hrow0|].
        rewrite Hout by lia. rewrite node_entry by exact Hd.
        rewrite Nat.eqb_refl. reflexivity.
      * destruct (Hin j dj ltac:(lia) Hj) as (row' & Ni & Hrow' & HNi & HB').
        injection Hrow' as <-. exists row, Ni. split; [reflexivity|].
        split; [exact HNi|]. rewrite HB'.
        destruct (pattern r d); [reflexivity|].
        rewrite node_entry by exact Hd.
        destruct (Nat.eqb_spec i i0) as [Heq|Hne]; [lia|]. reflexivity.
Qed.

Lemma nodes_Ok Jinv shp iP row ds : forall i0 B,
  shp !! iP = Some row -> (i0 + length ds <= length row)%nat ->
  is_Ok (nodes node Jinv shp iP i0 ds B).
Proof.
  induction ds as [|d0 ds IH]; intros i0 B Hrow Hlen; [by eexists|].
  cbn [nodes]. unfold getitem. rewrite Hrow, Ok_bind.
  destruct (lookup_lt_is_Some_2 row i0) as [N0 HN0]; [cbn [length] in Hlen; lia|].
  rewrite HN0, Ok_bind. apply IH; [exact Hrow | cbn [length] in Hlen; lia].
Qed.

(** Entries of the matrix of a point that went through. *)
Lemma point_entry shp dshp jac_iE iP Bp :
  point node shp dshp jac_iE iP = Ok Bp ->
  exists ds J Jinv,
    dshp !! iP = Some ds /\ jac_iE !! iP = Some J /\ inv J = Ok Jinv /\
    forall r d i, (d < n)%nat ->
      ((length ds <= i)%nat -> Bp r (d + i * n)%nat = 0) /\
      (forall di, ds !! i = Some di ->
         exists row Ni, shp !! iP = Some row /\ row !! i = Some Ni /\
           Bp r (d + i * n)%nat
           = if pattern r d then block (gdshp_row di Jinv) Ni r d else 0).
Proof.
  unfold point. intros (ds & Hds & (J & HJ & (Jinv & HJinv & Hrun)%bind_Ok)%bind_Ok)%bind_Ok.
  unfold getitem in Hds, HJ.
  destruct (dshp !! iP) as [ds'|]; [|discriminate]. injection Hds as ->.
  destruct (jac_iE !! iP) as [J'|]; [|discriminate]. injection HJ as ->.
  exists ds, J, Jinv. repeat (split; [reflexivity || assumption|]).
  intros r d i Hd.
  destruct (nodes_entry Jinv shp iP ds 0 _ Bp Hrun r d i Hd) as [Hout Hin]. split.
  - intros Hi. apply Hout. lia.
  - intros di Hdi. apply (Hin i di eq_refl Hdi).
Qed.

End Nodes.

(** X6: the strain-displacement matrix of a plate. With as many shape
    function values as derivatives at every point, a Jacobian for every
    point of every cell and no singular Jacobian, the routine returns one
    matrix per cell and point, and the three columns of node [i] hold:
    curvatures from the derivatives of the two rotations only (rows 0-2),
    and shear strains from the derivatives of the deflection and the
    rotations themselves (rows 3, 4). *)
Theorem strain_displacement_matrix_mindlin_plate_entries
    (shp : list (list scalar)) (dshp : list (list (scalar * scalar)))
    (jac : list (list (scalar * scalar * scalar * scalar))) :
  Forall2 (fun row ds => length row = length ds) shp dshp ->
  Forall (fun jac_iE => length jac_iE = length dshp
                        /\ Forall (fun J => is_Ok (inv J)) jac_iE) jac ->
  exists B,
    strain_displacement_matrix_mindlin_plate shp dshp jac = Ok B /\
    length B = length jac /\
    forall e p jac_iE J Jinv ds row i di Ni,
      jac !! e = Some jac_iE -> jac_iE !! p = Some J -> inv J = Ok Jinv ->
      dshp !! p = Some ds -> shp !! p = Some row ->
      ds !! i = Some di -> row !! i = Some Ni ->
      exists Be Bp,
        B !! e = Some Be /\ length Be = length dshp /\ Be !! p = Some Bp /\
        let g := gdshp_row di Jinv in
        Bp 0%nat (2 + i * 3)%nat = g.1 /\
        Bp 1%nat (1 + i * 3)%nat = - g.2 /\
        Bp 2%nat (1 + i * 3)%nat = - g.1 /\ Bp 2%nat (2 + i * 3)%nat = g.2 /\
        Bp 3%nat (0 + i * 3)%nat = g.1 /\ Bp 3%nat (2 + i * 3)%nat = Ni /\
        Bp 4%nat (0 + i * 3)%nat = g.2 /\ Bp 4%nat (1 + i * 3)%nat = - Ni /\
        forall r d, (d < 3)%nat -> plate_pattern r d = false ->
          Bp r (d + i * 3)%nat = 0.
Proof.
  intros Hshp Hjac.
  assert (Hpoint : forall jac_iE p, jac_iE ∈ jac -> (p < length dshp)%nat ->
            is_Ok (point plate_node shp dshp jac_iE p)).
  { intros jac_iE p Hin Hp.
    destruct (proj1 (Forall_forall _ jac) Hjac jac_iE Hin) as [Hlen Hreg].
    destruct (lookup_lt_is_Some_2 dshp p Hp) as [ds Hds].
    destruct (lookup_lt_is_Some_2 jac_iE p) as [J HJ]; [lia|].
    destruct (proj1 (Forall_lookup _ jac_iE) Hreg p J HJ) as [Jinv HJinv].
    destruct (Forall2_lookup_r _ _ _ _ _ Hshp Hds) as (row & Hrow & Hlenrow).
    unfold point, getitem. rewrite Hds, Ok_bind, HJ, Ok_bind, HJinv, Ok_bind.
    apply (nodes_Ok _ _ _ _ row); [exact Hrow | lia]. }
  assert (Hall : is_Ok (strain_displacement_matrix_mindlin_plate shp dshp jac)).
  { apply mapM_is_Ok, Forall_forall. intros jac_iE Hin.
    apply mapM_is_Ok, Forall_forall. intros p Hp%elem_of_seq. apply Hpoint; [exact Hin | lia]. }
  destruct Hall as [B HB]. exists B. split; [exact HB|].
  split; [by apply mapM_Ok_length in HB|].
  intros e p jac_iE J Jinv ds row i di Ni He HJ HJinv Hds Hrow Hdi HNi.
  destruct (mapM_Ok_lookup _ _ _ _ _ HB He) as (Be & HBe & Hrun).
  assert (Hp : seq 0 (length dshp) !! p = Some p).
  { apply lookup_seq. split; [reflexivity|]. by eapply lookup_lt_Some. }
  destruct (mapM_Ok_lookup _ _ _ _ _ Hrun Hp) as (Bp & HBp & Hpt).
  exists Be, Bp. split; [exact HBe|].
  split; [apply mapM_Ok_length in Hrun; by rewrite Hrun, length_seq|].
  split; [exact HBp|].
  destruct (point_entry plate_node 3 plate_pattern plate_block plate_node_entry
              shp dshp jac_iE p Bp Hpt) as (ds' & J' & Jinv' & Hds' & HJ' & HJinv' & Hent).
  assert (ds' = ds) as -> by congruence.
  assert (J' = J) as -> by congruence.
  assert (Jinv' = Jinv) as -> by congruence.
  assert (Hat : forall r d, (d < 3)%nat ->
            Bp r (d + i * 3)%nat
            = if plate_pattern r d then plate_block (gdshp_row di Jinv) Ni r d else 0).
  { intros r d Hd. destruct (Hent r d i Hd) as [_ Hin].
    destruct (Hin di Hdi) as (row' & Ni' & Hrow' & HNi' & ->).
    assert (row' = row) as -> by congruence.
    assert (Ni' = Ni) as -> by congruence. reflexivity. }
  cbv zeta.
  rewrite (Hat 0%nat 2%nat), (Hat 1%nat 1%nat), (Hat 2%nat 1%nat), (Hat 2%nat 2%nat),
    (Hat 3%nat 0%nat), (Hat 3%nat 2%nat), (Hat 4%nat 0%nat), (Hat 4%nat 1%nat) by lia.
  repeat (split; [reflexivity|]).
  intros r d Hd Hpat. by rewrite Hat, Hpat.
Qed.

(** X7: the strain-displacement matrix of a shell never couples a strain
    to a degree of freedom outside the pattern of the element: membrane
    strains (rows 0-2) see the two in-plane displacements only, curvatures
    (rows 3-5) the rotations about x and y only, shear strains (rows 6, 7)
    the deflection and these rotations; in particular the column of the
    rotation about the normal (degree of freedom 5) is zero for every
    node. *)
Theorem strain_displacement_matrix_mindlin_shell_pattern
    (shp : list (list scalar)) (dshp : list (list (scalar * scalar)))
    (jac : list (list (scalar * scalar * scalar * scalar)))
    (B : list (list (nat -> nat -> scalar))) (e p : nat)
    (Be : list (nat -> nat -> scalar)) (Bp : nat -> nat -> scalar) :
  strain_displacement_matrix_mindlin_shell shp dshp jac = Ok B ->
  B !! e = Some Be -> Be !! p = Some Bp ->
  (forall r d i, (d < 6)%nat -> shell_pattern r d = false -> Bp r (d + i * 6)%nat = 0) /\
  (forall r i, Bp r (5 + i * 6)%nat = 0).
Proof.
  intros HB HBe HBp.
  assert (Hpat : forall r d i, (d < 6)%nat -> shell_pattern r d = false ->
            Bp r (d + i * 6)%nat = 0).
  { intros r d i Hd Hpat.
    apply mapM_Ok in HB.
    destruct (Forall2_lookup_r _ _ _ _ _ HB HBe) as (jac_iE & _ & Hrun).
    apply mapM_Ok in Hrun.
    destruct (Forall2_lookup_r _ _ _ _ _ Hrun HBp) as (p' & _ & Hpt).
    destruct (point_entry shell_node 6 shell_pattern shell_block shell_node_entry
                shp dshp jac_iE p' Bp Hpt) as (ds & J & Jinv & Hds & HJ & HJinv & Hent).
    destruct (Hent r d i Hd) as [Hout Hin].
    destruct (ds !! i) as [di|] eqn:Hdi.
    - destruct (Hin di eq_refl) as (row & Ni & _ & _ & ->). by rewrite Hpat.
    - apply Hout. by apply lookup_ge_None. }
  split; [exact Hpat|].
  intros r i. apply (Hpat r 5%nat i); [lia|].
  do 8 (destruct r as [|r]; [reflexivity|]). reflexivity.
Qed.

End MindlinBFacts.

Section MindlinBExamples.
Import MindlinB MindlinBDemo.

Lemma strain_displacement_matrix_mindlin_plate_entries_witness :
  exists B,
    strain_displacement_matrix_mindlin_plate shp1 dshp1 jac1 = Ok B /\
    length B = length jac1 /\
    forall e p jac_iE J Jinv ds row i di Ni,
      jac1 !! e = Some jac_iE -> jac_iE !! p = Some J -> inv J = Ok Jinv ->
      dshp1 !! p = Some ds -> shp1 !! p = Some row ->
      ds !! i = Some di -> row !! i = Some Ni ->
      exists Be Bp,
        B !! e = Some Be /\ length Be = length dshp1 /\ Be !! p = Some Bp /\
        let g := gdshp_row di Jinv in
        Bp 0%nat (2 + i * 3)%nat = g.1 /\
        Bp 1%nat (1 + i * 3)%nat = - g.2 /\
        Bp 2%nat (1 + i * 3)%nat = - g.1 /\ Bp 2%nat (2 + i * 3)%nat = g.2 /\
        Bp 3%nat (0 + i * 3)%nat = g.1 /\ Bp 3%nat (2 + i * 3)%nat = Ni /\
        Bp 4%nat (0 + i * 3)%nat = g.2 /\ Bp 4%nat (1 + i * 3)%nat = - Ni /\
        forall r d, (d < 3)%nat -> plate_pattern r d = false ->
          Bp r (d + i * 3)%nat = 0.
Proof.
  apply (strain_displacement_matrix_mindlin_plate_entries shp1 dshp1 jac1).
  - repeat constructor.
  - repeat constructor. eexists. vm_compute. reflexivity.
Defined.

Lemma strain_displacement_matrix_mindlin_shell_pattern_witness :
  exists B Be Bp,
    strain_displacement_matrix_mindlin_shell shp1 dshp1 jac1 = Ok B /\
    B !! 0%nat = Some Be /\ Be !! 0%nat = Some Bp /\
    (forall r d i, (d < 6)%nat -> shell_pattern r d = false -> Bp r (d + i * 6)%nat = 0) /\
    (forall r i, Bp r (5 + i * 6)%nat = 0).
Proof.
  destruct (strain_displacement_matrix_mindlin_shell shp1 dshp1 jac1) as [B|err] eqn:E.
  - pose proof (mapM_Ok_length _ _ _ E) as HlenB.
    destruct B as [|Be B]; [discriminate|].
    destruct (mapM_Ok_lookup _ _ _ (0%nat) _ E eq_refl) as (Be' & [= <-] & Hrun).
    pose proof (mapM_Ok_length _ _ _ Hrun) as HlenBe.
    destruct Be as [|Bp Be]; [discriminate|].
    exists (( Bp :: Be) :: B), (Bp :: Be), Bp.
    split; [reflexivity|]. split; [reflexivity|]. split; [reflexivity|].
    exact (strain_displacement_matrix_mindlin_shell_pattern shp1 dshp1 jac1
             ((Bp :: Be) :: B) 0 0 (Bp :: Be) Bp E eq_refl eq_refl).
  - exfalso.
    assert (Hret : returns (strain_displacement_matrix_mindlin_shell shp1 dshp1 jac1) = true)
      by (vm_compute; reflexivity).
    rewrite E in Hret. discriminate.
Defined.

End MindlinBExamples.
